(** * sandbox-agent-sdk: NDJSON transport, message enrichment, tool execution
      and the query orchestrator, embedded from the TypeScript sources

    Sources embedded here:
    - [src/transport/sandbox-transport.ts]  (isValidMessageStructure,
      SandboxTransport.enrichMessage, close, createSnapshotWithInfo)
    - the NDJSON protocol parser            (parseLine, parseNDJSONStream,
      parseNDJSONString)
    - [src/tools/tool.ts]                   (executeTool)
    - [src/query-generator.ts]              (QueryImpl.run turn loop,
      handleTeardownAndLifecycle, handleSnapshot, enrichMessage)

    Sections 4b, 7 and 8 add further functions of the same files:
    - [src/transport/sandbox-transport.ts]  (getAuthCredentials,
      buildSandboxEnv, connect, installCLI, startSession, getFinalResult,
      SandboxContextImpl.runCommand, writeFiles and mkdir)
    - the NDJSON protocol parser            (serializeMessage)
    - [src/tools/tool.ts]                   (withToolErrorHandling)
    - [src/tools/mcp-server.ts]             (the call handler of
      createSdkMcpServer, handleToolCall)
    - [src/query-generator.ts]              (executeSetupConfig,
      updateResultMessageWithSnapshot; QueryImpl.run as a generator that
      its consumer resumes by next, return or throw)
    - [src/types/errors.ts]                 (wrapError)

    JavaScript objects are finite maps from property names to values
    ([gmap string json]); platform built-ins ([JSON.parse], [JSON.stringify],
    [String.prototype.trim]) are section variables. *)

From Stdlib Require Import ZArith String List Ascii Bool Lia.
From stdpp Require Import gmap strings list fin_maps pretty.

Set Warnings "-register-all".
Set Default Proof Using "Type".

(* ===================================================================== *)
(** * 1. JavaScript values as produced by [JSON.parse]                    *)
(* ===================================================================== *)

(** A parsed JSON value.  Number payloads are never inspected by the code
    embedded below (only [typeof] and truthiness are), so an integer
    carrier is enough. *)
Inductive json : Type :=
  | JNull
  | JBool (b : bool)
  | JNum (n : Z)
  | JStr (s : string)
  | JArr (xs : list json)
  | JObj (fields : gmap string json).

(** Results of the [typeof] operator; a missing property is [undefined],
    modelled by [None]. *)
Inductive js_type : Type :=
  | TUndefined | TObject | TBoolean | TNumber | TString.

Definition typeof (v : option json) : js_type :=
  match v with
  | None => TUndefined
  | Some JNull => TObject
  | Some (JBool _) => TBoolean
  | Some (JNum _) => TNumber
  | Some (JStr _) => TString
  | Some (JArr _) => TObject
  | Some (JObj _) => TObject
  end.

Definition js_type_eqb (a b : js_type) : bool :=
  match a, b with
  | TUndefined, TUndefined | TObject, TObject | TBoolean, TBoolean
  | TNumber, TNumber | TString, TString => true
  | _, _ => false
  end.

(** [ToBoolean]: undefined, null, false, 0 and the empty string are falsy. *)
Definition truthy (v : option json) : bool :=
  match v with
  | None => false
  | Some JNull => false
  | Some (JBool b) => b
  | Some (JNum n) => negb (n =? 0)%Z
  | Some (JStr s) => negb (String.eqb s "")
  | Some (JArr _) => true
  | Some (JObj _) => true
  end.

(** Property read [v[k]] for the fixed, non-index keys the code uses:
    only a plain object answers; arrays and primitives give undefined. *)
Definition prop (v : json) (k : string) : option json :=
  match v with
  | JObj fields => fields !! k
  | _ => None
  end.

(** The [in] operator, [k in v], on a value already known to be an object. *)
Definition has_key (k : string) (v : json) : bool :=
  match prop v k with Some _ => true | None => false end.

(** The cast [x as Record<string, unknown>]: the own properties of a value. *)
Definition as_record (v : json) : gmap string json :=
  match v with
  | JObj fields => fields
  | _ => ∅
  end.

(** The double-quote character, for the texts that contain one. *)
Definition dq : string := String (ascii_of_nat 34) EmptyString.

Definition newline : ascii := ascii_of_nat 10.

(* ===================================================================== *)
(** * 2. Outcomes and errors                                              *)
(* ===================================================================== *)

(** A call either returns or throws. *)
Inductive result (E A : Type) : Type :=
  | Ok (a : A)
  | Throw (e : E).
Arguments Ok {E A} a.
Arguments Throw {E A} e.

(** [ParseError(message, line, cause)] of [types/errors.ts]; the cause is
    kept as the message of the error that was caught. *)
Record ParseError : Type := mkParseError {
  pe_message : string;
  pe_line : option string;
  pe_cause : option string
}.

(** A thrown value.  [ThrownError name message] is an [Error] object whose
    class is the class [name] of [types/errors.ts] or of JavaScript ([Error],
    [TypeError], ...), or a class derived from it: this is what
    [instanceof] tests.  [ThrownForeign name message] is an [Error] object
    of a class declared elsewhere that extends [Error] itself, with the
    [name] property it gives itself: a caller's own
    [class ValidationError extends Error] is no instance of the class
    [ValidationError] of [types/errors.ts], whatever its name.
    [ThrownValue v] is a thrown value that is not an [Error]. *)
Inductive thrown : Type :=
  | ThrownError (name message : string)
  | ThrownForeign (name message : string)
  | ThrownValue (v : json).

(** [error instanceof Error ? error.message : fallback] *)
Definition message_or (fallback : string) (e : thrown) : string :=
  match e with
  | ThrownError _ message => message
  | ThrownForeign _ message => message
  | ThrownValue _ => fallback
  end.

(* ===================================================================== *)
(** * 3. Transport state                                                  *)
(* ===================================================================== *)

(** The remote execution context, an external collaborator: what its
    [stop()] and [snapshot()] calls will do is part of the handle. *)
Record Sandbox : Type := mkSandbox {
  sandboxId : string;
  stop_outcome : result thrown unit;
  snapshot_outcome : result thrown string
}.

(** The private fields of [class SandboxTransport]. *)
Record SandboxTransport : Type := mkTransport {
  sandbox : option Sandbox;
  isConnected : bool;
  options_snapshotId : option string;
  currentSessionId : option string
}.

(** [new Set(['system', 'user', ...])] *)
Definition VALID_MESSAGE_TYPES : gset string :=
  {[ "system"; "user"; "assistant"; "result"; "tool_use"; "progress"; "error" ]}.

(** [isValidMessageStructure(obj)] *)
Definition isValidMessageStructure (obj : json) : bool :=
  if negb (js_type_eqb (typeof (Some obj)) TObject)
     || match obj with JNull => true | _ => false end
  then false
  else
    let record := obj in
    match prop record "type" with
    | Some (JStr t) =>
        if negb (bool_decide (t ∈ VALID_MESSAGE_TYPES)) then false else true
    | _ => false
    end.

(** The default [message] object [{ role: messageType, content: [] }]. *)
Definition default_message (messageType : string) : json :=
  JObj (<["content" := JArr []]> (<["role" := JStr messageType]> ∅)).

(** The default [error] object. *)
Definition default_error : json :=
  JObj (<["message" := JStr "Unknown error occurred"]>
        (<["code" := JStr "UNKNOWN_ERROR"]> ∅)).

(** [!x || typeof x !== 'object'] *)
Definition not_an_object (x : option json) : bool :=
  negb (truthy x) || negb (js_type_eqb (typeof x) TObject).

(** [typeof x === 'string' ? x : fallback] *)
Definition string_or (x : option json) (fallback : json) : json :=
  match x with
  | Some (JStr s) => JStr s
  | _ => fallback
  end.

(** [this.currentSessionId || generateSessionId()] *)
Definition session_or (current : option string) (generated : string) : string :=
  match current with
  | Some s => if String.eqb s "" then generated else s
  | None => generated
  end.

(** The object literal [{ ...msg, uuid: ..., session_id: ...,
    parent_tool_use_id: ... }] of [enrichMessage]. *)
Definition with_identity (this : SandboxTransport) (uuid sid : string)
    (msg : gmap string json) : gmap string json :=
  <["parent_tool_use_id" := string_or (msg !! "parent_tool_use_id") JNull]>
  (<["session_id" := string_or (msg !! "session_id")
                       (JStr (session_or (currentSessionId this) sid))]>
  (<["uuid" := string_or (msg !! "uuid") (JStr uuid)]> msg)).

(** The [switch (messageType)] of [enrichMessage]. *)
Definition with_type_defaults (messageType : string)
    (enriched : gmap string json) : gmap string json :=
  if bool_decide (messageType = "assistant")
     || bool_decide (messageType = "user") then
    if not_an_object (enriched !! "message")
    then <["message" := default_message messageType]> enriched
    else enriched
  else if bool_decide (messageType = "result") then
    if negb (js_type_eqb (typeof (enriched !! "subtype")) TString)
    then <["subtype" := JStr "success"]> enriched
    else enriched
  else if bool_decide (messageType = "error") then
    if not_an_object (enriched !! "error")
    then <["error" := default_error]> enriched
    else enriched
  else enriched.

Section Builtins.

(** [JSON.stringify] on a parsed value, [JSON.parse] (returning the parsed
    value or the message of the SyntaxError it throws),
    [String.prototype.trim] and the conversion [String(value)]. *)
Variable JSON_stringify : json -> string.
Variable JSON_parse : string -> result string json.
Variable trim : string -> string.
Variable String_of : json -> string.

(** [SandboxTransport.enrichMessage(rawMessage)].  [uuid] and [sid] are the
    values [generateUuid()] and [generateSessionId()] return when called. *)
Definition SandboxTransport_enrichMessage (this : SandboxTransport)
    (uuid sid : string) (rawMessage : json) : result ParseError json :=
  if negb (isValidMessageStructure rawMessage) then
    Throw (mkParseError
             "Invalid message structure: missing or invalid 'type' field"
             (Some (JSON_stringify rawMessage)) None)
  else
    let msg := as_record rawMessage in
    let enriched := with_identity this uuid sid msg in
    let messageType :=
      match enriched !! "type" with Some (JStr t) => t | _ => "" end in
    Ok (JObj (with_type_defaults messageType enriched)).

(* --------------------------------------------------------------------- *)
(** ** NDJSON protocol parser                                             *)
(* --------------------------------------------------------------------- *)

(** [parseLine(line)]: [Ok None] is the [null] returned for a blank line. *)
Definition parseLine (line : string) : result ParseError (option json) :=
  let trimmed := trim line in
  if String.eqb trimmed "" then Ok None
  else
    match JSON_parse trimmed with
    | Ok parsed =>
        if negb (js_type_eqb (typeof (Some parsed)) TObject)
           || match parsed with JNull => true | _ => false end
           || negb (has_key "type" parsed)
        then Throw (mkParseError "Invalid message format: missing type field"
                      (Some trimmed) None)
        else Ok (Some parsed)
    | Throw message =>
        Throw (mkParseError ("Failed to parse JSON: " +:+ message)
                 (Some trimmed) (Some message))
    end.

(** [s.split('\n')]: never empty; the empty string splits to one empty line. *)
Fixpoint split_lines (s : string) : list string :=
  match s with
  | EmptyString => [EmptyString]
  | String c rest =>
      if Ascii.eqb c newline then EmptyString :: split_lines rest
      else
        match split_lines rest with
        | l :: ls => String c l :: ls
        | [] => [String c EmptyString]
        end
  end.

(** What a generator did: the messages it yielded, in order, and the error
    it threw, if it ended by throwing. *)
Definition generated : Type := (list json * option ParseError)%type.

(** The loop [for (const line of lines) { const message = parseLine(line);
    if (message) yield message; }]. *)
Fixpoint yield_lines (lines : list string) : generated :=
  match lines with
  | [] => ([], None)
  | line :: rest =>
      match parseLine line with
      | Throw e => ([], Some e)
      | Ok None => yield_lines rest
      | Ok (Some message) =>
          let '(ys, e) := yield_lines rest in (message :: ys, e)
      end
  end.

(** The [while (true)] loop of [parseNDJSONStream].  [chunks] are the
    successive results of [reader.read()], each already decoded by the
    streaming [TextDecoder]; the end of the list is [done]. *)
Fixpoint stream_loop (buffer : string) (chunks : list string) : generated :=
  match chunks with
  | [] =>
      if negb (String.eqb (trim buffer) "") then yield_lines [buffer]
      else ([], None)
  | value :: rest =>
      let buffer := buffer +:+ value in
      let lines := split_lines buffer in
      (* buffer = lines.pop() || '' *)
      let buffer := List.last lines EmptyString in
      let lines := List.removelast lines in
      match yield_lines lines with
      | (ys, Some e) => (ys, Some e)
      | (ys, None) =>
          let '(zs, e) := stream_loop buffer rest in (ys ++ zs, e)
      end
  end.

(** [parseNDJSONStream(stream)] *)
Definition parseNDJSONStream (chunks : list string) : generated :=
  stream_loop EmptyString chunks.

(** [parseNDJSONString(input)] *)
Definition parseNDJSONString (input : string) : generated :=
  yield_lines (split_lines input).


(* --------------------------------------------------------------------- *)
(** ** Tool execution engine                                              *)
(* --------------------------------------------------------------------- *)

(** [ToolResultContent = TextContent | ImageContent | ResourceContent] *)
Inductive ToolResultContent : Type :=
  | TextContent (text : string)
  | ImageContent (data mimeType : string)
  | ResourceContent (uri : string) (mimeType text blob : option string).

Record ToolResult : Type := mkToolResult {
  content : list ToolResultContent;
  isError : option bool
}.

(** One entry of [parseResult.error.errors]: a path of keys and indices and
    a reason. *)
Inductive PathSegment : Type :=
  | PathKey (k : string)
  | PathIndex (i : N).

Record ZodIssue : Type := mkIssue {
  issue_path : list PathSegment;
  issue_message : string
}.

(** The value [schema.safeParse(input)] returns: a success with the parsed
    data, or a failure whose [error.errors] is the list of issues, or is
    undefined ([None]) when the validation library reports its issues
    elsewhere (Zod 4 has [error.issues] only). *)
Inductive SafeParseReturn : Type :=
  | SafeParseSuccess (data : json)
  | SafeParseError (errors : option (list ZodIssue)).

(** [ToolDefinition]: the schema is its [safeParse], which returns or
    throws (a refinement that throws, an asynchronous refinement met by the
    synchronous parse); awaiting the handler either gives a result or
    throws. *)
Record ToolDefinition : Type := mkTool {
  tool_name : string;
  description : string;
  schema_safeParse : json -> result thrown SafeParseReturn;
  handler : json -> result thrown ToolResult
}.

(** [try { body } catch (error) { handler(error) }] on outcomes. *)
Definition try_catch {E A : Type} (body : result E A)
    (on_error : E -> result E A) : result E A :=
  match body with
  | Ok a => Ok a
  | Throw e => on_error e
  end.

(** String conversion of a path element inside [e.path.join('.')]. *)
Definition segment_text (p : PathSegment) : string :=
  match p with
  | PathKey k => k
  | PathIndex i => pretty i
  end.

(** [`${e.path.join('.')}: ${e.message}`] *)
Definition issue_text (e : ZodIssue) : string :=
  String.concat "." (map segment_text (issue_path e)) +:+ ": " +:+ issue_message e.

(** [executeTool(tool, input)].  The call of [safeParse] and the reading
    of [parseResult.error.errors] stand before the [try], which guards the
    handler only. *)
Definition executeTool (tool : ToolDefinition) (input : json)
    : result thrown ToolResult :=
  match schema_safeParse tool input with
  | Throw e => Throw e
  | Ok (SafeParseError None) =>
      Throw (ThrownError "TypeError"
               "Cannot read properties of undefined (reading 'map')")
  | Ok (SafeParseError (Some errors)) =>
      let errors := String.concat ", " (map issue_text errors) in
      Ok {| content := [TextContent ("Validation error: " +:+ errors)];
            isError := Some true |}
  | Ok (SafeParseSuccess data) =>
      try_catch (handler tool data)
        (fun error =>
           let message := message_or "Unknown error" error in
           Ok {| content := [TextContent ("Tool execution error: " +:+ message)];
                 isError := Some true |})
  end.

(** [haystack.includes(needle)] as a proposition. *)
Definition contains (haystack needle : string) : Prop :=
  exists pre post : string, haystack = pre +:+ needle +:+ post.


(* --------------------------------------------------------------------- *)
(** ** Query orchestrator: data                                           *)
(* --------------------------------------------------------------------- *)

(** [SnapshotResult] of [types/options.ts]; dates are Unix milliseconds. *)
Record SnapshotResult : Type := mkSnapshotResult {
  snapshotId : string;
  sessionId : string;
  createdAt : Z;
  expiresAt : Z;
  sizeBytes : Z;
  parentSnapshotId : option string
}.

(** [SnapshotMode = 'never' | 'on-success' | 'always' | 'on-demand'] *)
Inductive SnapshotMode : Type :=
  | mode_never | mode_on_success | mode_always | mode_on_demand.

Definition SnapshotMode_eqb (a b : SnapshotMode) : bool :=
  match a, b with
  | mode_never, mode_never | mode_on_success, mode_on_success
  | mode_always, mode_always | mode_on_demand, mode_on_demand => true
  | _, _ => false
  end.

Record SnapshotOptions : Type := mkSnapshotOptions {
  mode : SnapshotMode;
  metadata : option (gmap string string);
  onSnapshot : option (SnapshotResult -> result thrown unit)
}.

Record QueryResultInfo : Type := mkQueryResultInfo {
  success : bool;
  error : option thrown;
  durationMs : Z;
  messagesCount : nat
}.

(** The teardown hook of [SandboxLifecycleHooks]; it works on the remote
    context through the capability handle it is given. *)
Record SandboxLifecycleHooks : Type := mkHooks {
  onTeardown : option (QueryResultInfo -> result thrown unit)
}.

(** [QueryArgsInternal], as far as the constructor reads it here. *)
Record QueryArgsInternal : Type := mkQueryArgs {
  arg_hooks : option SandboxLifecycleHooks;
  arg_snapshotEnabled : option bool;
  arg_snapshot : option SnapshotOptions
}.

(** The fields of [class QueryImpl] used below. *)
Record QueryImpl : Type := mkQuery {
  transport : SandboxTransport;
  _sessionId : string;
  isInterrupted : bool;
  messages : list (gmap string json);
  _snapshotId : option string;
  _snapshotInfo : option SnapshotResult;
  _queryStartTime : Z;
  hooks : SandboxLifecycleHooks;
  snapshotEnabled : bool;
  snapshotOptions : option SnapshotOptions
}.

(** [a ?? b] on an optional field. *)
Definition nullish {A : Type} (a : option A) (b : A) : A :=
  match a with Some x => x | None => b end.

(** The constructor of [QueryImpl]: a fresh transport, the session id just
    generated, and the hook and snapshot configuration. *)
Definition QueryImpl_constructor (generatedSessionId : string)
    (queryArgs : QueryArgsInternal) : QueryImpl :=
  {| transport := mkTransport None false None None;
     _sessionId := generatedSessionId;
     isInterrupted := false;
     messages := [];
     _snapshotId := None;
     _snapshotInfo := None;
     _queryStartTime := 0;
     hooks := nullish (arg_hooks queryArgs) (mkHooks None);
     snapshotEnabled := nullish (arg_snapshotEnabled queryArgs) true;
     snapshotOptions := arg_snapshot queryArgs |}.

(** Observable calls, recorded in order. *)
Inductive event : Type :=
  | EvYield (message : gmap string json)
  | EvStartSession (turn : Z) (fullPrompt : string)
  | EvTeardownHook (info : QueryResultInfo)
  | EvSnapshotCreated (sandbox snapshot : string)
  | EvSnapshotFailed (sandbox : string)
  | EvOnSnapshot (info : SnapshotResult)
  | EvClose
  | EvStop (sandbox : string)
  | EvConsoleError (text : string).

(** The state a method runs in: the object and the calls made so far. *)
Record World : Type := mkWorld {
  this : QueryImpl;
  trace : list event
}.

(** Methods are state transformers that return or throw. *)
Definition M (A : Type) : Type := World -> result thrown A * World.

Definition ret {A : Type} (a : A) : M A := fun w => (Ok a, w).

Definition throw {A : Type} (e : thrown) : M A := fun w => (Throw e, w).

Definition bind {A B : Type} (m : M A) (k : A -> M B) : M B :=
  fun w =>
    match m w with
    | (Ok a, w') => k a w'
    | (Throw e, w') => (Throw e, w')
    end.

(** [try { body } catch (e) { on_error(e) }] *)
Definition catch {A : Type} (body : M A) (on_error : thrown -> M A) : M A :=
  fun w =>
    match body w with
    | (Ok a, w') => (Ok a, w')
    | (Throw e, w') => on_error e w'
    end.

Definition get_this : M QueryImpl := fun w => (Ok (this w), w).

Definition modify_this (f : QueryImpl -> QueryImpl) : M unit :=
  fun w => (Ok tt, mkWorld (f (this w)) (trace w)).

Definition emit (e : event) : M unit :=
  fun w => (Ok tt, mkWorld (this w) (trace w ++ [e])).

(** An awaited call whose outcome is already known. *)
Definition await {A : Type} (r : result thrown A) : M A := fun w => (r, w).

Notation "x <- m ;; k" := (bind m (fun x => k))
  (at level 100, m at next level, right associativity).
Notation "m ;;; k" := (bind m (fun _ => k))
  (at level 100, right associativity).

Definition set_transport (t : SandboxTransport) (q : QueryImpl) : QueryImpl :=
  mkQuery t (_sessionId q) (isInterrupted q) (messages q) (_snapshotId q)
    (_snapshotInfo q) (_queryStartTime q) (hooks q) (snapshotEnabled q)
    (snapshotOptions q).

Definition set_isInterrupted (b : bool) (q : QueryImpl) : QueryImpl :=
  mkQuery (transport q) (_sessionId q) b (messages q) (_snapshotId q)
    (_snapshotInfo q) (_queryStartTime q) (hooks q) (snapshotEnabled q)
    (snapshotOptions q).

Definition set_messages (ms : list (gmap string json)) (q : QueryImpl) : QueryImpl :=
  mkQuery (transport q) (_sessionId q) (isInterrupted q) ms (_snapshotId q)
    (_snapshotInfo q) (_queryStartTime q) (hooks q) (snapshotEnabled q)
    (snapshotOptions q).

Definition set_snapshot (info : SnapshotResult) (q : QueryImpl) : QueryImpl :=
  mkQuery (transport q) (_sessionId q) (isInterrupted q) (messages q)
    (Some (snapshotId info)) (Some info) (_queryStartTime q) (hooks q)
    (snapshotEnabled q) (snapshotOptions q).

Definition set_queryStartTime (t : Z) (q : QueryImpl) : QueryImpl :=
  mkQuery (transport q) (_sessionId q) (isInterrupted q) (messages q)
    (_snapshotId q) (_snapshotInfo q) t (hooks q) (snapshotEnabled q)
    (snapshotOptions q).


(* --------------------------------------------------------------------- *)
(** ** Transport methods used by the orchestrator                         *)
(* --------------------------------------------------------------------- *)

(** The classes of [types/errors.ts]: [SDKError] and those derived from
    it.  An error is an [instanceof SDKError] exactly when it is a
    [ThrownError] of one of them. *)
Definition SDK_ERROR_CLASSES : list string :=
  [ "SDKError"; "SandboxError"; "SandboxTimeoutError"; "CLIInstallError";
    "CLIExecutionError"; "AuthenticationError"; "ToolError";
    "ValidationError"; "AbortError"; "ParseError" ].

(** [wrapError(error, defaultMessage)] *)
Definition wrapError (error : thrown) (defaultMessage : string) : thrown :=
  match error with
  | ThrownError name message =>
      if bool_decide (name ∈ SDK_ERROR_CLASSES) then error
      else ThrownError "SDKError"
             (if String.eqb message "" then defaultMessage else message)
  | ThrownForeign _ message =>
      ThrownError "SDKError"
        (if String.eqb message "" then defaultMessage else message)
  | ThrownValue _ => ThrownError "SDKError" defaultMessage
  end.

(** What the outside world answers during [connect]: whether a credential
    is available, what [Sandbox.create] gives, what [installCLI] does. *)
Record ConnectIO : Type := mkConnectIO {
  has_credentials : bool;
  create_outcome : result thrown Sandbox;
  install_outcome : result thrown unit
}.

(** [SandboxTransport.connect(options)], with [options.snapshotId]. *)
Definition SandboxTransport_connect (io : ConnectIO) (snapshot : option string)
    (t : SandboxTransport) : result thrown unit * SandboxTransport :=
  let t := mkTransport (sandbox t) (isConnected t) snapshot (currentSessionId t) in
  if negb (has_credentials io) then
    (Throw (ThrownError "AuthenticationError"
       "Authentication required: set ANTHROPIC_API_KEY or CLAUDE_CODE_OAUTH_TOKEN"), t)
  else
    match create_outcome io with
    | Throw e => (Throw (wrapError e "Failed to create sandbox"), t)
    | Ok sb =>
        let t := mkTransport (Some sb) (isConnected t) snapshot (currentSessionId t) in
        let fresh := match snapshot with
                     | Some id => String.eqb id ""
                     | None => true
                     end in
        match (if fresh then install_outcome io else Ok tt) with
        | Throw e => (Throw (wrapError e "Failed to create sandbox"), t)
        | Ok _ => (Ok tt, mkTransport (Some sb) true snapshot (currentSessionId t))
        end
    end.

(** [SandboxTransport.close()] *)
Definition SandboxTransport_close (t : SandboxTransport)
    : SandboxTransport * list event :=
  let '(held, calls) :=
    match sandbox t with
    | Some sb =>
        (* try { await this.sandbox.stop() } catch { } ; this.sandbox = null *)
        match stop_outcome sb with
        | Ok _ => (None, [EvStop (sandboxId sb)])
        | Throw _ => (None, [EvStop (sandboxId sb)])
        end
    | None => (None, [])
    end in
  (mkTransport held false (options_snapshotId t) None, calls).

(** [SandboxTransport.createSnapshotWithInfo(metadata)] at clock [now]. *)
Definition SandboxTransport_createSnapshotWithInfo (now : Z)
    (t : SandboxTransport)
    : result thrown SnapshotResult * SandboxTransport * list event :=
  match sandbox t with
  | None => (Throw (ThrownError "SandboxError" "Sandbox not connected"), t, [])
  | Some sb =>
      match snapshot_outcome sb with
      | Ok id =>
          let result :=
            {| snapshotId := id;
               sessionId := nullish (currentSessionId t) "";
               createdAt := now;
               expiresAt := now + 7 * 24 * 60 * 60 * 1000;
               sizeBytes := 0;
               parentSnapshotId := options_snapshotId t |} in
          (Ok result,
           mkTransport None false (options_snapshotId t) (currentSessionId t),
           [EvSnapshotCreated (sandboxId sb) id])
      | Throw e =>
          (Throw (ThrownError "SandboxError"
                    ("Failed to create snapshot: " +:+ message_or "unknown error" e)),
           t, [EvSnapshotFailed (sandboxId sb)])
      end
  end.

(** Run a transport method on [this.transport]. *)
Definition on_transport {A : Type}
    (f : SandboxTransport -> result thrown A * SandboxTransport * list event)
    : M A :=
  fun w =>
    match f (transport (this w)) with
    | (r, t, calls) => (r, mkWorld (set_transport t (this w)) (trace w ++ calls))
    end.

(** [this.transport.getSandboxContext()] *)
Definition getSandboxContext : M unit :=
  q <- get_this ;;
  match sandbox (transport q) with
  | Some _ => ret tt
  | None => throw (ThrownError "SandboxError" "Sandbox not connected")
  end.

(* --------------------------------------------------------------------- *)
(** ** Query orchestrator: teardown and snapshot policy                   *)
(* --------------------------------------------------------------------- *)

(** The snapshot record as attached to a result message. *)
Definition snapshot_json (info : SnapshotResult) : json :=
  JObj (<["snapshotId" := JStr (snapshotId info)]>
        (<["sessionId" := JStr (sessionId info)]>
        (<["createdAt" := JNum (createdAt info)]>
        (<["expiresAt" := JNum (expiresAt info)]>
        (<["sizeBytes" := JNum (sizeBytes info)]>
        (match parentSnapshotId info with
         | Some parent => <["parentSnapshotId" := JStr parent]> ∅
         | None => ∅
         end)))))).

(** [isResultMessage(msg)] *)
Definition isResultMessage (msg : gmap string json) : bool :=
  match msg !! "type" with
  | Some (JStr t) => String.eqb t "result"
  | _ => false
  end.

(** The backwards scan of [updateResultMessageWithSnapshot], on the message
    log given last message first. *)
Fixpoint update_last_result (info : SnapshotResult)
    (reversed : list (gmap string json)) : list (gmap string json) :=
  match reversed with
  | [] => []
  | msg :: earlier =>
      if isResultMessage msg
      then <["snapshotInfo" := snapshot_json info]>
             (<["snapshotId" := JStr (snapshotId info)]> msg) :: earlier
      else msg :: update_last_result info earlier
  end.

(** [updateResultMessageWithSnapshot(snapshotInfo)].  The message object is
    the one already yielded to the caller; the trace keeps each message as
    it was when yielded, the log [this.messages] gets the update. *)
Definition updateResultMessageWithSnapshot (info : SnapshotResult) : M unit :=
  modify_this (fun q =>
    set_messages (rev (update_last_result info (rev (messages q)))) q).

(** The decision taken in [handleSnapshot]: the value of [shouldSnapshot]. *)
Definition shouldSnapshot (q : QueryImpl) (success : bool) : bool :=
  match snapshotOptions q with
  | Some opts =>
      SnapshotMode_eqb (mode opts) mode_always
      || (SnapshotMode_eqb (mode opts) mode_on_success && success)
  | None =>
      if snapshotEnabled q then success else false
  end.

(** [handleSnapshot(success)]; [now] is the clock read by
    [createSnapshotWithInfo]. *)
Definition handleSnapshot (now : Z) (success : bool) : M unit :=
  q <- get_this ;;
  if negb (isConnected (transport q)) then ret tt
  else
    if shouldSnapshot q success then
      catch
        (snapshotInfo <-
           on_transport (SandboxTransport_createSnapshotWithInfo now) ;;
         modify_this (set_snapshot snapshotInfo) ;;;
         match snapshotOptions q with
         | Some opts =>
             match onSnapshot opts with
             | Some callback =>
                 emit (EvOnSnapshot snapshotInfo) ;;;
                 await (callback snapshotInfo)
             | None => ret tt
             end
         | None => ret tt
         end ;;;
         updateResultMessageWithSnapshot snapshotInfo)
        (fun snapshotError =>
           emit (EvConsoleError "[claude-agent-sdk] Failed to create snapshot:"))
    else ret tt.

(** The [QueryResultInfo] handed to the teardown hook; [now] is
    [Date.now()] on entry of the teardown. *)
Definition teardown_info (now : Z) (success : bool) (error : option thrown)
    (q : QueryImpl) : QueryResultInfo :=
  {| success := success;
     error := error;
     durationMs := now - _queryStartTime q;
     messagesCount := length (messages q) |}.

(** The first statement of the teardown's [try] block:
    [if (this.hooks.onTeardown && this.transport.connected) { ... }]. *)
Definition teardown_hook_step (now : Z) (success : bool)
    (error : option thrown) (q : QueryImpl) : M unit :=
  match onTeardown (hooks q) with
  | Some hook =>
      if isConnected (transport q) then
        getSandboxContext ;;;
        let resultInfo := teardown_info now success error q in
        emit (EvTeardownHook resultInfo) ;;;
        await (hook resultInfo)
      else ret tt
  | None => ret tt
  end.

(** [handleTeardownAndLifecycle(success, error)]; [now] is [Date.now()] on
    entry and [now_snapshot] the clock at snapshot time. *)
Definition handleTeardownAndLifecycle (now now_snapshot : Z)
    (success : bool) (error : option thrown) : M unit :=
  q <- get_this ;;
  catch
    (teardown_hook_step now success error q ;;;
     handleSnapshot now_snapshot success ;;;
     (* Always close the transport when done *)
     emit EvClose ;;;
     on_transport (fun t =>
       let '(t', calls) := SandboxTransport_close t in (Ok tt, t', calls)))
    (fun teardownError =>
       emit (EvConsoleError "[claude-agent-sdk] Teardown error:")).

(* --------------------------------------------------------------------- *)
(** ** Query orchestrator: message enrichment and the turn loop           *)
(* --------------------------------------------------------------------- *)

(** [x || fallback] on a property *)
Definition truthy_or (x : option json) (fallback : json) : json :=
  match x with
  | Some v => if truthy x then v else fallback
  | None => fallback
  end.

(** [x ?? fallback] on a property *)
Definition nullish_or (x : option json) (fallback : json) : json :=
  match x with
  | None | Some JNull => fallback
  | Some v => v
  end.

(** [QueryImpl.enrichMessage(message)]; [uuid] is the value
    [generateUuid()] returns when called. *)
Definition QueryImpl_enrichMessage (q : QueryImpl) (uuid : string)
    (message : gmap string json) : gmap string json :=
  if truthy (message !! "uuid") && truthy (message !! "session_id") then message
  else
    <["parent_tool_use_id" := nullish_or (message !! "parent_tool_use_id") JNull]>
    (<["session_id" := truthy_or (message !! "session_id") (JStr (_sessionId q))]>
    (<["uuid" := truthy_or (message !! "uuid") (JStr uuid)]> message)).

Definition nl : string := String newline EmptyString.

(** [buildConversationPrompt(history, newMessage)]; a history entry is a
    pair of role and content. *)
Definition buildConversationPrompt (history : list (string * string))
    (newMessage : string) : string :=
  let historyText :=
    String.concat (nl +:+ nl)
      (map (fun msg =>
              (if String.eqb (fst msg) "user" then "Human" else "Assistant")
              +:+ ": " +:+ snd msg) history) in
  "Previous conversation:" +:+ nl +:+ historyText +:+ nl +:+ nl
  +:+ "Human: " +:+ newMessage.

(** A tool-call request scraped from the assistant text. *)
Record ToolRequest : Type := mkToolRequest {
  req_tool : string;
  req_input : json
}.

(** A content block as a plain object, for [JSON.stringify(c)]. *)
Definition content_json (c : ToolResultContent) : json :=
  match c with
  | TextContent text =>
      JObj (<["text" := JStr text]> (<["type" := JStr "text"]> ∅))
  | ImageContent data mimeType =>
      JObj (<["mimeType" := JStr mimeType]>
            (<["data" := JStr data]> (<["type" := JStr "image"]> ∅)))
  | ResourceContent uri mimeType text blob =>
      let add (k : string) (v : option string) (m : gmap string json) :=
        match v with Some x => <[k := JStr x]> m | None => m end in
      JObj (add "blob" blob (add "text" text (add "mimeType" mimeType
            (<["uri" := JStr uri]> (<["type" := JStr "resource"]> ∅)))))
  end.

(** The body of [for (const toolReq of toolRequests)]: the text pushed to
    [toolResults] for one request. *)
Definition tool_result_text (toolMap : gmap string ToolDefinition)
    (toolReq : ToolRequest) : string :=
  match toolMap !! req_tool toolReq with
  | None => "Error: Unknown tool " +:+ dq +:+ req_tool toolReq +:+ dq
  | Some toolDef =>
      match executeTool toolDef (req_input toolReq) with
      | Ok result =>
          let resultText :=
            String.concat nl
              (map (fun c => match c with
                             | TextContent text => text
                             | _ => JSON_stringify (content_json c)
                             end) (content result)) in
          "Tool " +:+ dq +:+ req_tool toolReq +:+ dq +:+ " result:" +:+ nl
          +:+ resultText
      | Throw error =>
          "Tool " +:+ dq +:+ req_tool toolReq +:+ dq +:+ " error: "
          +:+ message_or "Unknown error" error
      end
  end.

(** How the consumption of one turn's message stream ended: the transport
    generator finished, it threw, or [isInterrupted] was found set at one of
    the two checks that follow a yield. *)
Inductive StreamEnd : Type :=
  | StreamDone
  | StreamThrew (e : thrown)
  | StreamInterrupted.

(** What happens during one turn: the messages received from
    [transport.startSession], how the stream ended, and whether the caller
    interrupted while the tools were running. *)
Record TurnIO : Type := mkTurnIO {
  received : list (gmap string json);
  stream_end : StreamEnd;
  interrupted_in_tools : bool
}.

(** The options and collaborators of one run: the prompt and the options
    read by [run], what [connect] meets, what [executeSetup] does once it
    has the sandbox context (setup shorthand and setup hooks), what each
    call of [transport.startSession] brings, the source of message ids, and
    the clock at the start of the run, of the teardown and of the
    snapshot.  [options.maxTurns] holds an integer here; the module
    [Generator] of section 4b takes any number. *)
Record RunIO : Type := mkRunIO {
  prompt : string;
  option_maxTurns : option Z;
  option_tools : option (list ToolDefinition);
  option_mcpServers : option (list string);
  option_snapshotId : option string;
  connect_io : ConnectIO;
  setup_outcome : result thrown unit;
  startSession : Z -> string -> TurnIO;
  generateUuid : nat -> string;
  clock_start : Z;
  clock_teardown : Z;
  clock_snapshot : Z
}.

(** [extractText(message)] of [types/messages.ts], the concatenated text
    blocks of an assistant message (reading a malformed message throws), and
    [parseToolRequestsFromText], the regular-expression scan of a text. *)
Variable extractText : gmap string json -> result thrown string.
Variable parseToolRequestsFromText : string -> list ToolRequest.

(** [isAssistantMessage(msg)] *)
Definition isAssistantMessage (msg : gmap string json) : bool :=
  match msg !! "type" with
  | Some (JStr t) => String.eqb t "assistant"
  | _ => false
  end.

(** [xs.map(extractText)], stopping at the first call that throws. *)
Fixpoint map_extractText (xs : list (gmap string json))
    : result thrown (list string) :=
  match xs with
  | [] => Ok []
  | x :: rest =>
      match extractText x with
      | Throw e => Throw e
      | Ok text =>
          match map_extractText rest with
          | Throw e => Throw e
          | Ok texts => Ok (text :: texts)
          end
      end
  end.

(** [this.messages.slice(-10).filter(isAssistantMessage).map(extractText)
    .join('')] *)
Definition assistantTextOf (log : list (gmap string json))
    : result thrown string :=
  let turnMessages := drop (length log - 10) log in
  match map_extractText (List.filter isAssistantMessage turnMessages) with
  | Throw e => Throw e
  | Ok texts => Ok (String.concat "" texts)
  end.

(** [this.messages.push(message); yield message] *)
Definition push_and_yield (message : gmap string json) : M unit :=
  modify_this (fun q => set_messages (messages q ++ [message]) q) ;;;
  emit (EvYield message).

(** The [for await] loop over one turn's stream. *)
Fixpoint consume (io : RunIO) (stream : list (gmap string json)) : M unit :=
  match stream with
  | [] => ret tt
  | rawMessage :: rest =>
      q <- get_this ;;
      let message :=
        QueryImpl_enrichMessage q (generateUuid io (length (messages q)))
          rawMessage in
      push_and_yield message ;;;
      consume io rest
  end.


(** [new Map()] filled by [toolMap.set(t.name, t)] in order. *)
Definition build_toolMap (tools : list ToolDefinition)
    : gmap string ToolDefinition :=
  fold_left (fun m t => <[tool_name t := t]> m) tools ∅.

(** The [while (turn < maxTurns && !this.isInterrupted)] loop of
    [QueryImpl.run].  It returns the final value of [turn]; [None] means the
    recursion budget [fuel] ran out before the loop ended. *)
Fixpoint turn_loop (io : RunIO) (maxTurns : Z) (tools : list ToolDefinition)
    (fuel : nat) (turn : Z) (conversationHistory : list (string * string))
    (currentPrompt : string) : M (option Z) :=
  match fuel with
  | O => ret None
  | S fuel' =>
      q <- get_this ;;
      if (turn <? maxTurns)%Z && negb (isInterrupted q) then
        let turn := (turn + 1)%Z in
        let fullPrompt :=
          if (0 <? length conversationHistory)%nat
          then buildConversationPrompt conversationHistory currentPrompt
          else currentPrompt in
        let session := startSession io turn fullPrompt in
        emit (EvStartSession turn fullPrompt) ;;;
        consume io (received session) ;;;
        match stream_end session with
        | StreamThrew e => throw e
        | StreamInterrupted => modify_this (set_isInterrupted true)
        | StreamDone => ret tt
        end ;;;
        q <- get_this ;;
        if isInterrupted q then ret (Some turn)
        else
          assistantText <- await (assistantTextOf (messages q)) ;;
          let toolRequests := parseToolRequestsFromText assistantText in
          if (length toolRequests =? 0)%nat || (length tools =? 0)%nat
          then ret (Some turn)
          else
            let toolResults :=
              map (tool_result_text (build_toolMap tools)) toolRequests in
            (if interrupted_in_tools session
             then modify_this (set_isInterrupted true) else ret tt) ;;;
            let conversationHistory :=
              conversationHistory
              ++ (if String.eqb assistantText "" then []
                  else [("assistant", assistantText)]) in
            let toolResultsText := String.concat (nl +:+ nl) toolResults in
            let conversationHistory :=
              conversationHistory
              ++ [("user", "Tool results:" +:+ nl +:+ toolResultsText)] in
            turn_loop io maxTurns tools fuel' turn conversationHistory
              "Please continue based on the tool results above. Provide the final answer to the user."
      else ret (Some turn)
  end.

(** The number of turns performed: the calls of [transport.startSession]. *)
Definition is_turn (e : event) : bool :=
  match e with EvStartSession _ _ => true | _ => false end.

Definition turns_performed (w : World) : nat :=
  length (List.filter is_turn (trace w)).

(** The synthetic [system] messages of [run]. *)
Definition system_message (subtype uuid session : string)
    (extra : gmap string json) : gmap string json :=
  <["type" := JStr "system"]>
  (<["subtype" := JStr subtype]>
  (<["uuid" := JStr uuid]>
  (<["session_id" := JStr session]>
  (<["parent_tool_use_id" := JNull]> extra)))).

(** [error instanceof Error ? error : new Error(String(error))] *)
Definition as_Error (e : thrown) : thrown :=
  match e with
  | ThrownError _ _ => e
  | ThrownForeign _ _ => e
  | ThrownValue v => ThrownError "Error" (String_of v)
  end.

(** The turn loop as [run] enters it: [maxTurns = options.maxTurns ?? 10],
    [tools = options.tools ?? []], [turn = 0], an empty history and the
    user prompt.  The budget covers every iteration the guard can admit. *)
Definition run_turn_loop (io : RunIO) : M (option Z) :=
  let maxTurns := nullish (option_maxTurns io) 10%Z in
  let tools := nullish (option_tools io) [] in
  turn_loop io maxTurns tools (S (Z.to_nat maxTurns)) 0%Z [] (prompt io).

(** The [try] block of [QueryImpl.run], for a consumer that resumes the
    generator by [next()] at every [yield]; it returns what the turn loop
    returned.  The module [Generator] of section 4b has the consumers that
    call [return()] or [throw()]. *)
Definition run_body (io : RunIO) : M (option Z) :=
  let tools := nullish (option_tools io) [] in
  on_transport (fun t =>
    let '(r, t') :=
      SandboxTransport_connect (connect_io io) (option_snapshotId io) t in
    (r, t', [])) ;;;
  (* executeSetup *)
  getSandboxContext ;;;
  await (setup_outcome io) ;;;
  q <- get_this ;;
  let initMessage :=
    system_message "session_started"
      (generateUuid io (length (messages q))) (_sessionId q)
      (<["tools" := JArr (map (fun t => JStr (tool_name t)) tools)]>
       (<["mcp_servers" :=
            JArr (map JStr (nullish (option_mcpServers io) []))]> ∅)) in
  emit (EvYield initMessage) ;;;
  modify_this (fun q => set_messages (messages q ++ [initMessage]) q) ;;;
  turned <- run_turn_loop io ;;
  q <- get_this ;;
  let endMessage :=
    system_message "session_ended"
      (generateUuid io (length (messages q))) (_sessionId q) ∅ in
  emit (EvYield endMessage) ;;;
  modify_this (fun q => set_messages (messages q ++ [endMessage]) q) ;;;
  ret turned.

(** [QueryImpl.run()], consumed to its end:
    [try { ... } catch (error) { queryError = ...; throw wrapError(error,
    'Query failed') } finally { await handleTeardownAndLifecycle(...) }]. *)
Definition QueryImpl_run (io : RunIO) : M (option Z) :=
  fun w =>
    let w := mkWorld (set_queryStartTime (clock_start io) (this w)) (trace w) in
    match run_body io w with
    | (Ok n, w') =>
        match handleTeardownAndLifecycle (clock_teardown io)
                (clock_snapshot io) true None w' with
        | (Ok _, w'') => (Ok n, w'')
        | (Throw e, w'') => (Throw e, w'')
        end
    | (Throw error, w') =>
        let queryError := as_Error error in
        match handleTeardownAndLifecycle (clock_teardown io)
                (clock_snapshot io) false (Some queryError) w' with
        | (Ok _, w'') => (Throw (wrapError error "Query failed"), w'')
        | (Throw e, w'') => (Throw e, w'')
        end
    end.


(* --------------------------------------------------------------------- *)
(** ** Notions used to state the properties                               *)
(* --------------------------------------------------------------------- *)

(** A property holds a non-null value that [typeof] calls an object: a
    plain object or an array. *)
Definition holds_object (x : option json) : Prop :=
  (exists fields, x = Some (JObj fields)) \/ (exists xs, x = Some (JArr xs)).

(** A property holds a string. *)
Definition holds_string (x : option json) : Prop :=
  exists s, x = Some (JStr s).


(** The raw values the structural gate has to refuse: null, a primitive, a
    value without a [type] field, with a [type] that is not a string, or
    with a string [type] outside the closed set. *)
Inductive malformed : json -> Prop :=
  | malformed_null : malformed JNull
  | malformed_primitive (v : json) :
      typeof (Some v) <> TObject -> malformed v
  | malformed_no_type (v : json) :
      prop v "type" = None -> malformed v
  | malformed_type_not_string (v x : json) :
      prop v "type" = Some x -> (forall s, x <> JStr s) -> malformed v
  | malformed_unknown_type (v : json) (s : string) :
      prop v "type" = Some (JStr s) -> s ∉ VALID_MESSAGE_TYPES -> malformed v.

(** The text carried by a sequence of chunks. *)
Definition text_of (chunks : list string) : string :=
  foldr String.append EmptyString chunks.

(** A string without a newline character. *)
Fixpoint no_newline (s : string) : bool :=
  match s with
  | EmptyString => true
  | String c rest => negb (Ascii.eqb c newline) && no_newline rest
  end.

(** One generator run after another: the second starts only if the first
    did not throw. *)
Definition then_generated (g1 g2 : generated) : generated :=
  match g1 with
  | (ys, Some e) => (ys, Some e)
  | (ys, None) => let '(zs, e) := g2 in (ys ++ zs, e)
  end.

(** A line of NDJSON text and what it stands for: nothing when it is blank,
    a message when it parses to an object that has a [type] key. *)
Inductive ndjson_line : string -> option json -> Prop :=
  | blank_line (l : string) :
      no_newline l = true -> trim l = EmptyString -> ndjson_line l None
  | message_line (l : string) (fields : gmap string json) :
      no_newline l = true -> trim l <> EmptyString ->
      JSON_parse (trim l) = Ok (JObj fields) ->
      is_Some (fields !! "type") ->
      ndjson_line l (Some (JObj fields)).

(** The snapshot policy in the words of the specification: with advanced
    options the mode decides ([always], or [on-success] and the run
    succeeded); without them the boolean flag means a snapshot exactly when
    the run succeeded. *)
Definition snapshot_policy (advanced : option SnapshotOptions)
    (enabled success : bool) : Prop :=
  match advanced with
  | Some opts =>
      mode opts = mode_always
      \/ (mode opts = mode_on_success /\ success = true)
  | None => enabled = true /\ success = true
  end.

(** A snapshot was created during the calls recorded in a trace. *)
Definition snapshot_created (calls : list event) : Prop :=
  exists sb id, In (EvSnapshotCreated sb id) calls.

(** [m] adds between [lo] and [hi] turns to the trace, from any state. *)
Definition turn_bounds {A : Type} (m : M A) (lo hi : nat) : Prop :=
  forall w, turns_performed w + lo <= turns_performed (m w).2
            /\ turns_performed (m w).2 <= turns_performed w + hi.

(** [m] never reports an exhausted recursion budget. *)
Definition completes (m : M (option Z)) : Prop :=
  forall w, (m w).1 <> Ok None.

End Builtins.

(* ===================================================================== *)
(** * 4. Sample collaborators and inputs                                  *)
(* ===================================================================== *)

(** Stand-ins for the platform built-ins, enough for the sample inputs. *)
Definition quoted (s : string) : string := dq +:+ s +:+ dq.

Definition sample_stringify (v : json) : string :=
  match v with
  | JNull => "null"
  | JBool true => "true"
  | JBool false => "false"
  | JNum n => pretty n
  | JStr s => quoted s
  | JArr _ => "[...]"
  | JObj _ => "{...}"
  end.

Definition is_space (c : ascii) : bool :=
  let n := nat_of_ascii c in
  (n =? 32) || (n =? 9) || (n =? 10) || (n =? 11) || (n =? 12) || (n =? 13).

Fixpoint trim_left (s : string) : string :=
  match s with
  | EmptyString => EmptyString
  | String c rest => if is_space c then trim_left rest else s
  end.

Fixpoint trim_right (s : string) : string :=
  match s with
  | EmptyString => EmptyString
  | String c rest =>
      match trim_right rest with
      | EmptyString => if is_space c then EmptyString else String c EmptyString
      | kept => String c kept
      end
  end.

Definition sample_trim (s : string) : string := trim_right (trim_left s).

(** The line [{ type: t }] as NDJSON text, and the object it parses to. *)
Definition line_of_type (t : string) : string :=
  "{" +:+ quoted "type" +:+ ":" +:+ quoted t +:+ "}".

Definition object_of_type (t : string) : gmap string json :=
  <["type" := JStr t]> ∅.

(** The line [{ type: 42 }] and its object. *)
Definition line_type_42 : string := "{" +:+ quoted "type" +:+ ":42}".

Definition object_type_42 : gmap string json := <["type" := JNum 42]> ∅.

Definition sample_parse (s : string) : result string json :=
  if String.eqb s (line_of_type "result") then Ok (JObj (object_of_type "result"))
  else if String.eqb s (line_of_type "assistant")
  then Ok (JObj (object_of_type "assistant"))
  else if String.eqb s line_type_42 then Ok (JObj object_type_42)
  else Throw "Unexpected token".

Definition sample_extractText (m : gmap string json) : result thrown string :=
  match m !! "text" with
  | Some (JStr s) => Ok s
  | _ => Ok EmptyString
  end.

Definition sample_requests (text : string) : list ToolRequest := [].

(** A three-line stream, the middle line blank and the last one without a
    trailing newline, cut into chunks in the middle of both messages. *)
Definition sample_entries : list (string * option json) :=
  [ (line_of_type "result", Some (JObj (object_of_type "result")));
    (EmptyString, None);
    (line_of_type "assistant", Some (JObj (object_of_type "assistant"))) ].

Definition sample_text : string := String.concat nl (map fst sample_entries).

Definition sample_chunks : list string :=
  [ substring 0 9 sample_text;
    substring 9 20 sample_text;
    substring 29 (String.length sample_text - 29) sample_text ].

(** Transports: never connected, and connected to a live sandbox. *)
Definition idle_transport : SandboxTransport := mkTransport None false None None.

Definition live_sandbox : Sandbox := mkSandbox "sbx_1" (Ok tt) (Ok "snap_1").

Definition connected_transport : SandboxTransport :=
  mkTransport (Some live_sandbox) true None (Some "session_1").

(** A message whose [uuid] is the empty string. *)
Definition raw_empty_uuid : gmap string json :=
  <["parent_tool_use_id" := JStr "tool-1"]>
  (<["session_id" := JStr "session_1"]>
  (<["uuid" := JStr ""]> (object_of_type "system"))).

(** Query configurations. *)
Definition args_default : QueryArgsInternal := mkQueryArgs None None None.

Definition args_always : QueryArgsInternal :=
  mkQueryArgs None None (Some (mkSnapshotOptions mode_always None None)).

Definition failing_hook (info : QueryResultInfo) : result thrown unit :=
  Throw (ThrownError "Error" "cleanup failed").

Definition args_failing_hook : QueryArgsInternal :=
  mkQueryArgs (Some (mkHooks (Some failing_hook))) (Some false) None.

(** One turn that streams a single assistant message. *)
Definition sample_turn : TurnIO :=
  mkTurnIO [object_of_type "assistant"] StreamDone false.

(** A run with the given turn limit and credential, no tools. *)
Definition sample_run (maxTurns : option Z) (credentials : bool) : RunIO :=
  {| prompt := "What is 2 + 2?";
     option_maxTurns := maxTurns;
     option_tools := None;
     option_mcpServers := None;
     option_snapshotId := None;
     connect_io := mkConnectIO credentials (Ok live_sandbox) (Ok tt);
     setup_outcome := Ok tt;
     startSession := fun _ _ => sample_turn;
     generateUuid := fun n => "uuid-" +:+ pretty n;
     clock_start := 0;
     clock_teardown := 100;
     clock_snapshot := 101 |}.

(** A calculator-style tool whose schema wants numeric [a] and [b]. *)
Definition calculator : ToolDefinition :=
  {| tool_name := "calculator";
     description := "Add numbers";
     schema_safeParse := fun input =>
       match prop input "a", prop input "b" with
       | Some (JNum a), Some (JNum b) => Ok (SafeParseSuccess input)
       | Some (JNum _), _ =>
           Ok (SafeParseError
                 (Some [mkIssue [PathKey "b"] "Expected number"]))
       | _, Some (JNum _) =>
           Ok (SafeParseError
                 (Some [mkIssue [PathKey "a"] "Expected number"]))
       | _, _ =>
           Ok (SafeParseError
                 (Some [mkIssue [PathKey "a"] "Expected number";
                        mkIssue [PathKey "b"] "Expected number"]))
       end;
     handler := fun data =>
       match prop data "a", prop data "b" with
       | Some (JNum a), Some (JNum b) =>
           Ok (mkToolResult [TextContent (pretty (a + b)%Z)] None)
       | _, _ => Throw (ThrownError "Error" "unreachable")
       end |}.



Definition args_plain : QueryArgsInternal := mkQueryArgs None (Some false) None.

(** A query object as the constructor builds it, before anything ran. *)
Definition fresh_world (queryArgs : QueryArgsInternal) : World :=
  mkWorld (QueryImpl_constructor "session_0" queryArgs) [].

(** The same object once its transport is connected. *)
Definition connected_world (queryArgs : QueryArgsInternal) : World :=
  mkWorld (set_transport connected_transport
             (QueryImpl_constructor "session_0" queryArgs)) [].

(** A whole run on the sample collaborators. *)
Definition sample_QueryImpl_run (io : RunIO) (queryArgs : QueryArgsInternal)
    : result thrown (option Z) * World :=
  QueryImpl_run sample_stringify sample_stringify sample_extractText
    sample_requests io (fresh_world queryArgs).

(* ===================================================================== *)
(** * 4b. Further functions of the same files                             *)
(* ===================================================================== *)

(* --------------------------------------------------------------------- *)
(** ** NDJSON serialization                                               *)
(* --------------------------------------------------------------------- *)

Section Serialization.

Variable JSON_stringify : json -> string.

(** [serializeMessage(message)] *)
Definition serializeMessage (message : gmap string json) : string :=
  JSON_stringify (JObj message) +:+ nl.

End Serialization.

(* --------------------------------------------------------------------- *)
(** ** Transport: installation, live session, final result, environment   *)
(* --------------------------------------------------------------------- *)

(** The outcome of a finished command: exit code and captured output. *)
Record CommandFinished : Type := mkCommandFinished {
  exitCode : Z;
  command_stdout : string;
  command_stderr : string
}.

(** What the sandbox answers to the two commands of [installCLI]. *)
Record InstallIO : Type := mkInstallIO {
  npm_install : result thrown CommandFinished;
  which_claude : result thrown CommandFinished
}.

(** [new CLIInstallError(message)] *)
Definition CLIInstallError (message : string) : thrown :=
  ThrownError "CLIInstallError" ("Failed to install Claude CLI: " +:+ message).

(** [a || b] on strings *)
Definition or_text (a b : string) : string :=
  if String.eqb a "" then b else a.

(** The [catch (error)] clause of [installCLI]: a [CLIInstallError] is
    thrown again, anything else is wrapped in a new one. *)
Definition installCLI_catch (error : thrown) : result thrown unit :=
  match error with
  | ThrownError name _ =>
      if String.eqb name "CLIInstallError" then Throw error
      else Throw (CLIInstallError (message_or "Unknown error" error))
  | ThrownForeign _ _ =>
      Throw (CLIInstallError (message_or "Unknown error" error))
  | ThrownValue _ =>
      Throw (CLIInstallError (message_or "Unknown error" error))
  end.

(** [SandboxTransport.installCLI()] *)
Definition SandboxTransport_installCLI (t : SandboxTransport) (io : InstallIO)
    : result thrown unit :=
  match sandbox t with
  | None => Throw (ThrownError "SandboxError" "Sandbox not connected")
  | Some _ =>
      try_catch
        (match npm_install io with
         | Throw e => Throw e
         | Ok installResult =>
             if negb (exitCode installResult =? 0)%Z then
               Throw (CLIInstallError
                        (or_text (command_stderr installResult)
                           "Unknown installation error"))
             else
               match which_claude io with
               | Throw e => Throw e
               | Ok verifyResult =>
                   if negb (exitCode verifyResult =? 0)%Z then
                     Throw (CLIInstallError
                              "Claude CLI not found after installation")
                   else Ok tt
               end
         end)
        installCLI_catch
  end.

(** [this.options.apiKey || process.env['ANTHROPIC_API_KEY']] on optional
    strings: the first when it is a non-empty string, else the second. *)
Definition or_else (a b : option string) : option string :=
  match a with
  | Some s => if String.eqb s "" then b else a
  | None => b
  end.

(** Truthiness of an optional string. *)
Definition present (a : option string) : bool :=
  match a with
  | Some s => negb (String.eqb s "")
  | None => false
  end.

(** [getAuthCredentials()]: the pair of [apiKey] and [oauthToken], from the
    options or else from the process environment. *)
Definition getAuthCredentials (option_apiKey option_oauthToken : option string)
    (processEnv : gmap string string) : option string * option string :=
  (or_else option_apiKey (processEnv !! "ANTHROPIC_API_KEY"),
   or_else option_oauthToken (processEnv !! "CLAUDE_CODE_OAUTH_TOKEN")).

(** The check at the head of [connect] and [startSession]:
    [apiKey || oauthToken] is truthy. *)
Definition credentials_available (auth : option string * option string) : bool :=
  negb (negb (present auth.1) && negb (present auth.2)).

(** [buildSandboxEnv(additionalEnv)] *)
Definition buildSandboxEnv (auth : option string * option string)
    (additionalEnv : option (gmap string string)) : gmap string string :=
  let env : gmap string string := ∅ in
  let env :=
    match auth.1 with
    | Some apiKey =>
        if present auth.1 then <["ANTHROPIC_API_KEY" := apiKey]> env else env
    | None => env
    end in
  let env :=
    match auth.2 with
    | Some oauthToken =>
        if present auth.2 then <["CLAUDE_CODE_OAUTH_TOKEN" := oauthToken]> env
        else env
    | None => env
    end in
  match additionalEnv with
  | Some extra => extra ∪ env
  | None => env
  end.

(** One element of [command.logs()]. *)
Inductive LogEvent : Type :=
  | StdoutData (data : string)
  | StderrData (data : string).

(** The stdout text of a log sequence. *)
Fixpoint stdout_text (logs : list LogEvent) : string :=
  match logs with
  | [] => EmptyString
  | StdoutData data :: rest => data +:+ stdout_text rest
  | StderrData _ :: rest => stdout_text rest
  end.

(** [isErrorMessage(msg)] *)
Definition isErrorMessage (msg : gmap string json) : bool :=
  match msg !! "type" with
  | Some (JStr t) => String.eqb t "error"
  | _ => false
  end.

(** [isResultMessage(message) && message.subtype === 'success'] *)
Definition is_success_result (message : gmap string json) : bool :=
  isResultMessage message
  && match message !! "subtype" with
     | Some (JStr subtype) => String.eqb subtype "success"
     | _ => false
     end.

Section LiveSession.

Variable JSON_stringify : json -> string.
Variable JSON_parse : string -> result string json.
Variable trim : string -> string.
Variable String_of : json -> string.

(** The handling of one complete line in [startSession]:
    [if (line.trim()) { try { yield enrichMessage(JSON.parse(line)) }
    catch { ... } }].  A line that is not JSON is logged, one that is JSON
    but fails the gate is logged and skipped; neither is thrown further. *)
Definition live_line (this : SandboxTransport) (uuid sid : string)
    (line : string) : option json :=
  if String.eqb (trim line) "" then None
  else
    match JSON_parse line with
    | Throw _ => None
    | Ok rawMessage =>
        match SandboxTransport_enrichMessage JSON_stringify this uuid sid
                rawMessage with
        | Ok message => Some message
        | Throw _ => None
        end
    end.

(** [for (const line of lines) { ... }]: the messages yielded for a list of
    lines, when [n] messages were yielded before; [generateUuid n] is the id
    available to the message that follows [n] others. *)
Fixpoint live_lines (this : SandboxTransport) (generateUuid : nat -> string)
    (sid : string) (n : nat) (lines : list string) : list json :=
  match lines with
  | [] => []
  | line :: rest =>
      match live_line this (generateUuid n) sid line with
      | Some message =>
          message :: live_lines this generateUuid sid (S n) rest
      | None => live_lines this generateUuid sid n rest
      end
  end.

(** The [for await (const log of command.logs())] loop of [startSession]:
    the messages yielded and the buffer left when the logs end. *)
Fixpoint live_logs (this : SandboxTransport) (generateUuid : nat -> string)
    (sid : string) (buffer : string) (n : nat) (logs : list LogEvent)
    : list json * string :=
  match logs with
  | [] => ([], buffer)
  | StdoutData data :: rest =>
      let buffer := buffer +:+ data in
      let lines := split_lines buffer in
      let buffer := List.last lines EmptyString in
      let yielded :=
        live_lines this generateUuid sid n (List.removelast lines) in
      let '(later, buffer) :=
        live_logs this generateUuid sid buffer (n + length yielded) rest in
      (yielded ++ later, buffer)
  | StderrData _ :: rest =>
      live_logs this generateUuid sid buffer n rest
  end.

(** The loop followed by [if (buffer.trim()) { try { ... } catch { } }]:
    every message a session yields when its logs end normally. *)
Definition live_stream (this : SandboxTransport) (generateUuid : nat -> string)
    (sid : string) (logs : list LogEvent) : list json :=
  let '(yielded, buffer) := live_logs this generateUuid sid EmptyString 0 logs in
  yielded ++ live_lines this generateUuid sid (length yielded) [buffer].

(** What the outside world answers during [startSession]. *)
Record SessionIO : Type := mkSessionIO {
  session_auth : option string * option string;
  generateSessionId : string;
  generateSessionId_later : string;
  session_generateUuid : nat -> string;
  versionCheck : result thrown unit;
  runCommand_detached : result thrown unit;
  command_logs : list LogEvent;
  logs_outcome : result thrown unit;
  command_wait : result thrown CommandFinished;
  signal_aborted : bool
}.

(** The [try] block of [startSession]: what is yielded, and how it ends. *)
Definition startSession_body (io : SessionIO) (this : SandboxTransport)
    : list json * result thrown unit :=
  match versionCheck io with
  | Throw e => ([], Throw e)
  | Ok _ =>
      match runCommand_detached io with
      | Throw e => ([], Throw e)
      | Ok _ =>
          match logs_outcome io with
          | Throw e =>
              ((live_logs this (session_generateUuid io)
                  (generateSessionId_later io) EmptyString 0
                  (command_logs io)).1,
               Throw e)
          | Ok _ =>
              let yielded :=
                live_stream this (session_generateUuid io)
                  (generateSessionId_later io) (command_logs io) in
              match command_wait io with
              | Throw e => (yielded, Throw e)
              | Ok result =>
                  if negb (exitCode result =? 0)%Z then
                    (yielded,
                     Throw (ThrownError "CLIExecutionError"
                              ("Claude CLI exited with code "
                               +:+ pretty (exitCode result) +:+ ": "
                               +:+ or_text (command_stderr result)
                                     (or_text (command_stdout result)
                                        "no output"))))
                  else (yielded, Ok tt)
              end
          end
      end
  end.

(** [error instanceof CLIExecutionError || error instanceof SandboxError] *)
Definition execution_or_sandbox_error (error : thrown) : bool :=
  match error with
  | ThrownError name _ =>
      bool_decide (name ∈ ["CLIExecutionError"; "SandboxError";
                           "SandboxTimeoutError"; "CLIInstallError"])
  | ThrownForeign _ _ => false
  | ThrownValue _ => false
  end.

(** The [catch (error)] clause of [startSession]. *)
Definition startSession_catch (io : SessionIO) (error : thrown)
    : result thrown unit :=
  if signal_aborted io then
    Throw (ThrownError "AbortError" "Operation was aborted")
  else if execution_or_sandbox_error error then Throw error
  else Throw (wrapError error "Failed to execute Claude CLI").

(** [SandboxTransport.startSession(prompt, options)]: the messages yielded,
    how the generator ends, and the transport afterwards. *)
Definition SandboxTransport_startSession (io : SessionIO) (t : SandboxTransport)
    : list json * result thrown unit * SandboxTransport :=
  if negb (bool_decide (is_Some (sandbox t))) || negb (isConnected t) then
    ([], Throw (ThrownError "SandboxError"
                  "Sandbox not connected. Call connect() first."), t)
  else if negb (credentials_available (session_auth io)) then
    ([], Throw (ThrownError "AuthenticationError"
                  "Authentication required: set ANTHROPIC_API_KEY or CLAUDE_CODE_OAUTH_TOKEN"),
     t)
  else
    let t := mkTransport (sandbox t) (isConnected t) (options_snapshotId t)
               (Some (generateSessionId io)) in
    let '(yielded, outcome) := startSession_body io t in
    (yielded,
     try_catch outcome (startSession_catch io),
     t).

(** [getFinalResult(generator)] over the messages the generator yields:
    [None] is [undefined]. *)
Fixpoint getFinalResult_from (lastResult : option json)
    (messages : list (gmap string json)) : result thrown (option json) :=
  match messages with
  | [] => Ok lastResult
  | message :: rest =>
      let lastResult :=
        if is_success_result message then message !! "result"
        else lastResult in
      if isErrorMessage message then
        match message !! "error" with
        | None =>
            Throw (ThrownError "TypeError"
                     "Cannot read properties of undefined (reading 'message')")
        | Some JNull =>
            Throw (ThrownError "TypeError"
                     "Cannot read properties of null (reading 'message')")
        | Some (JObj error) =>
            Throw (ThrownError "CLIExecutionError"
                     (match error !! "message" with
                      | Some (JStr text) => text
                      | Some other => String_of other
                      | None => EmptyString
                      end))
        | Some _ => Throw (ThrownError "CLIExecutionError" EmptyString)
        end
      else getFinalResult_from lastResult rest
  end.

Definition getFinalResult (messages : list (gmap string json))
    : result thrown (option json) :=
  getFinalResult_from None messages.

(** A line the live session passes over: blank, not JSON, or JSON that the
    structural gate refuses. *)
Definition junk_line (line : string) : Prop :=
  trim line = EmptyString
  \/ (exists e, JSON_parse line = Throw e)
  \/ (exists raw, JSON_parse line = Ok raw
                  /\ isValidMessageStructure raw = false).

End LiveSession.

(** A message with its base fields in place: an object of a recognised
    type whose [uuid] and [session_id] are strings and whose
    [parent_tool_use_id] is a string or null. *)
Definition identified (message : json) : Prop :=
  exists (out : gmap string json) (t : string),
    message = JObj out
    /\ out !! "type" = Some (JStr t) /\ t ∈ VALID_MESSAGE_TYPES
    /\ holds_string (out !! "uuid")
    /\ holds_string (out !! "session_id")
    /\ (out !! "parent_tool_use_id" = Some JNull
        \/ holds_string (out !! "parent_tool_use_id")).

(** The calls that end a sandbox: its [stop()], or a [snapshot()] of it
    that succeeded. *)
Definition releases (id : string) (call : event) : bool :=
  match call with
  | EvStop sb => String.eqb sb id
  | EvSnapshotCreated sb _ => String.eqb sb id
  | _ => false
  end.

(** How many times the sandbox [id] was released during [calls]. *)
Definition released (id : string) (calls : list event) : nat :=
  length (List.filter (releases id) calls).

(* --------------------------------------------------------------------- *)
(** ** Tools: error wrapping and the two tool-call front ends             *)
(* --------------------------------------------------------------------- *)

(** [new ToolError(toolName, message, cause)] *)
Definition ToolError (toolName message : string) : thrown :=
  ThrownError "ToolError"
    ("Tool " +:+ dq +:+ toolName +:+ dq +:+ " failed: " +:+ message).

(** [withToolErrorHandling(toolName, operation)], on the outcome of awaiting
    [operation()]. *)
Definition withToolErrorHandling {T : Type} (toolName : string)
    (operation : result thrown T) : result thrown T :=
  try_catch operation
    (fun error => Throw (ToolError toolName (message_or "Unknown error" error))).

(** [tools.find((t) => t.name === name)] *)
Definition find_tool (tools : list ToolDefinition) (name : string)
    : option ToolDefinition :=
  List.find (fun t => String.eqb (tool_name t) name) tools.

(** [c.type] *)
Definition content_type (c : ToolResultContent) : string :=
  match c with
  | TextContent _ => "text"
  | ImageContent _ _ => "image"
  | ResourceContent _ _ _ _ => "resource"
  end.

(** The value [handleToolCall] resolves to. *)
Record ToolCallResponse : Type := mkToolCallResponse {
  response_content : list (string * string);
  response_isError : option bool
}.

(** A content block of the MCP call handler's answer. *)
Inductive McpContent : Type :=
  | McpText (text : string)
  | McpImage (data mimeType : string)
  | McpResource (uri : string) (mimeType text blob : option string).

(** [c.type] of a block of the MCP answer. *)
Definition mcp_content_type (c : McpContent) : string :=
  match c with
  | McpText _ => "text"
  | McpImage _ _ => "image"
  | McpResource _ _ _ _ => "resource"
  end.

Record McpCallResult : Type := mkMcpCallResult {
  mcp_content : list McpContent;
  mcp_isError : option bool
}.

Section ToolCalls.

Variable JSON_stringify : json -> string.

(** [handleToolCall(tools, request)]; a block is its pair of [type] and
    [text]. *)
Definition handleToolCall (tools : list ToolDefinition) (name : string)
    (arguments : json) : result thrown ToolCallResponse :=
  match find_tool tools name with
  | None =>
      Ok {| response_content := [("text", "Unknown tool: " +:+ name)];
            response_isError := Some true |}
  | Some tool =>
      match executeTool tool arguments with
      | Throw e => Throw e
      | Ok result =>
          Ok {| response_content :=
                  map (fun c =>
                         (content_type c,
                          match c with
                          | TextContent text => text
                          | _ => JSON_stringify (content_json c)
                          end)) (content result);
                response_isError := isError result |}
      end
  end.

(** The [CallToolRequestSchema] handler that [createSdkMcpServer] installs. *)
Definition McpServer_callTool (tools : list ToolDefinition) (toolName : string)
    (args : json) : result thrown McpCallResult :=
  match build_toolMap tools !! toolName with
  | None =>
      Ok {| mcp_content := [McpText ("Unknown tool: " +:+ toolName)];
            mcp_isError := Some true |}
  | Some tool =>
      match executeTool tool args with
      | Throw e => Throw e
      | Ok result =>
          Ok {| mcp_content :=
                  map (fun c =>
                         match c with
                         | TextContent text => McpText text
                         | ImageContent data mimeType => McpImage data mimeType
                         | ResourceContent uri mimeType text blob =>
                             McpResource uri mimeType text blob
                         end) (content result);
                mcp_isError := isError result |}
      end
  end.

End ToolCalls.

(* --------------------------------------------------------------------- *)
(** ** Notions used to state the properties of a run                      *)
(* --------------------------------------------------------------------- *)

(** The messages yielded to the consumer during [calls], in order. *)
Definition yielded (calls : list event) : list (gmap string json) :=
  omap (fun call => match call with
                    | EvYield message => Some message
                    | _ => None
                    end) calls.

(** [m] leaves the transport, the hooks and the snapshot settings of the
    query as they are, and releases no sandbox. *)
Definition leaves_sandbox {A : Type} (m : M A) : Prop :=
  forall w,
    transport (this (m w).2) = transport (this w)
    /\ hooks (this (m w).2) = hooks (this w)
    /\ forall id, released id (trace (m w).2) = released id (trace w).

(* --------------------------------------------------------------------- *)
(** ** The run as a generator: any consumer, any number for [maxTurns]    *)
(* --------------------------------------------------------------------- *)

(** The definitions of [QueryImpl.run] above take [options.maxTurns] as
    an integer and follow a run that its consumer drives to the end with
    [next()].  The module below embeds the same source lines without the
    two restrictions.  [options.maxTurns] is any JavaScript number.  At
    every [yield] the consumer chooses how the generator is resumed: by
    [next()], by [return()], as a [break] out of [for await] does, or by
    [throw(error)]. *)
Module Generator.

(** A JavaScript number: a finite value, written as a fraction, one of the
    infinities, or NaN. *)
Inductive JsNumber : Type :=
  | JsFinite (numerator : Z) (denominator : positive)
  | JsInfinity
  | JsNegInfinity
  | JsNaN.

(** [turn < maxTurns], for a [turn] that holds an integer. *)
Definition js_lt (turn : Z) (maxTurns : JsNumber) : bool :=
  match maxTurns with
  | JsFinite numerator denominator =>
      (turn * Z.pos denominator <? numerator)%Z
  | JsInfinity => true
  | JsNegInfinity => false
  | JsNaN => false
  end.

(** The largest value [turn++] reaches when it counts from 0: adding 1 to
    [2^53] gives a number that is rounded back to [2^53]. *)
Definition MAX_COUNT : Z := 2 ^ 53.

(** [turn++], for a [turn] that has counted from 0. *)
Definition increment (turn : Z) : Z :=
  if (turn <? MAX_COUNT)%Z then (turn + 1)%Z else turn.

(** The least integer that is not below a fraction. *)
Definition ceiling (numerator : Z) (denominator : positive) : Z :=
  (- ((- numerator) / Z.pos denominator))%Z.

(** How the consumer resumes the generator at a [yield]. *)
Inductive Resumption : Type :=
  | CallNext
  | CallReturn
  | CallThrow (error : thrown).

(** A consumer decides from the messages it has been given so far, the
    last one being the one just yielded. *)
Definition Consumer : Type := list (gmap string json) -> Resumption.

(** The consumer that drives the run to its end. *)
Definition drives_to_end : Consumer := fun _ => CallNext.

(** How a block of the generator is left other than by reaching its end:
    by a thrown error, or by the return completion that [return()] brings
    about at a [yield]. *)
Inductive Completion : Type :=
  | Threw (error : thrown)
  | Returned.

(** The statements of a generator are state transformers that go on with a
    value or leave the block. *)
Definition G (A : Type) : Type := World -> result Completion A * World.

Definition ret {A : Type} (a : A) : G A := fun w => (Ok a, w).

Definition bind {A B : Type} (m : G A) (k : A -> G B) : G B :=
  fun w =>
    match m w with
    | (Ok a, w') => k a w'
    | (Throw c, w') => (Throw c, w')
    end.

(** A statement that holds no [yield]. *)
Definition lift {A : Type} (m : M A) : G A :=
  fun w =>
    match m w with
    | (Ok a, w') => (Ok a, w')
    | (Throw e, w') => (Throw (Threw e), w')
    end.

(** [yield message].  [QueryImpl.return] sets [isInterrupted] before it
    passes the call on to the generator; [QueryImpl.throw] passes the
    error on as it is. *)
Definition yield (consumer : Consumer) (message : gmap string json)
    : G unit :=
  fun w =>
    let w' := mkWorld (this w) (trace w ++ [EvYield message]) in
    match consumer (yielded (trace w')) with
    | CallNext => (Ok tt, w')
    | CallReturn =>
        (Throw Returned, mkWorld (set_isInterrupted true (this w')) (trace w'))
    | CallThrow error => (Throw (Threw error), w')
    end.

Section Run.

Variable JSON_stringify : json -> string.
Variable extractText : gmap string json -> result thrown string.
Variable parseToolRequestsFromText : string -> list ToolRequest.
Variable consumer : Consumer.

(** The [for await] loop over one turn's stream:
    [this.messages.push(message); yield message]. *)
Fixpoint consume (io : RunIO) (stream : list (gmap string json)) : G unit :=
  match stream with
  | [] => ret tt
  | rawMessage :: rest =>
      bind (lift get_this) (fun q =>
      let message :=
        QueryImpl_enrichMessage q (generateUuid io (length (messages q)))
          rawMessage in
      bind (lift (modify_this
                    (fun q => set_messages (messages q ++ [message]) q)))
        (fun _ =>
      bind (yield consumer message) (fun _ =>
      consume io rest)))
  end.

(** The [while (turn < maxTurns && !this.isInterrupted)] loop.  It returns
    the final value of [turn]; [None] means that the recursion budget
    [fuel] ran out before the loop ended. *)
Fixpoint turn_loop (io : RunIO) (maxTurns : JsNumber)
    (tools : list ToolDefinition) (fuel : nat) (turn : Z)
    (conversationHistory : list (string * string)) (currentPrompt : string)
    : G (option Z) :=
  match fuel with
  | O => ret None
  | S fuel' =>
      bind (lift get_this) (fun q =>
      if js_lt turn maxTurns && negb (isInterrupted q) then
        let turn := increment turn in
        let fullPrompt :=
          if (0 <? length conversationHistory)%nat
          then buildConversationPrompt conversationHistory currentPrompt
          else currentPrompt in
        let session := startSession io turn fullPrompt in
        bind (lift (emit (EvStartSession turn fullPrompt))) (fun _ =>
        bind (consume io (received session)) (fun _ =>
        bind match stream_end session with
             | StreamThrew e => lift (throw e)
             | StreamInterrupted =>
                 lift (modify_this (set_isInterrupted true))
             | StreamDone => ret tt
             end (fun _ =>
        bind (lift get_this) (fun q =>
        if isInterrupted q then ret (Some turn)
        else
          bind (lift (await (assistantTextOf extractText (messages q))))
            (fun assistantText =>
          let toolRequests := parseToolRequestsFromText assistantText in
          if (length toolRequests =? 0)%nat || (length tools =? 0)%nat
          then ret (Some turn)
          else
            let toolResults :=
              map (tool_result_text JSON_stringify (build_toolMap tools))
                toolRequests in
            bind (if interrupted_in_tools session
                  then lift (modify_this (set_isInterrupted true))
                  else ret tt) (fun _ =>
            let conversationHistory :=
              conversationHistory
              ++ (if String.eqb assistantText "" then []
                  else [("assistant", assistantText)]) in
            let toolResultsText := String.concat (nl +:+ nl) toolResults in
            let conversationHistory :=
              conversationHistory
              ++ [("user", "Tool results:" +:+ nl +:+ toolResultsText)] in
            turn_loop io maxTurns tools fuel' turn conversationHistory
              "Please continue based on the tool results above. Provide the final answer to the user."))))))
      else ret (Some turn))
  end.

(** The turn loop as [run] enters it, with [options.maxTurns] given apart
    from the other options: [maxTurns = options.maxTurns ?? 10],
    [tools = options.tools ?? []], [turn = 0], an empty history and the
    user prompt. *)
Definition run_turn_loop (io : RunIO) (option_maxTurns : option JsNumber)
    (fuel : nat) : G (option Z) :=
  let maxTurns := nullish option_maxTurns (JsFinite 10 1) in
  let tools := nullish (option_tools io) [] in
  turn_loop io maxTurns tools fuel 0%Z [] (prompt io).

(** The [try] block of [QueryImpl.run]. *)
Definition run_body (io : RunIO) (option_maxTurns : option JsNumber)
    (fuel : nat) : G (option Z) :=
  let tools := nullish (option_tools io) [] in
  bind (lift (on_transport (fun t =>
          let '(r, t') :=
            SandboxTransport_connect (connect_io io) (option_snapshotId io) t in
          (r, t', [])))) (fun _ =>
  (* executeSetup *)
  bind (lift getSandboxContext) (fun _ =>
  bind (lift (await (setup_outcome io))) (fun _ =>
  bind (lift get_this) (fun q =>
  let initMessage :=
    system_message "session_started"
      (generateUuid io (length (messages q))) (_sessionId q)
      (<["tools" := JArr (map (fun t => JStr (tool_name t)) tools)]>
       (<["mcp_servers" :=
            JArr (map JStr (nullish (option_mcpServers io) []))]> ∅)) in
  bind (yield consumer initMessage) (fun _ =>
  bind (lift (modify_this
                (fun q => set_messages (messages q ++ [initMessage]) q)))
    (fun _ =>
  bind (run_turn_loop io option_maxTurns fuel) (fun turned =>
  bind (lift get_this) (fun q =>
  let endMessage :=
    system_message "session_ended"
      (generateUuid io (length (messages q))) (_sessionId q) ∅ in
  bind (yield consumer endMessage) (fun _ =>
  bind (lift (modify_this
                (fun q => set_messages (messages q ++ [endMessage]) q)))
    (fun _ =>
  ret turned)))))))))).

End Run.

(** [m] adds between [lo] and [hi] sessions to the trace, from any
    state. *)
Definition turn_bounds {A : Type} (m : G A) (lo hi : nat) : Prop :=
  forall w, turns_performed w + lo <= turns_performed (m w).2
            /\ turns_performed (m w).2 <= turns_performed w + hi.

(** [m] never reports an exhausted recursion budget. *)
Definition completes (m : G (option Z)) : Prop :=
  forall w, (m w).1 <> Ok None.

(** When [m] returns a turn counter, it is [base] plus the number of
    sessions [m] has started, or [MAX_COUNT] if that is less. *)
Definition returns_count (m : G (option Z)) (base : Z) : Prop :=
  forall w n,
    (m w).1 = Ok (Some n) ->
    n = Z.min MAX_COUNT
          (base + Z.of_nat (turns_performed (m w).2)
           - Z.of_nat (turns_performed w))%Z.

(** The message [message] is one of the two system messages of [run]. *)
Definition session_boundary (message : gmap string json) : Prop :=
  exists subtype uuid session extra,
    message = system_message subtype uuid session extra
    /\ (subtype = "session_started" \/ subtype = "session_ended").

(** What [m] has yielded and what it has appended to the log
    [this.messages], from the state [w]: the same messages in the same
    order, or, when the consumer did not call [next()] at the [yield] of
    a system message and [m] was left there, the yielded messages but for
    that last one. *)
Definition logged_and_yielded {A : Type} (consumer : Consumer) (m : G A)
    (w : World) (new : list (gmap string json)) : Prop :=
  yielded (trace (m w).2) = yielded (trace w) ++ new
  /\ (messages (this (m w).2) = messages (this w) ++ new
      \/ exists logged message,
           new = logged ++ [message]
           /\ messages (this (m w).2) = messages (this w) ++ logged
           /\ session_boundary message
           /\ consumer (yielded (trace (m w).2)) <> CallNext
           /\ forall a, (m w).1 <> Ok a).

Definition logs_what_it_yields {A : Type} (consumer : Consumer) (m : G A)
    : Prop :=
  forall w, exists new, logged_and_yielded consumer m w new.

(** [g] does what the statement [m] without [yield] does. *)
Definition agrees {A : Type} (g : G A) (m : M A) : Prop :=
  forall w, g w = lift m w.

(** [options.maxTurns] when it holds an integer. *)
Definition number_of_Z (z : Z) : JsNumber := JsFinite z 1.

End Generator.

(** A run with one tool, and an assistant whose every answer asks for it. *)
Definition sample_tool_run : RunIO :=
  {| prompt := "What is 2 + 2?";
     option_maxTurns := None;
     option_tools := Some [calculator];
     option_mcpServers := None;
     option_snapshotId := None;
     connect_io := mkConnectIO true (Ok live_sandbox) (Ok tt);
     setup_outcome := Ok tt;
     startSession := fun _ _ => sample_turn;
     generateUuid := fun n => "uuid-" +:+ pretty n;
     clock_start := 0;
     clock_teardown := 100;
     clock_snapshot := 101 |}.

Definition sample_tool_requests (text : string) : list ToolRequest :=
  [mkToolRequest "calculator"
     (JObj (<["a" := JNum 2]> (<["b" := JNum 2]> ∅)))].

(** A consumer that leaves its [for await] loop at the first message. *)
Definition sample_break_at_first : Generator.Consumer :=
  fun seen =>
    if (length seen =? 1)%nat then Generator.CallReturn
    else Generator.CallNext.

(* --------------------------------------------------------------------- *)
(** ** Setup of the sandbox before the query                              *)
(* --------------------------------------------------------------------- *)

(** [GitHubRepoConfig], [SetupConfig] and its commands, with the fields
    [executeSetupConfig] reads. *)
Record GitHubRepoConfig : Type := mkGitHubRepoConfig {
  repo : string;
  branch : option string;
  destination : option string
}.

Record SetupCommand : Type := mkSetupCommand {
  cmd : string;
  args : option (list string);
  command_cwd : option string
}.

Record SetupConfig : Type := mkSetupConfig {
  commands : option (list SetupCommand);
  files : option (list (string * string));
  githubRepo : option GitHubRepoConfig;
  npmInstall : option (list string);
  workingDirectory : option string
}.

(** A call made on the sandbox: [writeFiles(files)] or
    [runCommand(cmd, args)] with its working directory, if one is given. *)
Inductive SandboxCall : Type :=
  | SandboxWriteFiles (files : list (string * string))
  | SandboxRunCommand (cmd : string) (args : list string) (cwd : option string).

(** Setup code makes calls on the sandbox in order and may throw: a
    computation takes the calls made so far and gives its outcome and the
    calls made after it. *)
Definition Setup (A : Type) : Type :=
  list SandboxCall -> result thrown A * list SandboxCall.

Definition setup_ret {A : Type} (a : A) : Setup A := fun calls => (Ok a, calls).

Definition setup_throw {A : Type} (e : thrown) : Setup A :=
  fun calls => (Throw e, calls).

Definition setup_bind {A B : Type} (m : Setup A) (k : A -> Setup B) : Setup B :=
  fun calls =>
    match m calls with
    | (Ok a, calls') => k a calls'
    | (Throw e, calls') => (Throw e, calls')
    end.

(** [x || fallback] on an optional string *)
Definition text_or (x : option string) (fallback : string) : string :=
  match x with
  | Some s => if String.eqb s "" then fallback else s
  | None => fallback
  end.

Section SetupConfiguration.

(** What the sandbox answers to a call, given the number of calls made
    before it; for [writeFiles] only returning or throwing matters. *)
Variable sandbox_answers : nat -> SandboxCall -> result thrown CommandFinished.

Definition sandbox_call (c : SandboxCall) : Setup CommandFinished :=
  fun calls => (sandbox_answers (length calls) c, calls ++ [c]).

(** [SandboxContextImpl.runCommand(cmd, args, { cwd })] *)
Definition SandboxContext_runCommand (cmd : string) (args : list string)
    (cwd : option string) : Setup CommandFinished :=
  sandbox_call (SandboxRunCommand cmd args (Some (text_or cwd "/vercel/sandbox"))).

(** [SandboxContextImpl.writeFiles(files)] *)
Definition SandboxContext_writeFiles (files : list (string * string))
    : Setup unit :=
  setup_bind (sandbox_call (SandboxWriteFiles files)) (fun _ => setup_ret tt).

(** [if (result.exitCode !== 0) throw new SandboxError(message + stderr)] *)
Definition check_exit (message : string) (result : CommandFinished)
    : Setup unit :=
  if negb (exitCode result =? 0)%Z then
    setup_throw (ThrownError "SandboxError" (message +:+ command_stderr result))
  else setup_ret tt.

(** [SandboxContextImpl.mkdir(path)] *)
Definition SandboxContext_mkdir (path : string) : Setup unit :=
  setup_bind (sandbox_call (SandboxRunCommand "mkdir" ["-p"; path] None))
    (check_exit ("Failed to create directory " +:+ path +:+ ": ")).

(** [for (const cmd of setup.commands) { ... }] *)
Fixpoint run_commands (default_cwd : string) (cmds : list SetupCommand)
    : Setup unit :=
  match cmds with
  | [] => setup_ret tt
  | c :: rest =>
      setup_bind
        (SandboxContext_runCommand (cmd c) (nullish (args c) [])
           (Some (text_or (command_cwd c) default_cwd)))
        (fun result =>
           setup_bind
             (check_exit ("Command '" +:+ cmd c +:+ "' failed: ") result)
             (fun _ => run_commands default_cwd rest))
  end.

(** [QueryImpl.executeSetupConfig(context, setup)] *)
Definition executeSetupConfig (setup : SetupConfig) : Setup unit :=
  let cwd := text_or (workingDirectory setup) "/vercel/sandbox" in
  setup_bind
    (match files setup with
     | Some (f :: fs) => SandboxContext_writeFiles (f :: fs)
     | _ => setup_ret tt
     end)
    (fun _ =>
  setup_bind
    (match githubRepo setup with
     | Some r =>
         let branch := text_or (branch r) "main" in
         let destination :=
           text_or (destination r) "/vercel/sandbox/project" in
         setup_bind (SandboxContext_mkdir destination) (fun _ =>
         let cloneUrl := "https://github.com/" +:+ repo r +:+ ".git" in
         setup_bind
           (SandboxContext_runCommand "git"
              ["clone"; "--depth"; "1"; "--branch"; branch; cloneUrl;
               destination] (Some cwd))
           (check_exit "Failed to clone repository: "))
     | None => setup_ret tt
     end)
    (fun _ =>
  setup_bind
    (match npmInstall setup with
     | Some (p :: ps) =>
         setup_bind
           (SandboxContext_runCommand "npm" ("install" :: p :: ps) (Some cwd))
           (check_exit "npm install failed: ")
     | _ => setup_ret tt
     end)
    (fun _ =>
       match commands setup with
       | Some (c :: cs) => run_commands cwd (c :: cs)
       | _ => setup_ret tt
       end))).

(** A call the setup goes on after: it returned, and with exit code 0 when
    it is a command. *)
Definition call_succeeds (n : nat) (c : SandboxCall) : bool :=
  match sandbox_answers n c with
  | Ok result =>
      match c with
      | SandboxWriteFiles _ => true
      | SandboxRunCommand _ _ _ => (exitCode result =? 0)%Z
      end
  | Throw _ => false
  end.

(** [m] makes the calls of [plan] in order for as long as they succeed: it
    returns after the whole plan when every call succeeds, and it throws
    right after the first call that does not, with the error of that call
    or, for a command that ended with a non-zero exit code, with a
    [SandboxError] that carries its stderr text. *)
Definition follows (m : Setup unit) (plan : list SandboxCall) : Prop :=
  forall calls : list SandboxCall,
    ((forall i c, plan !! i = Some c ->
                  call_succeeds (length calls + i) c = true) ->
     m calls = (Ok tt, calls ++ plan))
    /\ (forall i c,
          plan !! i = Some c ->
          call_succeeds (length calls + i) c = false ->
          (forall j c', j < i -> plan !! j = Some c' ->
                        call_succeeds (length calls + j) c' = true) ->
          exists e,
            m calls = (Throw e, calls ++ take (S i) plan)
            /\ (forall e', sandbox_answers (length calls + i) c = Throw e' ->
                           e = e')
            /\ (forall result,
                  sandbox_answers (length calls + i) c = Ok result ->
                  exists message,
                    e = ThrownError "SandboxError"
                          (message +:+ command_stderr result))).

End SetupConfiguration.

(** The calls a setup configuration asks for, in the order of the code:
    the files, the directory and the clone of the repository, the
    installation of the packages, the commands. *)
Definition setup_plan (setup : SetupConfig) : list SandboxCall :=
  let cwd := text_or (workingDirectory setup) "/vercel/sandbox" in
  match files setup with
  | Some (f :: fs) => [SandboxWriteFiles (f :: fs)]
  | _ => []
  end
  ++ match githubRepo setup with
     | Some r =>
         let destination :=
           text_or (destination r) "/vercel/sandbox/project" in
         [SandboxRunCommand "mkdir" ["-p"; destination] None;
          SandboxRunCommand "git"
            ["clone"; "--depth"; "1"; "--branch"; text_or (branch r) "main";
             "https://github.com/" +:+ repo r +:+ ".git"; destination]
            (Some cwd)]
     | None => []
     end
  ++ match npmInstall setup with
     | Some (p :: ps) =>
         [SandboxRunCommand "npm" ("install" :: p :: ps) (Some cwd)]
     | _ => []
     end
  ++ map (fun c =>
            SandboxRunCommand (cmd c) (nullish (args c) [])
              (Some (text_or (command_cwd c) cwd)))
       (nullish (commands setup) []).

(* --------------------------------------------------------------------- *)
(** ** Sample inputs for the further properties                           *)
(* --------------------------------------------------------------------- *)

(** A [JSON.stringify] that writes the sample objects [{ type: t }] as the
    line [sample_parse] reads back. *)
Definition sample_stringify_line (v : json) : string :=
  match v with
  | JObj fields =>
      match fields !! "type" with
      | Some (JStr t) => line_of_type t
      | _ => sample_stringify v
      end
  | _ => sample_stringify v
  end.

(** A line of debug output in the middle of a stream. *)
Definition sample_bad_line : string := "Downloading model...".

(** The sample stream as log events: stdout cut in the middle of both
    messages, with stderr output in between. *)
Definition sample_logs : list LogEvent :=
  [ StdoutData (substring 0 9 sample_text);
    StderrData "warning: slow network";
    StdoutData (substring 9 20 sample_text);
    StdoutData (substring 29 (String.length sample_text - 29) sample_text) ].

(** A session on the sample stream whose CLI ends as [finished] says. *)
Definition sample_session (finished : CommandFinished) : SessionIO :=
  {| session_auth := (Some "sk-sample", None);
     generateSessionId := "session_1";
     generateSessionId_later := "session_2";
     session_generateUuid := fun n => "uuid-" +:+ pretty n;
     versionCheck := Ok tt;
     runCommand_detached := Ok tt;
     command_logs := sample_logs;
     logs_outcome := Ok tt;
     command_wait := Ok finished;
     signal_aborted := false |}.

(** An installation whose [npm install] fails. *)
Definition failing_install : InstallIO :=
  {| npm_install := Ok (mkCommandFinished 1 "" "npm ERR! network");
     which_claude := Ok (mkCommandFinished 0 "/usr/bin/claude" "") |}.

(** A successful result message, an error message and a later result. *)
Definition sample_success_result : gmap string json :=
  <["result" := JStr "4"]>
  (<["subtype" := JStr "success"]> (object_of_type "result")).

Definition sample_error_message : gmap string json :=
  <["error" := JObj (<["message" := JStr "rate limited"]> ∅)]>
  (object_of_type "error").

(* ===================================================================== *)
(** * 5. Properties                                                       *)
(* ===================================================================== *)

(* --------------------------------------------------------------------- *)
(** ** Strings                                                            *)
(* --------------------------------------------------------------------- *)

Lemma append_cons (x : ascii) (a b : string) :
  String x a +:+ b = String x (a +:+ b).
Proof. reflexivity. Qed.

Lemma append_assoc (a b c : string) : (a +:+ b) +:+ c = a +:+ (b +:+ c).
Proof.
  induction a as [|x a IH]; [reflexivity|].
  rewrite !append_cons, IH. reflexivity.
Qed.

Lemma append_empty_r (a : string) : a +:+ EmptyString = a.
Proof.
  induction a as [|x a IH]; [reflexivity|].
  rewrite append_cons, IH. reflexivity.
Qed.






(* --------------------------------------------------------------------- *)
(** ** Splitting text into lines                                          *)
(* --------------------------------------------------------------------- *)

Lemma split_lines_nonempty (s : string) : split_lines s <> [].
Proof.
  induction s as [|c s IH]; simpl; [discriminate|].
  destruct (Ascii.eqb c newline); [discriminate|].
  destruct (split_lines s); discriminate.
Qed.

(** Splitting a text that grew by [b]: the complete lines of [a] stay, and
    the last, open line of [a] is continued by [b]. *)
Lemma split_lines_app (a b : string) :
  split_lines (a +:+ b)
  = removelast (split_lines a)
    ++ split_lines (List.last (split_lines a) EmptyString +:+ b).
Proof.
  induction a as [|c a IH]; [reflexivity|].
  rewrite append_cons. simpl.
  pose proof (split_lines_nonempty a) as Hne.
  destruct (Ascii.eqb c newline) eqn:Ec.
  - rewrite IH. destruct (split_lines a) as [|l ls]; [congruence|]. reflexivity.
  - rewrite IH. destruct (split_lines a) as [|l ls]; [congruence|].
    destruct ls as [|x ls].
    + simpl. rewrite Ec. reflexivity.
    + reflexivity.
Qed.

Lemma split_lines_no_newline (s : string) :
  Forall (fun l => no_newline l = true) (split_lines s).
Proof.
  induction s as [|c s IH]; simpl.
  - repeat constructor.
  - destruct (Ascii.eqb c newline) eqn:Ec.
    + constructor; [reflexivity | exact IH].
    + destruct (split_lines s) as [|l ls];
        [repeat constructor; simpl; now rewrite Ec|].
      inversion IH; subst.
      constructor; [simpl; rewrite Ec; assumption | assumption].
Qed.

Lemma split_lines_single (l : string) :
  no_newline l = true -> split_lines l = [l].
Proof.
  induction l as [|c l IH]; simpl; [reflexivity|].
  intros H. apply andb_true_iff in H as [Hc Hl].
  apply negb_true_iff in Hc. rewrite Hc, (IH Hl). reflexivity.
Qed.

Lemma split_lines_cons (l rest : string) :
  no_newline l = true ->
  split_lines (l +:+ String newline rest) = l :: split_lines rest.
Proof.
  induction l as [|c l IH].
  - intros _. reflexivity.
  - intros H. simpl in H. apply andb_true_iff in H as [Hc Hl].
    apply negb_true_iff in Hc. rewrite append_cons. simpl.
    rewrite Hc, (IH Hl). reflexivity.
Qed.

(** Joining lines with newlines and splitting again gives the lines back. *)
Lemma split_lines_join (lines : list string) :
  lines <> [] ->
  Forall (fun l => no_newline l = true) lines ->
  split_lines (String.concat nl lines) = lines.
Proof.
  induction lines as [|l ls IH]; [congruence|].
  intros _ Hall. inversion Hall as [|? ? Hl Hls]; subst.
  destruct ls as [|l' ls].
  - simpl. apply split_lines_single; assumption.
  - change (String.concat nl (l :: l' :: ls))
      with (l +:+ (nl +:+ String.concat nl (l' :: ls))).
    change (nl +:+ String.concat nl (l' :: ls))
      with (String newline (String.concat nl (l' :: ls))).
    rewrite split_lines_cons by assumption.
    rewrite IH; [reflexivity | discriminate | assumption].
Qed.

Lemma last_no_newline (s : string) :
  no_newline (List.last (split_lines s) EmptyString) = true.
Proof.
  pose proof (split_lines_no_newline s) as H.
  pose proof (split_lines_nonempty s) as Hne.
  induction (split_lines s) as [|l ls IH]; [congruence|].
  inversion H; subst. destruct ls; [assumption|].
  apply IH; [assumption | discriminate].
Qed.

(* --------------------------------------------------------------------- *)
(** ** The structural gate and the two enrichment steps                   *)
(* --------------------------------------------------------------------- *)

Lemma isValidMessageStructure_object (fields : gmap string json) (t : string) :
  fields !! "type" = Some (JStr t) -> t ∈ VALID_MESSAGE_TYPES ->
  isValidMessageStructure (JObj fields) = true.
Proof.
  intros Hty Hin. unfold isValidMessageStructure. simpl. rewrite Hty.
  rewrite bool_decide_eq_true_2 by exact Hin. reflexivity.
Qed.

(** The gate lets through objects with a recognised string type only. *)
Lemma isValidMessageStructure_inv (v : json) :
  isValidMessageStructure v = true ->
  exists fields t, v = JObj fields /\ fields !! "type" = Some (JStr t)
                   /\ t ∈ VALID_MESSAGE_TYPES.
Proof.
  unfold isValidMessageStructure.
  destruct v as [| b | n | s | xs | fields]; simpl; try discriminate.
  destruct (fields !! "type") as [[| | | t | |]|] eqn:Hty; try discriminate.
  destruct (bool_decide (t ∈ VALID_MESSAGE_TYPES)) eqn:Hin; simpl;
    try discriminate.
  intros _. exists fields, t. apply bool_decide_eq_true_1 in Hin. auto.
Qed.

Lemma malformed_invalid (v : json) :
  malformed v -> isValidMessageStructure v = false.
Proof.
  intros H. unfold isValidMessageStructure.
  destruct H as [| v Hprim | v Hnone | v x Hsome Hns | v s Hsome Hnin].
  - reflexivity.
  - destruct v; simpl in *; try reflexivity; congruence.
  - destruct v; simpl in *; try reflexivity. rewrite Hnone. reflexivity.
  - destruct v; simpl in *; try reflexivity. rewrite Hsome.
    destruct x; try reflexivity. exfalso. eapply Hns. reflexivity.
  - destruct v; simpl in *; try reflexivity. rewrite Hsome.
    rewrite bool_decide_eq_false_2 by exact Hnin. reflexivity.
Qed.

(** Every raw value is either malformed or an object with a recognised
    string type: between them the two cases cover all inputs. *)
Lemma malformed_or_recognised (v : json) :
  malformed v
  \/ exists fields t, v = JObj fields /\ fields !! "type" = Some (JStr t)
                      /\ t ∈ VALID_MESSAGE_TYPES.
Proof.
  destruct v as [| b | n | s | xs | fields].
  - left; constructor.
  - left; apply malformed_primitive; discriminate.
  - left; apply malformed_primitive; discriminate.
  - left; apply malformed_primitive; discriminate.
  - left; apply malformed_no_type; reflexivity.
  - destruct (fields !! "type") as [x|] eqn:Hty.
    + destruct x as [| b | n | t | xs | f];
        try (left; eapply malformed_type_not_string;
             [exact Hty | intros s' Hs; discriminate]).
      destruct (decide (t ∈ VALID_MESSAGE_TYPES)) as [Hin|Hnin].
      * right. exists fields, t. auto.
      * left. eapply malformed_unknown_type; [exact Hty | exact Hnin].
    + left; apply malformed_no_type; exact Hty.
Qed.

Lemma with_identity_other this uuid sid (msg : gmap string json) (k : string) :
  k <> "uuid" -> k <> "session_id" -> k <> "parent_tool_use_id" ->
  with_identity this uuid sid msg !! k = msg !! k.
Proof.
  intros H1 H2 H3. unfold with_identity.
  rewrite !lookup_insert_ne by congruence. reflexivity.
Qed.

Lemma with_identity_uuid this uuid sid (msg : gmap string json) :
  with_identity this uuid sid msg !! "uuid"
  = Some (string_or (msg !! "uuid") (JStr uuid)).
Proof.
  unfold with_identity.
  rewrite !lookup_insert_ne by discriminate. apply lookup_insert_eq.
Qed.

Lemma with_identity_session this uuid sid (msg : gmap string json) :
  with_identity this uuid sid msg !! "session_id"
  = Some (string_or (msg !! "session_id")
            (JStr (session_or (currentSessionId this) sid))).
Proof.
  unfold with_identity.
  rewrite lookup_insert_ne by discriminate. apply lookup_insert_eq.
Qed.

Lemma with_identity_parent this uuid sid (msg : gmap string json) :
  with_identity this uuid sid msg !! "parent_tool_use_id"
  = Some (string_or (msg !! "parent_tool_use_id") JNull).
Proof. unfold with_identity. apply lookup_insert_eq. Qed.

(** The switch writes at most the one field that belongs to the type. *)
Lemma with_type_defaults_other (t : string) (m : gmap string json) (k : string) :
  (t = "assistant" \/ t = "user" -> k <> "message") ->
  (t = "result" -> k <> "subtype") ->
  (t = "error" -> k <> "error") ->
  with_type_defaults t m !! k = m !! k.
Proof.
  intros Hm Hs He. unfold with_type_defaults.
  destruct (bool_decide (t = "assistant")) eqn:Ea; simpl.
  { apply bool_decide_eq_true_1 in Ea.
    destruct (not_an_object _); [|reflexivity].
    apply lookup_insert_ne. intros <-. apply Hm; auto. }
  destruct (bool_decide (t = "user")) eqn:Eu; simpl.
  { apply bool_decide_eq_true_1 in Eu.
    destruct (not_an_object _); [|reflexivity].
    apply lookup_insert_ne. intros <-. apply Hm; auto. }
  destruct (bool_decide (t = "result")) eqn:Er; simpl.
  { apply bool_decide_eq_true_1 in Er.
    destruct (negb _); [|reflexivity].
    apply lookup_insert_ne. intros <-. apply Hs; auto. }
  destruct (bool_decide (t = "error")) eqn:Ee; simpl.
  { apply bool_decide_eq_true_1 in Ee.
    destruct (not_an_object _); [|reflexivity].
    apply lookup_insert_ne. intros <-. apply He; auto. }
  reflexivity.
Qed.

(** The switch never touches the three identity fields. *)
Lemma with_type_defaults_identity (t : string) (m : gmap string json)
    (k : string) :
  k = "uuid" \/ k = "session_id" \/ k = "parent_tool_use_id" ->
  with_type_defaults t m !! k = m !! k.
Proof.
  intros Hk. apply with_type_defaults_other; intros _ ->;
    destruct Hk as [Hk|[Hk|Hk]]; discriminate.
Qed.

Lemma string_or_cases (x : option json) (d : json) :
  (exists s, x = Some (JStr s) /\ string_or x d = JStr s)
  \/ ((forall s, x <> Some (JStr s)) /\ string_or x d = d).
Proof.
  destruct x as [[| | | s | |]|]; simpl;
    first [ left; eexists; split; reflexivity
          | right; split; [intros s' H; discriminate | reflexivity] ].
Qed.

Lemma not_an_object_spec (x : option json) :
  not_an_object x = true <-> ~ holds_object x.
Proof.
  unfold not_an_object, holds_object.
  destruct x as [[| b | n | s | xs | f]|]; simpl; split; intros H;
    try reflexivity; try discriminate;
    try (intros [[? E]|[? E]]; discriminate);
    try (destruct (negb _); reflexivity);
    try (exfalso; apply H; eauto; fail).
Qed.

Lemma typeof_string_spec (x : option json) :
  js_type_eqb (typeof x) TString = true <-> holds_string x.
Proof.
  unfold holds_string.
  destruct x as [[| b | n | s | xs | f]|]; simpl; split; intros H;
    try discriminate; try (destruct H; discriminate); eauto.
Qed.

(* --------------------------------------------------------------------- *)
(** ** Running methods                                                    *)
(* --------------------------------------------------------------------- *)

Lemma bind_get {A : Type} (k : QueryImpl -> M A) (w : World) :
  bind get_this k w = k (this w) w.
Proof. reflexivity. Qed.

Lemma bind_ok {A B : Type} (m : M A) (k : A -> M B) (w w1 : World) (a : A) :
  m w = (Ok a, w1) -> bind m k w = k a w1.
Proof. intros H. unfold bind. rewrite H. reflexivity. Qed.

Lemma bind_throw {A B : Type} (m : M A) (k : A -> M B) (w w1 : World)
    (e : thrown) :
  m w = (Throw e, w1) -> bind m k w = (Throw e, w1).
Proof. intros H. unfold bind. rewrite H. reflexivity. Qed.

Lemma catch_ok {A : Type} (body : M A) (h : thrown -> M A)
    (w w1 : World) (a : A) :
  body w = (Ok a, w1) -> catch body h w = (Ok a, w1).
Proof. intros H. unfold catch. rewrite H. reflexivity. Qed.

Lemma catch_throw {A : Type} (body : M A) (h : thrown -> M A)
    (w w1 : World) (e : thrown) :
  body w = (Throw e, w1) -> catch body h w = h e w1.
Proof. intros H. unfold catch. rewrite H. reflexivity. Qed.

Lemma turns_performed_emit (w : World) (e : event) :
  turns_performed (mkWorld (this w) (trace w ++ [e]))
  = turns_performed w + (if is_turn e then 1 else 0).
Proof.
  unfold turns_performed. simpl. rewrite List.filter_app, length_app. simpl.
  destruct (is_turn e); reflexivity.
Qed.

Lemma turn_bounds_ret {A : Type} (a : A) : turn_bounds (ret a) 0 0.
Proof. intros w. simpl. lia. Qed.

Lemma turn_bounds_throw {A : Type} (e : thrown) : turn_bounds (@throw A e) 0 0.
Proof. intros w. simpl. lia. Qed.

Lemma turn_bounds_await {A : Type} (r : result thrown A) :
  turn_bounds (await r) 0 0.
Proof. intros w. simpl. lia. Qed.

Lemma turn_bounds_get : turn_bounds get_this 0 0.
Proof. intros w. simpl. lia. Qed.

Lemma turn_bounds_modify (f : QueryImpl -> QueryImpl) :
  turn_bounds (modify_this f) 0 0.
Proof. intros w. unfold modify_this, turns_performed. simpl. lia. Qed.

Lemma turn_bounds_emit (e : event) :
  turn_bounds (emit e) (if is_turn e then 1 else 0) (if is_turn e then 1 else 0).
Proof. intros w. unfold emit. simpl. rewrite turns_performed_emit. lia. Qed.

(** A step that throws skips what follows it, so only the lower bound of
    the first step is certain. *)
Lemma turn_bounds_bind {A B : Type} (m : M A) (k : A -> M B) (a b d : nat) :
  turn_bounds m a b -> (forall x, turn_bounds (k x) 0 d) ->
  turn_bounds (bind m k) a (b + d).
Proof.
  intros Hm Hk w. unfold bind. specialize (Hm w).
  destruct (m w) as [[x|e] w1]; simpl in *.
  - specialize (Hk x w1). lia.
  - lia.
Qed.

Lemma turn_bounds_weaken {A : Type} (m : M A) (lo hi lo' hi' : nat) :
  turn_bounds m lo hi -> lo' <= lo -> hi <= hi' -> turn_bounds m lo' hi'.
Proof. intros H Hlo Hhi w. specialize (H w). lia. Qed.

Lemma turn_bounds_seq {A B : Type} (m : M A) (k : A -> M B) (hi : nat) :
  turn_bounds m 0 0 -> (forall x, turn_bounds (k x) 0 hi) ->
  turn_bounds (bind m k) 0 hi.
Proof.
  intros Hm Hk. eapply turn_bounds_weaken;
    [apply (turn_bounds_bind m k 0 0 hi Hm Hk) | lia | lia].
Qed.

Lemma turn_bounds_start {B : Type} (e : event) (k : unit -> M B) (hi : nat) :
  is_turn e = true -> (forall x, turn_bounds (k x) 0 hi) ->
  turn_bounds (bind (emit e) k) 1 (S hi).
Proof.
  intros He Hk. pose proof (turn_bounds_emit e) as Hm. rewrite He in Hm.
  eapply turn_bounds_weaken;
    [apply (turn_bounds_bind (emit e) k 1 1 hi Hm Hk) | lia | lia].
Qed.

Lemma turn_bounds_le {A : Type} (m : M A) (hi hi' : nat) :
  turn_bounds m 0 hi -> hi <= hi' -> turn_bounds m 0 hi'.
Proof. intros H Hle. eapply turn_bounds_weaken; [exact H | lia | exact Hle]. Qed.

Lemma completes_bind {A : Type} (m : M A) (k : A -> M (option Z)) :
  (forall x, completes (k x)) -> completes (bind m k).
Proof.
  intros Hk w. unfold bind. destruct (m w) as [[x|e] w1]; simpl.
  - apply Hk.
  - discriminate.
Qed.

Lemma completes_ret (z : Z) : completes (ret (Some z)).
Proof. intros w. discriminate. Qed.

Lemma turn_bounds_consume (io : RunIO) (stream : list (gmap string json)) :
  turn_bounds (consume io stream) 0 0.
Proof.
  induction stream as [|m rest IH]; simpl.
  - apply turn_bounds_ret.
  - apply turn_bounds_seq; [apply turn_bounds_get|]. intros q.
    apply turn_bounds_seq; [|intros _; exact IH].
    unfold push_and_yield.
    apply turn_bounds_seq; [apply turn_bounds_modify|]. intros _.
    apply (turn_bounds_emit (EvYield _)).
Qed.

Ltac bounds_step :=
  first
    [ apply turn_bounds_ret
    | apply turn_bounds_throw
    | apply turn_bounds_await
    | apply turn_bounds_get
    | apply turn_bounds_modify
    | apply turn_bounds_consume ].

(* --------------------------------------------------------------------- *)
(** ** Tool execution                                                     *)
(* --------------------------------------------------------------------- *)



(* --------------------------------------------------------------------- *)
(** ** Snapshot policy and teardown                                       *)
(* --------------------------------------------------------------------- *)

Lemma shouldSnapshot_policy (q : QueryImpl) (success : bool) :
  shouldSnapshot q success = true
  <-> snapshot_policy (snapshotOptions q) (snapshotEnabled q) success.
Proof.
  unfold shouldSnapshot, snapshot_policy.
  destruct (snapshotOptions q) as [opts|].
  - destruct (mode opts), success; simpl; split; intros H;
      try reflexivity; try discriminate; auto;
      destruct H as [H|[H1 H2]]; discriminate.
  - destruct (snapshotEnabled q), success; simpl; split; intros H;
      try reflexivity; try discriminate; auto; destruct H; discriminate.
Qed.

Lemma not_created_nil : ~ snapshot_created [].
Proof. intros (sb & id & []). Qed.

(** The constructor takes the advanced options as given and defaults the
    boolean flag to true. *)
Lemma constructor_snapshot_config (sid : string) (queryArgs : QueryArgsInternal) :
  snapshotEnabled (QueryImpl_constructor sid queryArgs)
  = nullish (arg_snapshotEnabled queryArgs) true
  /\ snapshotOptions (QueryImpl_constructor sid queryArgs)
     = arg_snapshot queryArgs.
Proof. split; reflexivity. Qed.

(** Claim C6, as the code has it.  When the snapshot step of the teardown
    runs, an automatic snapshot is created if and only if the transport is
    still connected and holds a sandbox whose snapshot operation succeeds,
    and the policy asks for one: advanced options are given and their mode
    is [always], or it is [on-success] and the run succeeded (the modes
    [never] and [on-demand] never ask); or no advanced options are given,
    the boolean flag is set and the run succeeded. *)
Theorem handleSnapshot_policy (q : QueryImpl) (success : bool) (now : Z) :
  snapshot_created (trace (handleSnapshot now success (mkWorld q [])).2)
  <-> (isConnected (transport q) = true
       /\ (exists sb id, sandbox (transport q) = Some sb
                         /\ snapshot_outcome sb = Ok id)
       /\ snapshot_policy (snapshotOptions q) (snapshotEnabled q) success).
Proof.
  rewrite <- shouldSnapshot_policy.
  unfold handleSnapshot, bind, get_this. simpl.
  destruct (isConnected (transport q)) eqn:Hconn; simpl.
  2:{ split; [intros H; destruct (not_created_nil H)
             | intros [H _]; discriminate]. }
  destruct (shouldSnapshot q success) eqn:Hshould; simpl.
  2:{ split; [intros H; destruct (not_created_nil H)
             | intros (_ & _ & H); discriminate]. }
  unfold catch, on_transport, SandboxTransport_createSnapshotWithInfo. simpl.
  destruct (sandbox (transport q)) as [sb|] eqn:Hsb; simpl.
  2:{ split.
      - intros (sb & id & [H|[]]). discriminate.
      - intros (_ & (sb & id & H & _) & _). discriminate. }
  destruct (snapshot_outcome sb) as [id|e] eqn:Hout; simpl.
  - split; [intros _; split; [reflexivity|]; split; [eauto|reflexivity]|].
    intros _. exists (sandboxId sb), id.
    destruct (snapshotOptions q) as [opts|]; simpl.
    + destruct (onSnapshot opts) as [callback|]; simpl.
      * destruct (callback _); simpl; left; reflexivity.
      * left; reflexivity.
    + left; reflexivity.
  - split.
    + intros (sb' & id & [H|[H|[]]]); discriminate.
    + intros (_ & (sb' & id & H1 & H2) & _).
      injection H1 as <-. rewrite Hout in H2. discriminate.
Qed.

Lemma handleSnapshot_returns (now : Z) (success : bool) (w : World) :
  (handleSnapshot now success w).1 = Ok tt.
Proof.
  unfold handleSnapshot, bind at 1, get_this. simpl.
  destruct (isConnected _); [|reflexivity]. simpl.
  destruct (shouldSnapshot _ _); [|reflexivity].
  unfold catch.
  match goal with
  | |- (match ?body with _ => _ end).1 = _ =>
      destruct body as [[[]|e] w']; reflexivity
  end.
Qed.

(** [close] always leaves the transport without a sandbox and
    disconnected, and stops the sandbox it held. *)
Lemma close_releases (t : SandboxTransport) :
  SandboxTransport_close t
  = (mkTransport None false (options_snapshotId t) None,
     match sandbox t with
     | Some sb => [EvStop (sandboxId sb)]
     | None => []
     end).
Proof.
  unfold SandboxTransport_close.
  destruct (sandbox t) as [sb|]; [destruct (stop_outcome sb)|]; reflexivity.
Qed.

(** Errors of the teardown phase are caught: the teardown never throws. *)
Lemma teardown_never_throws (w : World) (now now_snapshot : Z)
    (success : bool) (error : option thrown) :
  (handleTeardownAndLifecycle now now_snapshot success error w).1 = Ok tt.
Proof.
  unfold handleTeardownAndLifecycle. rewrite bind_get. unfold catch.
  match goal with
  | |- (match ?body with _ => _ end).1 = _ =>
      destruct body as [[[]|e] w']; reflexivity
  end.
Qed.

(** When the hook is absent, not called, or returns, [close] is invoked and
    the transport no longer holds a sandbox. *)
Lemma teardown_closes (w : World) (now now_snapshot : Z)
    (success : bool) (error : option thrown) :
  (exists w1, teardown_hook_step now success error (this w) w = (Ok tt, w1)) ->
  let w' := (handleTeardownAndLifecycle now now_snapshot success error w).2 in
  In EvClose (trace w')
  /\ sandbox (transport (this w')) = None
  /\ isConnected (transport (this w')) = false.
Proof.
  intros [w1 Hpre].
  pose proof (handleSnapshot_returns now_snapshot success w1) as Hs.
  destruct (handleSnapshot now_snapshot success w1) as [r w2] eqn:Hsnap.
  simpl in Hs. subst r.
  unfold handleTeardownAndLifecycle. rewrite bind_get.
  erewrite catch_ok.
  2:{ erewrite bind_ok; [|exact Hpre].
      erewrite bind_ok; [|exact Hsnap].
      erewrite bind_ok; [|reflexivity].
      unfold on_transport. rewrite close_releases. reflexivity. }
  simpl. rewrite !in_app_iff. simpl. tauto.
Qed.

(** Claim C7, the code at the failing input.  When the teardown hook is
    configured, the transport is connected and the hook throws, the
    teardown logs the error and returns, and nothing else happens: the
    snapshot step and [close] are skipped, so the transport is unchanged
    and still holds its sandbox, which is never stopped. *)
Theorem teardown_hook_failure_skips_close
    (w : World) (hook : QueryResultInfo -> result thrown unit)
    (sb : Sandbox) (e : thrown) (now now_snapshot : Z)
    (success : bool) (error : option thrown) :
  onTeardown (hooks (this w)) = Some hook ->
  isConnected (transport (this w)) = true ->
  sandbox (transport (this w)) = Some sb ->
  hook (teardown_info now success error (this w)) = Throw e ->
  handleTeardownAndLifecycle now now_snapshot success error w
  = (Ok tt,
     mkWorld (this w)
       (trace w
        ++ [EvTeardownHook (teardown_info now success error (this w));
            EvConsoleError "[claude-agent-sdk] Teardown error:"])).
Proof.
  intros Hhook Hconn Hsb Hthrow.
  unfold handleTeardownAndLifecycle. rewrite bind_get.
  erewrite catch_throw.
  2:{ eapply bind_throw. unfold teardown_hook_step.
      rewrite Hhook, Hconn.
      erewrite bind_ok;
        [|unfold getSandboxContext; rewrite bind_get, Hsb; reflexivity].
      erewrite bind_ok; [|reflexivity].
      unfold await. rewrite Hthrow. reflexivity. }
  unfold emit. simpl. rewrite <- app_assoc. reflexivity.
Qed.

(* --------------------------------------------------------------------- *)
(** ** Message enrichment                                                 *)
(* --------------------------------------------------------------------- *)

Section EnrichmentProperties.

Variable JSON_stringify : json -> string.

(** On an object with a recognised type the gate opens and the result is
    the two enrichment steps applied to its fields. *)
Lemma enrichMessage_valid this uuid sid (fields : gmap string json) (t : string) :
  fields !! "type" = Some (JStr t) -> t ∈ VALID_MESSAGE_TYPES ->
  SandboxTransport_enrichMessage JSON_stringify this uuid sid (JObj fields)
  = Ok (JObj (with_type_defaults t (with_identity this uuid sid fields))).
Proof.
  intros Hty Hin. unfold SandboxTransport_enrichMessage.
  rewrite (isValidMessageStructure_object fields t Hty Hin). simpl.
  rewrite with_identity_other by discriminate. rewrite Hty. reflexivity.
Qed.

(** Claim C1.  For every raw value that is an object whose [type] is a
    string of the closed set, [SandboxTransport.enrichMessage] returns a
    message whose [uuid] is a string, whose [session_id] is a string and
    whose [parent_tool_use_id] is present and is a string or null.
    Moreover an [assistant] or [user] input without an object in [message]
    (object in the sense of [typeof], so a plain object or an array) gets
    [{ role: type, content: [] }]; a [result] input without a string
    [subtype] gets [success]; an [error] input without an object in [error]
    gets [{ code: UNKNOWN_ERROR, message: Unknown error occurred }]. *)
Theorem enrichMessage_populates_base_fields
    (this : SandboxTransport) (uuid sid : string)
    (fields : gmap string json) (t : string) :
  fields !! "type" = Some (JStr t) ->
  t ∈ VALID_MESSAGE_TYPES ->
  exists out : gmap string json,
    SandboxTransport_enrichMessage JSON_stringify this uuid sid (JObj fields)
    = Ok (JObj out)
    /\ holds_string (out !! "uuid")
    /\ holds_string (out !! "session_id")
    /\ (out !! "parent_tool_use_id" = Some JNull
        \/ holds_string (out !! "parent_tool_use_id"))
    /\ (t = "assistant" \/ t = "user" ->
        ~ holds_object (fields !! "message") ->
        out !! "message"
        = Some (JObj (<["content" := JArr []]> (<["role" := JStr t]> ∅))))
    /\ (t = "result" ->
        ~ holds_string (fields !! "subtype") ->
        out !! "subtype" = Some (JStr "success"))
    /\ (t = "error" ->
        ~ holds_object (fields !! "error") ->
        out !! "error"
        = Some (JObj (<["message" := JStr "Unknown error occurred"]>
                      (<["code" := JStr "UNKNOWN_ERROR"]> ∅)))).
Proof.
  intros Hty Hin.
  exists (with_type_defaults t (with_identity this uuid sid fields)).
  split; [apply enrichMessage_valid; assumption|].
  rewrite !with_type_defaults_identity by auto.
  split; [|split; [|split]].
  - rewrite with_identity_uuid.
    destruct (string_or_cases (fields !! "uuid") (JStr uuid))
      as [(s & _ & ->)|(_ & ->)]; eexists; reflexivity.
  - rewrite with_identity_session.
    destruct (string_or_cases (fields !! "session_id")
                (JStr (session_or (currentSessionId this) sid)))
      as [(s & _ & ->)|(_ & ->)]; eexists; reflexivity.
  - rewrite with_identity_parent.
    destruct (string_or_cases (fields !! "parent_tool_use_id") JNull)
      as [(s & _ & ->)|(_ & ->)];
      [right; eexists; reflexivity | left; reflexivity].
  - unfold with_type_defaults. split; [|split].
    + intros Ht Hno.
      assert (Hb : bool_decide (t = "assistant") || bool_decide (t = "user")
                   = true).
      { destruct Ht as [-> | ->]; reflexivity. }
      rewrite Hb.
      assert (Hn : not_an_object
                     (with_identity this uuid sid fields !! "message") = true).
      { rewrite with_identity_other by discriminate.
        apply not_an_object_spec, Hno. }
      rewrite Hn. apply lookup_insert_eq.
    + intros -> Hno. simpl.
      rewrite with_identity_other by discriminate.
      destruct (js_type_eqb (typeof (fields !! "subtype")) TString) eqn:E.
      * exfalso. apply Hno. apply typeof_string_spec. exact E.
      * simpl. apply lookup_insert_eq.
    + intros -> Hno. simpl.
      assert (Hn : not_an_object
                     (with_identity this uuid sid fields !! "error") = true).
      { rewrite with_identity_other by discriminate.
        apply not_an_object_spec, Hno. }
      rewrite Hn. apply lookup_insert_eq.
Qed.

(** Claim C2.  For every input that is null, not an object, without a
    [type] field, with a [type] that is not a string, or with a string
    [type] outside the closed set, [SandboxTransport.enrichMessage] throws
    the structural [ParseError] that carries the serialized input, and it
    returns no message. *)
Theorem enrichMessage_rejects_malformed
    (this : SandboxTransport) (uuid sid : string) (rawMessage : json) :
  malformed rawMessage ->
  SandboxTransport_enrichMessage JSON_stringify this uuid sid rawMessage
  = Throw (mkParseError
             "Invalid message structure: missing or invalid 'type' field"
             (Some (JSON_stringify rawMessage)) None)
  /\ forall message : json,
       SandboxTransport_enrichMessage JSON_stringify this uuid sid rawMessage
       <> Ok message.
Proof.
  intros Hbad.
  assert (E : SandboxTransport_enrichMessage JSON_stringify this uuid sid
                rawMessage
              = Throw (mkParseError
                  "Invalid message structure: missing or invalid 'type' field"
                  (Some (JSON_stringify rawMessage)) None)).
  { unfold SandboxTransport_enrichMessage.
    rewrite (malformed_invalid rawMessage Hbad). reflexivity. }
  split; [exact E|]. intros message. rewrite E. discriminate.
Qed.

(** Claim C10.  For every input the transport's [enrichMessage] accepts,
    every field other than [uuid], [session_id], [parent_tool_use_id] and
    the one field defaulted for the type ([message] for assistant and
    user, [subtype] for result, [error] for error) has in the output the
    value it has in the input, and no field of the input is missing from
    the output. *)
Theorem enrichMessage_frame
    (this : SandboxTransport) (uuid sid : string)
    (fields : gmap string json) (t : string) :
  fields !! "type" = Some (JStr t) ->
  t ∈ VALID_MESSAGE_TYPES ->
  exists out : gmap string json,
    SandboxTransport_enrichMessage JSON_stringify this uuid sid (JObj fields)
    = Ok (JObj out)
    /\ (forall k : string,
          k <> "uuid" -> k <> "session_id" -> k <> "parent_tool_use_id" ->
          (t = "assistant" \/ t = "user" -> k <> "message") ->
          (t = "result" -> k <> "subtype") ->
          (t = "error" -> k <> "error") ->
          out !! k = fields !! k)
    /\ (forall k : string, is_Some (fields !! k) -> is_Some (out !! k)).
Proof.
  intros Hty Hin.
  exists (with_type_defaults t (with_identity this uuid sid fields)).
  split; [apply enrichMessage_valid; assumption|].
  split.
  - intros k H1 H2 H3 Hm Hs He.
    rewrite with_type_defaults_other by assumption.
    apply with_identity_other; assumption.
  - intros k Hk.
    assert (Hid : is_Some (with_identity this uuid sid fields !! k)).
    { unfold with_identity. rewrite !lookup_insert_is_Some'. tauto. }
    revert Hid. generalize (with_identity this uuid sid fields). intros m Hid.
    unfold with_type_defaults.
    repeat match goal with
           | |- context [if ?b then _ else _] => destruct b
           end; try exact Hid;
      rewrite lookup_insert_is_Some'; tauto.
Qed.

(** Claim C8, as the code has it.  For a message of a known type whose
    [uuid], [session_id] and [parent_tool_use_id] are strings, the
    transport's [enrichMessage] returns a message with the same three
    values, whatever the strings are.  The orchestrator's [enrichMessage]
    returns the message itself when [uuid] and [session_id] are both
    non-empty; it always keeps [parent_tool_use_id], keeps a non-empty
    [uuid] and keeps a non-empty [session_id]. *)
Theorem enrichMessage_keeps_identity
    (this : SandboxTransport) (q : QueryImpl) (uuid sid : string)
    (message : gmap string json) (t u s p : string) :
  message !! "type" = Some (JStr t) ->
  t ∈ VALID_MESSAGE_TYPES ->
  message !! "uuid" = Some (JStr u) ->
  message !! "session_id" = Some (JStr s) ->
  message !! "parent_tool_use_id" = Some (JStr p) ->
  (exists out : gmap string json,
     SandboxTransport_enrichMessage JSON_stringify this uuid sid (JObj message)
     = Ok (JObj out)
     /\ out !! "uuid" = Some (JStr u)
     /\ out !! "session_id" = Some (JStr s)
     /\ out !! "parent_tool_use_id" = Some (JStr p))
  /\ (u <> EmptyString -> s <> EmptyString ->
      QueryImpl_enrichMessage q uuid message = message)
  /\ QueryImpl_enrichMessage q uuid message !! "parent_tool_use_id"
     = Some (JStr p)
  /\ (u <> EmptyString ->
      QueryImpl_enrichMessage q uuid message !! "uuid" = Some (JStr u))
  /\ (s <> EmptyString ->
      QueryImpl_enrichMessage q uuid message !! "session_id" = Some (JStr s)).
Proof.
  intros Hty Hin Hu Hs Hp.
  assert (Htu : forall v, truthy (Some (JStr v)) = negb (String.eqb v ""))
    by reflexivity.
  split; [|split; [|split; [|split]]].
  - exists (with_type_defaults t (with_identity this uuid sid message)).
    split; [apply enrichMessage_valid; assumption|].
    rewrite !with_type_defaults_identity by auto.
    rewrite with_identity_uuid, with_identity_session, with_identity_parent.
    rewrite Hu, Hs, Hp. auto.
  - intros Hune Hsne. unfold QueryImpl_enrichMessage.
    rewrite Hu, Hs, !Htu.
    apply String.eqb_neq in Hune, Hsne. rewrite Hune, Hsne. reflexivity.
  - unfold QueryImpl_enrichMessage.
    destruct (truthy (message !! "uuid") && truthy (message !! "session_id"));
      [exact Hp|].
    rewrite lookup_insert_eq, Hp. reflexivity.
  - intros Hune. unfold QueryImpl_enrichMessage.
    destruct (truthy (message !! "uuid") && truthy (message !! "session_id"));
      [exact Hu|].
    rewrite !lookup_insert_ne by discriminate. rewrite lookup_insert_eq.
    rewrite Hu. unfold truthy_or. rewrite Htu.
    apply String.eqb_neq in Hune. rewrite Hune. reflexivity.
  - intros Hsne. unfold QueryImpl_enrichMessage.
    destruct (truthy (message !! "uuid") && truthy (message !! "session_id"));
      [exact Hs|].
    rewrite lookup_insert_ne by discriminate. rewrite lookup_insert_eq.
    rewrite Hs. unfold truthy_or. rewrite Htu.
    apply String.eqb_neq in Hsne. rewrite Hsne. reflexivity.
Qed.

End EnrichmentProperties.

(* --------------------------------------------------------------------- *)
(** ** NDJSON parsing                                                     *)
(* --------------------------------------------------------------------- *)

Section ParserProperties.

Variable JSON_stringify : json -> string.
Variable JSON_parse : string -> result string json.
Variable trim : string -> string.

(** Claim C9.  For every input line whose trimmed content parses to an
    object that contains a [type] key, [parseLine] returns that object,
    whatever the value of [type] is; and when that value is not a string
    of the closed set, the object that [parseLine] returned is refused by
    the transport's [enrichMessage] with the structural [ParseError]. *)
Theorem parseLine_accepts_any_type_value
    (line : string) (fields : gmap string json) (x : json) :
  trim line <> EmptyString ->
  JSON_parse (trim line) = Ok (JObj fields) ->
  fields !! "type" = Some x ->
  parseLine JSON_parse trim line = Ok (Some (JObj fields))
  /\ ((forall t, x = JStr t -> t ∉ VALID_MESSAGE_TYPES) ->
      forall this uuid sid,
        SandboxTransport_enrichMessage JSON_stringify this uuid sid (JObj fields)
        = Throw (mkParseError
                   "Invalid message structure: missing or invalid 'type' field"
                   (Some (JSON_stringify (JObj fields))) None)).
Proof.
  intros Hne Hparse Hty. split.
  - unfold parseLine. apply String.eqb_neq in Hne. rewrite Hne, Hparse.
    simpl. unfold has_key. simpl. rewrite Hty. reflexivity.
  - intros Hbad this uuid sid. unfold SandboxTransport_enrichMessage.
    assert (E : isValidMessageStructure (JObj fields) = false).
    { unfold isValidMessageStructure. simpl. rewrite Hty.
      destruct x as [| b | n | t | xs | f]; try reflexivity.
      rewrite bool_decide_eq_false_2; [reflexivity|]. apply Hbad. reflexivity. }
    rewrite E. reflexivity.
Qed.

(** Whatever the gate lets through, [parseLine] lets through as well. *)
Lemma parseLine_accepts_valid (line : string) (v : json) :
  trim line <> EmptyString ->
  JSON_parse (trim line) = Ok v ->
  isValidMessageStructure v = true ->
  parseLine JSON_parse trim line = Ok (Some v).
Proof.
  intros Hne Hparse Hvalid.
  destruct (isValidMessageStructure_inv v Hvalid) as (fields & t & -> & Hty & _).
  unfold parseLine. apply String.eqb_neq in Hne. rewrite Hne, Hparse.
  simpl. unfold has_key. simpl. rewrite Hty. reflexivity.
Qed.

Lemma yield_lines_app (xs ys : list string) :
  yield_lines JSON_parse trim (xs ++ ys)
  = then_generated (yield_lines JSON_parse trim xs)
      (yield_lines JSON_parse trim ys).
Proof.
  induction xs as [|x xs IH]; simpl.
  - destruct (yield_lines JSON_parse trim ys); reflexivity.
  - destruct (parseLine JSON_parse trim x) as [[m|]|e];
      [|exact IH|reflexivity].
    rewrite IH.
    destruct (yield_lines JSON_parse trim xs) as [zs [e|]]; simpl;
      [reflexivity|].
    destruct (yield_lines JSON_parse trim ys). reflexivity.
Qed.

(** The loop invariant of the stream parser: with a buffer that holds no
    newline, reading the remaining chunks gives what reading the buffer
    followed by their whole text at once gives. *)
Lemma stream_loop_whole (chunks : list string) (buffer : string) :
  no_newline buffer = true ->
  stream_loop JSON_parse trim buffer chunks
  = yield_lines JSON_parse trim (split_lines (buffer +:+ text_of chunks)).
Proof.
  revert buffer. induction chunks as [|value rest IH]; intros buffer Hbuf; simpl.
  - rewrite append_empty_r, split_lines_single by assumption. simpl.
    unfold parseLine.
    destruct (String.eqb (trim buffer) ""); reflexivity.
  - rewrite <- append_assoc.
    rewrite (split_lines_app (buffer +:+ value) (text_of rest)).
    rewrite yield_lines_app.
    rewrite IH by apply last_no_newline.
    unfold then_generated.
    destruct (yield_lines JSON_parse trim
                (removelast (split_lines (buffer +:+ value))))
      as [ys [e|]]; reflexivity.
Qed.

(** However the text is cut into chunks, the stream parser does what the
    string parser does on the whole text. *)
Lemma parseNDJSONStream_as_string (chunks : list string) :
  parseNDJSONStream JSON_parse trim chunks
  = parseNDJSONString JSON_parse trim (text_of chunks).
Proof. apply stream_loop_whole. reflexivity. Qed.

Lemma parseLine_ndjson_line (l : string) (m : option json) :
  ndjson_line JSON_parse trim l m -> parseLine JSON_parse trim l = Ok m.
Proof.
  intros [l' Hnl Hblank | l' fields Hnl Hne Hparse [x Hty]]; unfold parseLine.
  - rewrite Hblank. reflexivity.
  - apply String.eqb_neq in Hne. rewrite Hne, Hparse. simpl.
    unfold has_key. simpl. rewrite Hty. reflexivity.
Qed.

Lemma yield_lines_entries (entries : list (string * option json)) :
  Forall (fun e => ndjson_line JSON_parse trim e.1 e.2) entries ->
  yield_lines JSON_parse trim (map fst entries) = (omap snd entries, None).
Proof.
  induction 1 as [|[l m] es He Hes IH]; simpl; [reflexivity|].
  rewrite (parseLine_ndjson_line l m He).
  destruct m as [v|]; simpl; [rewrite IH; reflexivity | exact IH].
Qed.

(** Claim C3.  Take any sequence of lines, each one blank or a valid
    message line, joined by newlines (a trailing newline is a last, empty
    line), and any way of cutting the resulting text into read chunks, in
    the middle of a line or not.  Then [parseNDJSONStream] ends without an
    error after yielding exactly the messages of the message lines, in the
    order of the lines: blank lines yield nothing. *)
Theorem parseNDJSONStream_reassembles
    (entries : list (string * option json)) (chunks : list string) :
  entries <> [] ->
  Forall (fun e => ndjson_line JSON_parse trim e.1 e.2) entries ->
  text_of chunks = String.concat nl (map fst entries) ->
  parseNDJSONStream JSON_parse trim chunks = (omap snd entries, None).
Proof.
  intros Hne Hall Htext.
  rewrite parseNDJSONStream_as_string. unfold parseNDJSONString.
  rewrite Htext, split_lines_join.
  - apply yield_lines_entries; assumption.
  - destruct entries; [congruence | discriminate].
  - apply Forall_map. eapply Forall_impl; [exact Hall|].
    intros [l m] H; simpl in *. destruct H; assumption.
Qed.

End ParserProperties.

(* --------------------------------------------------------------------- *)
(** ** The turn loop                                                      *)
(* --------------------------------------------------------------------- *)

Section LoopProperties.

Variable JSON_stringify : json -> string.
Variable extractText : gmap string json -> result thrown string.
Variable parseToolRequestsFromText : string -> list ToolRequest.

(** The loop never performs more turns than the guard leaves room for. *)
Lemma turn_loop_budget (io : RunIO) (maxTurns : Z) (tools : list ToolDefinition)
    (fuel : nat) :
  forall (turn : Z) (history : list (string * string)) (currentPrompt : string),
    turn_bounds
      (turn_loop JSON_stringify extractText parseToolRequestsFromText
         io maxTurns tools fuel turn history currentPrompt)
      0 (Z.to_nat (maxTurns - turn)).
Proof.
  induction fuel as [|fuel IH]; intros turn history currentPrompt.
  - simpl. eapply turn_bounds_le; [apply turn_bounds_ret | lia].
  - simpl. apply turn_bounds_seq; [apply turn_bounds_get|]. intros q.
    destruct ((turn <? maxTurns)%Z && negb (isInterrupted q)) eqn:Hguard;
      [|eapply turn_bounds_le; [apply turn_bounds_ret | lia]].
    apply andb_true_iff in Hguard as [Hlt _]. apply Z.ltb_lt in Hlt.
    eapply turn_bounds_weaken with (lo := 1)
      (hi := S (Z.to_nat (maxTurns - (turn + 1)))); [|lia|lia].
    apply turn_bounds_start; [reflexivity|]. intros _.
    apply turn_bounds_seq; [apply turn_bounds_consume|]. intros _.
    apply turn_bounds_seq; [destruct (stream_end _); bounds_step|]. intros _.
    apply turn_bounds_seq; [apply turn_bounds_get|]. intros q'.
    destruct (isInterrupted q');
      [eapply turn_bounds_le; [apply turn_bounds_ret | lia]|].
    apply turn_bounds_seq; [apply turn_bounds_await|]. intros assistantText.
    destruct ((length (parseToolRequestsFromText assistantText) =? 0)
              || (length tools =? 0));
      [eapply turn_bounds_le; [apply turn_bounds_ret | lia]|].
    apply turn_bounds_seq;
      [destruct (interrupted_in_tools _); bounds_step|].
    intros _. apply IH.
Qed.

(** Without tools an iteration leaves the loop once its stream has ended,
    so the loop performs at most one turn. *)
Lemma turn_loop_no_tools (io : RunIO) (maxTurns : Z) (fuel : nat)
    (turn : Z) (history : list (string * string)) (currentPrompt : string) :
  turn_bounds
    (turn_loop JSON_stringify extractText parseToolRequestsFromText
       io maxTurns [] fuel turn history currentPrompt)
    0 1.
Proof.
  destruct fuel as [|fuel]; simpl.
  - eapply turn_bounds_le; [apply turn_bounds_ret | lia].
  - apply turn_bounds_seq; [apply turn_bounds_get|]. intros q.
    destruct ((turn <? maxTurns)%Z && negb (isInterrupted q));
      [|eapply turn_bounds_le; [apply turn_bounds_ret | lia]].
    eapply turn_bounds_weaken with (lo := 1) (hi := 1); [|lia|lia].
    apply turn_bounds_start; [reflexivity|]. intros _.
    apply turn_bounds_seq; [apply turn_bounds_consume|]. intros _.
    apply turn_bounds_seq; [destruct (stream_end _); bounds_step|]. intros _.
    apply turn_bounds_seq; [apply turn_bounds_get|]. intros q'.
    destruct (isInterrupted q'); [apply turn_bounds_ret|].
    apply turn_bounds_seq; [apply turn_bounds_await|]. intros assistantText.
    rewrite orb_true_r. apply turn_bounds_ret.
Qed.

(** With the guard open, the first iteration starts exactly one session. *)
Lemma turn_loop_no_tools_exact (io : RunIO) (maxTurns : Z) (fuel : nat)
    (turn : Z) (history : list (string * string)) (currentPrompt : string)
    (w : World) :
  (turn < maxTurns)%Z -> isInterrupted (this w) = false ->
  turns_performed
    (turn_loop JSON_stringify extractText parseToolRequestsFromText
       io maxTurns [] (S fuel) turn history currentPrompt w).2
  = turns_performed w + 1.
Proof.
  intros Hlt Hint.
  pose proof (turn_loop_no_tools io maxTurns (S fuel) turn history currentPrompt w)
    as [_ Hhi].
  enough (turns_performed w + 1
          <= turns_performed
               (turn_loop JSON_stringify extractText parseToolRequestsFromText
                  io maxTurns [] (S fuel) turn history currentPrompt w).2) by lia.
  clear Hhi. simpl. unfold bind at 1. simpl.
  apply Z.ltb_lt in Hlt. rewrite Hlt, Hint. simpl.
  match goal with
  | |- _ <= turns_performed (bind (emit ?e) ?k w).2 =>
      assert (Hk : forall x, turn_bounds (k x) 0 0);
      [|pose proof (turn_bounds_start e k 0 eq_refl Hk w) as [Hlo _]; exact Hlo]
  end.
  intros _.
  apply turn_bounds_seq; [apply turn_bounds_consume|]. intros _.
  apply turn_bounds_seq; [destruct (stream_end _); bounds_step|]. intros _.
  apply turn_bounds_seq; [apply turn_bounds_get|]. intros q'.
  destruct (isInterrupted q'); [apply turn_bounds_ret|].
  apply turn_bounds_seq; [apply turn_bounds_await|]. intros assistantText.
  rewrite orb_true_r. apply turn_bounds_ret.
Qed.

(** The recursion budget given by [run_turn_loop] is never exhausted: the
    loop always ends by leaving through its guard, a [break] or a throw. *)
Lemma turn_loop_completes (io : RunIO) (maxTurns : Z)
    (tools : list ToolDefinition) (fuel : nat) :
  forall (turn : Z) (history : list (string * string)) (currentPrompt : string),
    Z.to_nat (maxTurns - turn) < fuel ->
    completes
      (turn_loop JSON_stringify extractText parseToolRequestsFromText
         io maxTurns tools fuel turn history currentPrompt).
Proof.
  induction fuel as [|fuel IH]; intros turn history currentPrompt Hfuel; [lia|].
  simpl. apply completes_bind. intros q.
  destruct ((turn <? maxTurns)%Z && negb (isInterrupted q)) eqn:Hguard;
    [|apply completes_ret].
  apply andb_true_iff in Hguard as [Hlt _]. apply Z.ltb_lt in Hlt.
  repeat (apply completes_bind; intros ?).
  destruct (isInterrupted _); [apply completes_ret|].
  apply completes_bind. intros assistantText.
  destruct (_ || _); [apply completes_ret|].
  apply completes_bind. intros _.
  apply IH. lia.
Qed.

(** Claim C4, as the code has it.  In the turn loop of the orchestrator,
    when no tool is configured or when [maxTurns] is 1, the loop ends and
    performs at most one turn, even if the assistant output contains
    tool-call requests.  When no tool is configured, [maxTurns] (10 when
    the option is absent) is at least 1 and the run has not been
    interrupted before the loop starts, exactly one turn is performed. *)
Theorem turn_loop_turn_count (io : RunIO) (w : World) :
  nullish (option_tools io) [] = [] \/ option_maxTurns io = Some 1%Z ->
  (run_turn_loop JSON_stringify extractText parseToolRequestsFromText io w).1
  <> Ok None
  /\ turns_performed
       (run_turn_loop JSON_stringify extractText parseToolRequestsFromText
          io w).2
     <= turns_performed w + 1
  /\ (nullish (option_tools io) [] = [] ->
      (1 <= nullish (option_maxTurns io) 10)%Z ->
      isInterrupted (this w) = false ->
      turns_performed
        (run_turn_loop JSON_stringify extractText parseToolRequestsFromText
           io w).2
      = turns_performed w + 1).
Proof.
  intros Hcase. unfold run_turn_loop. cbv zeta.
  split; [|split].
  - apply turn_loop_completes. lia.
  - destruct Hcase as [Hnone | Hone].
    + rewrite Hnone. apply turn_loop_no_tools.
    + rewrite Hone. simpl nullish.
      pose proof (turn_loop_budget io 1 (nullish (option_tools io) [])
                    (S (Z.to_nat 1)) 0 [] (prompt io) w) as [_ Hhi].
      simpl in Hhi. exact Hhi.
  - intros Hnone Hmax Hint. rewrite Hnone.
    apply turn_loop_no_tools_exact; [lia | exact Hint].
Qed.

End LoopProperties.

(* ===================================================================== *)
(** * 6. The properties on the sample inputs                              *)
(* ===================================================================== *)

(** The scenario of the specification: [{ type: result }] without a
    subtype is enriched to a success result with generated identity. *)
Example enrichMessage_result_scenario :
  SandboxTransport_enrichMessage sample_stringify idle_transport
    "uuid-1" "session_9" (JObj (object_of_type "result"))
  = Ok (JObj (<["parent_tool_use_id" := JNull]>
              (<["session_id" := JStr "session_9"]>
              (<["uuid" := JStr "uuid-1"]>
              (<["subtype" := JStr "success"]>
              (<["type" := JStr "result"]> ∅)))))).
Proof. vm_compute. reflexivity. Qed.

(** With a session in effect its id is used instead of a generated one. *)
Example enrichMessage_uses_current_session :
  SandboxTransport_enrichMessage sample_stringify connected_transport
    "uuid-1" "session_9" (JObj (object_of_type "system"))
  = Ok (JObj (<["parent_tool_use_id" := JNull]>
              (<["session_id" := JStr "session_1"]>
              (<["uuid" := JStr "uuid-1"]>
              (<["type" := JStr "system"]> ∅))))).
Proof. vm_compute. reflexivity. Qed.

(** An array in [message] counts as an object and is kept. *)
Example enrichMessage_keeps_array_message :
  exists out,
    SandboxTransport_enrichMessage sample_stringify idle_transport
      "uuid-1" "session_9"
      (JObj (<["message" := JArr []]> (object_of_type "assistant")))
    = Ok (JObj out)
    /\ out !! "message" = Some (JArr []).
Proof. eexists. split; vm_compute; reflexivity. Qed.

(** The scenario of the specification: the calculator called with a
    string for [a]. *)
Example executeTool_validation_scenario :
  executeTool calculator
    (JObj (<["a" := JStr "x"]> (<["b" := JNum 3]> ∅)))
  = Ok {| content := [TextContent "Validation error: a: Expected number"];
          isError := Some true |}.
Proof. vm_compute. reflexivity. Qed.

Example executeTool_success_scenario :
  executeTool calculator
    (JObj (<["a" := JNum 2]> (<["b" := JNum 3]> ∅)))
  = Ok {| content := [TextContent "5"]; isError := None |}.
Proof. vm_compute. reflexivity. Qed.


Lemma recognised_type (t : string) :
  bool_decide (t ∈ VALID_MESSAGE_TYPES) = true -> t ∈ VALID_MESSAGE_TYPES.
Proof. apply bool_decide_eq_true_1. Qed.

Lemma unrecognised_type (t : string) :
  bool_decide (t ∈ VALID_MESSAGE_TYPES) = false -> t ∉ VALID_MESSAGE_TYPES.
Proof. apply bool_decide_eq_false_1. Qed.

(** C1 on [{ type: assistant }]. *)
Lemma enrichMessage_populates_base_fields_witness :
  object_of_type "assistant" !! "type" = Some (JStr "assistant")
  /\ "assistant" ∈ VALID_MESSAGE_TYPES
  /\ exists out : gmap string json,
       SandboxTransport_enrichMessage sample_stringify idle_transport
         "uuid-1" "session_9" (JObj (object_of_type "assistant"))
       = Ok (JObj out)
       /\ holds_string (out !! "uuid")
       /\ holds_string (out !! "session_id")
       /\ out !! "message"
          = Some (JObj (<["content" := JArr []]>
                        (<["role" := JStr "assistant"]> ∅))).
Proof.
  split; [reflexivity|].
  split; [apply recognised_type; reflexivity|].
  destruct (enrichMessage_populates_base_fields sample_stringify idle_transport
              "uuid-1" "session_9" (object_of_type "assistant") "assistant"
              eq_refl (recognised_type "assistant" eq_refl))
    as (out & Hout & Hu & Hs & _ & Hm & _).
  exists out. split; [exact Hout|]. split; [exact Hu|]. split; [exact Hs|].
  apply Hm; [left; reflexivity|].
  intros [[f Hf]|[xs Hxs]]; discriminate.
Defined.

(** C2 on [{ type: unknown_type }]. *)
Lemma enrichMessage_rejects_malformed_witness :
  malformed (JObj (object_of_type "unknown_type"))
  /\ SandboxTransport_enrichMessage sample_stringify idle_transport
       "uuid-1" "session_9" (JObj (object_of_type "unknown_type"))
     = Throw (mkParseError
                "Invalid message structure: missing or invalid 'type' field"
                (Some "{...}") None).
Proof.
  assert (H : malformed (JObj (object_of_type "unknown_type"))).
  { apply (malformed_unknown_type _ "unknown_type");
      [reflexivity | apply unrecognised_type; reflexivity]. }
  split; [exact H|].
  exact (proj1 (enrichMessage_rejects_malformed sample_stringify idle_transport
                  "uuid-1" "session_9" _ H)).
Defined.

(** C10 on a tool_use message: its payload fields come out unchanged. *)
Lemma enrichMessage_frame_witness :
  (<["name" := JStr "calculator"]> (object_of_type "tool_use")) !! "type"
  = Some (JStr "tool_use")
  /\ "tool_use" ∈ VALID_MESSAGE_TYPES
  /\ exists out : gmap string json,
       SandboxTransport_enrichMessage sample_stringify idle_transport
         "uuid-1" "session_9"
         (JObj (<["name" := JStr "calculator"]> (object_of_type "tool_use")))
       = Ok (JObj out)
       /\ out !! "name" = Some (JStr "calculator").
Proof.
  assert (Hty : (<["name" := JStr "calculator"]> (object_of_type "tool_use"))
                !! "type" = Some (JStr "tool_use")) by reflexivity.
  split; [exact Hty|].
  split; [apply recognised_type; reflexivity|].
  destruct (enrichMessage_frame sample_stringify idle_transport
              "uuid-1" "session_9"
              (<["name" := JStr "calculator"]> (object_of_type "tool_use"))
              "tool_use" Hty (recognised_type "tool_use" eq_refl))
    as (out & Hout & Hframe & _).
  exists out. split; [exact Hout|].
  rewrite Hframe; [reflexivity | discriminate | discriminate | discriminate
                  | intros [H|H]; discriminate | discriminate | discriminate].
Defined.

(** C8 on a fully populated assistant message. *)
Lemma enrichMessage_keeps_identity_witness :
  exists message : gmap string json,
    message !! "type" = Some (JStr "assistant")
    /\ "assistant" ∈ VALID_MESSAGE_TYPES
    /\ message !! "uuid" = Some (JStr "existing-uuid")
    /\ message !! "session_id" = Some (JStr "existing-session")
    /\ message !! "parent_tool_use_id" = Some (JStr "tool-123")
    /\ QueryImpl_enrichMessage (this (fresh_world args_default)) "uuid-1"
         message = message.
Proof.
  exists (<["parent_tool_use_id" := JStr "tool-123"]>
          (<["session_id" := JStr "existing-session"]>
          (<["uuid" := JStr "existing-uuid"]> (object_of_type "assistant")))).
  assert (Hin : "assistant" ∈ VALID_MESSAGE_TYPES)
    by (apply recognised_type; reflexivity).
  repeat (split; [first [reflexivity | exact Hin]|]).
  refine (proj1 (proj2 (enrichMessage_keeps_identity sample_stringify
            idle_transport (this (fresh_world args_default)) "uuid-1" "session_9"
            _ "assistant" "existing-uuid" "existing-session" "tool-123"
            _ Hin _ _ _)) _ _);
    first [reflexivity | discriminate].
Defined.

(** C9 on the line [{ type: 42 }]: [parseLine] returns the object and the
    transport refuses it. *)
Lemma parseLine_accepts_any_type_value_witness :
  sample_trim line_type_42 <> EmptyString
  /\ sample_parse (sample_trim line_type_42) = Ok (JObj object_type_42)
  /\ object_type_42 !! "type" = Some (JNum 42)
  /\ parseLine sample_parse sample_trim line_type_42
     = Ok (Some (JObj object_type_42))
  /\ SandboxTransport_enrichMessage sample_stringify idle_transport
       "uuid-1" "session_9" (JObj object_type_42)
     = Throw (mkParseError
                "Invalid message structure: missing or invalid 'type' field"
                (Some "{...}") None).
Proof.
  assert (H1 : sample_trim line_type_42 <> EmptyString) by discriminate.
  assert (H2 : sample_parse (sample_trim line_type_42)
               = Ok (JObj object_type_42)) by reflexivity.
  assert (H3 : object_type_42 !! "type" = Some (JNum 42)) by reflexivity.
  destruct (parseLine_accepts_any_type_value sample_stringify sample_parse
              sample_trim line_type_42 object_type_42 (JNum 42) H1 H2 H3)
    as [Hparse Hgate].
  repeat (split; [assumption|]).
  apply Hgate. intros t Ht. discriminate.
Defined.

Lemma sample_entries_are_lines :
  Forall (fun e => ndjson_line sample_parse sample_trim e.1 e.2) sample_entries.
Proof.
  unfold sample_entries.
  constructor; [|constructor; [|constructor; [|constructor]]]; simpl.
  - apply message_line;
      [reflexivity | discriminate | reflexivity | eexists; reflexivity].
  - apply blank_line; reflexivity.
  - apply message_line;
      [reflexivity | discriminate | reflexivity | eexists; reflexivity].
Defined.

(** C3 on the sample stream: two messages around a blank line, cut in the
    middle of both, the last line without a trailing newline. *)
Lemma parseNDJSONStream_reassembles_witness :
  sample_entries <> []
  /\ Forall (fun e => ndjson_line sample_parse sample_trim e.1 e.2)
       sample_entries
  /\ text_of sample_chunks = String.concat nl (map fst sample_entries)
  /\ parseNDJSONStream sample_parse sample_trim sample_chunks
     = ([JObj (object_of_type "result"); JObj (object_of_type "assistant")],
        None).
Proof.
  assert (H1 : sample_entries <> []) by discriminate.
  assert (H3 : text_of sample_chunks
               = String.concat nl (map fst sample_entries)) by reflexivity.
  split; [exact H1|]. split; [exact sample_entries_are_lines|].
  split; [exact H3|].
  exact (parseNDJSONStream_reassembles sample_parse sample_trim
           sample_entries sample_chunks H1 sample_entries_are_lines H3).
Defined.

(** C4 on a run without tools and a limit of five turns. *)
Lemma turn_loop_turn_count_witness :
  (nullish (option_tools (sample_run (Some 5%Z) true)) [] = []
   \/ option_maxTurns (sample_run (Some 5%Z) true) = Some 1%Z)
  /\ turns_performed
       (run_turn_loop sample_stringify sample_extractText sample_requests
          (sample_run (Some 5%Z) true) (connected_world args_default)).2
     = 1.
Proof.
  assert (H : nullish (option_tools (sample_run (Some 5%Z) true)) [] = []
              \/ option_maxTurns (sample_run (Some 5%Z) true) = Some 1%Z)
    by (left; reflexivity).
  split; [exact H|].
  destruct (turn_loop_turn_count sample_stringify sample_extractText
              sample_requests (sample_run (Some 5%Z) true)
              (connected_world args_default) H) as (_ & _ & Hexact).
  apply Hexact; [reflexivity | simpl; lia | reflexivity].
Defined.

(** C7 on a connected transport with a teardown hook that throws: the
    world after the teardown still holds the live sandbox and no call of
    [close] or [stop] was made. *)
Lemma teardown_hook_failure_skips_close_witness :
  onTeardown (hooks (this (connected_world args_failing_hook)))
  = Some failing_hook
  /\ isConnected (transport (this (connected_world args_failing_hook))) = true
  /\ sandbox (transport (this (connected_world args_failing_hook)))
     = Some live_sandbox
  /\ handleTeardownAndLifecycle 100 101 true None
       (connected_world args_failing_hook)
     = (Ok tt,
        mkWorld (this (connected_world args_failing_hook))
          [EvTeardownHook (mkQueryResultInfo true None 100 0);
           EvConsoleError "[claude-agent-sdk] Teardown error:"]).
Proof.
  repeat (split; [reflexivity|]).
  exact (teardown_hook_failure_skips_close (connected_world args_failing_hook)
           failing_hook live_sandbox (ThrownError "Error" "cleanup failed")
           100 101 true None eq_refl eq_refl eq_refl eq_refl).
Defined.

(** C4 as stated fails: with no tools and [maxTurns: 0] the guard
    [turn < maxTurns] is false at once and no turn is performed, where the
    claim asks for exactly one turn regardless of [maxTurns]. *)
Lemma turn_loop_zero_maxTurns_counterexample :
  nullish (option_tools (sample_run (Some 0%Z) true)) [] = []
  /\ isInterrupted (this (connected_world args_default)) = false
  /\ turns_performed
       (run_turn_loop sample_stringify sample_extractText sample_requests
          (sample_run (Some 0%Z) true) (connected_world args_default)).2
     = 0
  /\ ~ (forall (io : RunIO) (w : World),
          nullish (option_tools io) [] = [] ->
          turns_performed
            (run_turn_loop sample_stringify sample_extractText sample_requests
               io w).2
          = turns_performed w + 1).
Proof.
  split; [reflexivity|]. split; [reflexivity|]. split; [reflexivity|].
  intros Hall.
  specialize (Hall (sample_run (Some 0%Z) true) (connected_world args_default)
                eq_refl).
  vm_compute in Hall. discriminate.
Qed.

(** The whole run with [maxTurns: 0]: it succeeds, it reports no turn, and
    the only messages yielded are the two synthetic system messages. *)
Example run_zero_maxTurns :
  (sample_QueryImpl_run (sample_run (Some 0%Z) true) args_plain).1
  = Ok (Some 0%Z)
  /\ turns_performed
       (sample_QueryImpl_run (sample_run (Some 0%Z) true) args_plain).2 = 0
  /\ length (messages (this
       (sample_QueryImpl_run (sample_run (Some 0%Z) true) args_plain).2)) = 2.
Proof. repeat split; vm_compute; reflexivity. Qed.

(** C6 as stated fails: with advanced options of mode [always] the policy
    asks for a snapshot, but a run whose connect fails for want of a
    credential leaves the transport unconnected, and the snapshot step
    returns before the policy is even read: no snapshot is created. *)
Lemma snapshot_policy_counterexample :
  (sample_QueryImpl_run (sample_run None false) args_always).1
  = Throw (ThrownError "AuthenticationError"
      "Authentication required: set ANTHROPIC_API_KEY or CLAUDE_CODE_OAUTH_TOKEN")
  /\ snapshot_policy (arg_snapshot args_always)
       (nullish (arg_snapshotEnabled args_always) true) false
  /\ ~ snapshot_created
         (trace (sample_QueryImpl_run (sample_run None false) args_always).2).
Proof.
  split; [vm_compute; reflexivity|].
  split; [left; reflexivity|].
  intros (sb & id & Hin). vm_compute in Hin.
  destruct Hin as [H|[]]. discriminate.
Qed.

(** The same configuration on a run that connects: the snapshot is taken. *)
Example run_snapshot_always :
  snapshot_created
    (trace (sample_QueryImpl_run (sample_run None true) args_always).2).
Proof.
  exists "sbx_1", "snap_1". vm_compute. do 4 right. left. reflexivity.
Qed.

(** C8 as stated fails for the orchestrator: a message whose [uuid] is the
    empty string passes the transport unchanged (there the test is
    [typeof]), and the orchestrator, which tests truthiness, replaces the
    empty [uuid] by a generated one. *)
Lemma orchestrator_replaces_empty_uuid_counterexample :
  raw_empty_uuid !! "type" = Some (JStr "system")
  /\ raw_empty_uuid !! "uuid" = Some (JStr "")
  /\ raw_empty_uuid !! "session_id" = Some (JStr "session_1")
  /\ raw_empty_uuid !! "parent_tool_use_id" = Some (JStr "tool-1")
  /\ SandboxTransport_enrichMessage sample_stringify connected_transport
       "uuid-1" "session_9" (JObj raw_empty_uuid)
     = Ok (JObj raw_empty_uuid)
  /\ QueryImpl_enrichMessage (this (fresh_world args_default)) "uuid-2"
       raw_empty_uuid !! "uuid"
     = Some (JStr "uuid-2")
  /\ QueryImpl_enrichMessage (this (fresh_world args_default)) "uuid-2"
       raw_empty_uuid !! "uuid"
     <> raw_empty_uuid !! "uuid".
Proof.
  repeat (split; [vm_compute; reflexivity|]).
  vm_compute. discriminate.
Qed.

(** C7 on a whole run: the run itself succeeds, the teardown hook throws,
    and at the end the transport still holds the live sandbox, still
    connected; neither [close] nor [stop] was called. *)
Example run_with_failing_teardown_hook :
  (sample_QueryImpl_run (sample_run None true) args_failing_hook).1
  = Ok (Some 1%Z)
  /\ sandbox (transport (this
       (sample_QueryImpl_run (sample_run None true) args_failing_hook).2))
     = Some live_sandbox
  /\ isConnected (transport (this
       (sample_QueryImpl_run (sample_run None true) args_failing_hook).2))
     = true
  /\ List.filter
       (fun e => match e with EvClose | EvStop _ => true | _ => false end)
       (trace (sample_QueryImpl_run (sample_run None true)
                 args_failing_hook).2)
     = [].
Proof. repeat split; vm_compute; reflexivity. Qed.

(** The same run without the hook: [close] is called and stops the
    sandbox, exactly once. *)
Example run_without_teardown_hook :
  sandbox (transport (this
    (sample_QueryImpl_run (sample_run None true) args_plain).2)) = None
  /\ List.filter
       (fun e => match e with EvClose | EvStop _ => true | _ => false end)
       (trace (sample_QueryImpl_run (sample_run None true) args_plain).2)
     = [EvClose; EvStop "sbx_1"].
Proof. repeat split; vm_compute; reflexivity. Qed.

(* ===================================================================== *)
(** * 7. Further properties                                               *)
(* ===================================================================== *)

(* --------------------------------------------------------------------- *)
(** ** Error wrapping                                                     *)
(* --------------------------------------------------------------------- *)

Lemma wrapError_sdk (e : thrown) (d : string) :
  exists name message,
    wrapError e d = ThrownError name message /\ name ∈ SDK_ERROR_CLASSES.
Proof.
  destruct e as [name message | name message | v]; simpl.
  - destruct (bool_decide (name ∈ SDK_ERROR_CLASSES)) eqn:E.
    + apply bool_decide_eq_true_1 in E. eauto.
    + eexists _, _. split; [reflexivity|].
      unfold SDK_ERROR_CLASSES. apply list_elem_of_here.
  - eexists _, _. split; [reflexivity|].
    unfold SDK_ERROR_CLASSES. apply list_elem_of_here.
  - eexists _, _. split; [reflexivity|].
    unfold SDK_ERROR_CLASSES. apply list_elem_of_here.
Qed.

(** X1.  [wrapError] always gives an error of a class of
    [types/errors.ts].  An instance of one of these classes comes back
    unchanged.  Any other [Error] with a non-empty message becomes an
    [SDKError] with that same message: an instance of a JavaScript class,
    and also an instance of a caller's own class, even one that bears the
    name of a class of [types/errors.ts]; with an empty message, and for a
    thrown value that is no [Error], the [SDKError] carries the default
    message.  Wrapping a second time, with whatever default message,
    changes nothing. *)
Theorem wrapError_normalises (e : thrown) (d d' : string) :
  (exists name message,
     wrapError e d = ThrownError name message /\ name ∈ SDK_ERROR_CLASSES)
  /\ (forall name message,
        e = ThrownError name message -> name ∈ SDK_ERROR_CLASSES ->
        wrapError e d = e)
  /\ (forall name message,
        (e = ThrownError name message /\ name ∉ SDK_ERROR_CLASSES)
        \/ e = ThrownForeign name message ->
        wrapError e d
        = ThrownError "SDKError"
            (if String.eqb message "" then d else message))
  /\ (forall v, e = ThrownValue v -> wrapError e d = ThrownError "SDKError" d)
  /\ wrapError (wrapError e d) d' = wrapError e d.
Proof.
  split; [apply wrapError_sdk|]. split; [|split; [|split]].
  - intros name message -> Hin. simpl.
    rewrite bool_decide_eq_true_2 by exact Hin. reflexivity.
  - intros name message [[-> Hnin] | ->]; simpl; [|reflexivity].
    rewrite bool_decide_eq_false_2 by exact Hnin. reflexivity.
  - intros v ->. reflexivity.
  - destruct (wrapError_sdk e d) as (name & message & -> & Hin). simpl.
    rewrite bool_decide_eq_true_2 by exact Hin. reflexivity.
Qed.

(* --------------------------------------------------------------------- *)
(** ** The NDJSON parser: what it accepts, where it stops, round trip     *)
(* --------------------------------------------------------------------- *)

Lemma text_of_app (xs ys : list string) :
  text_of (xs ++ ys) = text_of xs +:+ text_of ys.
Proof.
  induction xs as [|x xs IH]; [reflexivity|].
  simpl. rewrite IH, append_assoc. reflexivity.
Qed.

Lemma concat_nl_app (xs ys : list string) :
  xs <> [] -> ys <> [] ->
  String.concat nl (xs ++ ys)
  = String.concat nl xs +:+ nl +:+ String.concat nl ys.
Proof.
  induction xs as [|x xs IH]; [congruence|]. intros _ Hys.
  destruct xs as [|x' xs].
  - destruct ys as [|y ys]; [congruence|]. reflexivity.
  - change (String.concat nl ((x :: x' :: xs) ++ ys))
      with (x +:+ nl +:+ String.concat nl ((x' :: xs) ++ ys)).
    rewrite IH by (discriminate || assumption).
    change (String.concat nl (x :: x' :: xs))
      with (x +:+ nl +:+ String.concat nl (x' :: xs)).
    rewrite !append_assoc. reflexivity.
Qed.

Section MoreParserProperties.

Variable JSON_stringify : json -> string.
Variable JSON_parse : string -> result string json.
Variable trim : string -> string.

(** X2.  [parseLine] returns null exactly for the lines that are empty
    after trimming, and it returns a message exactly when the trimmed line
    is not empty and parses to an object that has a [type] key; the message
    is then the parsed object itself.  In every other case it throws. *)
Theorem parseLine_returns_iff (line : string) (v : json) :
  (parseLine JSON_parse trim line = Ok None <-> trim line = EmptyString)
  /\ (parseLine JSON_parse trim line = Ok (Some v)
      <-> trim line <> EmptyString
          /\ JSON_parse (trim line) = Ok v
          /\ exists fields, v = JObj fields /\ is_Some (fields !! "type")).
Proof.
  unfold parseLine.
  destruct (String.eqb (trim line) "") eqn:Hblank.
  - apply String.eqb_eq in Hblank. split.
    + split; auto.
    + split; [discriminate | intros [H _]; congruence].
  - apply String.eqb_neq in Hblank.
    destruct (JSON_parse (trim line)) as [parsed | message] eqn:Hparse.
    + destruct parsed as [| b | n | s | xs | fields]; simpl;
        try (split; split; try discriminate; try congruence;
             intros (_ & Hv & fields & -> & _); discriminate).
      unfold has_key. simpl.
      destruct (fields !! "type") as [x|] eqn:Hty; simpl.
      * split; [split; [discriminate | congruence]|].
        split.
        -- intros H. injection H as <-. repeat split; eauto.
        -- intros (_ & Hv & _). congruence.
      * split; [split; [discriminate | congruence]|].
        split; [discriminate|].
        intros (_ & Hv & fields' & -> & [y Hy]).
        injection Hv as <-. congruence.
    + split; split; try discriminate; try congruence.
      intros (_ & Hv & _). discriminate.
Qed.

(** X3.  What [parseNDJSONStream] yields, and the error it ends with if
    any, depend only on the text the chunks carry together: two ways of
    cutting the same text into chunks give the same run, which is also the
    run of [parseNDJSONString] on that text. *)
Theorem parseNDJSONStream_chunking_independent (chunks chunks' : list string) :
  text_of chunks = text_of chunks' ->
  parseNDJSONStream JSON_parse trim chunks
  = parseNDJSONStream JSON_parse trim chunks'
  /\ parseNDJSONStream JSON_parse trim chunks
     = parseNDJSONString JSON_parse trim (text_of chunks').
Proof.
  intros Htext.
  rewrite !parseNDJSONStream_as_string, Htext. split; reflexivity.
Qed.

(** X4.  The parser stops at the first line it cannot accept: when valid
    or blank lines are followed by a line on which [parseLine] throws, the
    stream yields the messages of the lines before it, in order, then
    throws that line's error; whatever follows the bad line is not
    looked at. *)
Theorem parseNDJSONStream_stops_at_first_error
    (good : list (string * option json)) (bad : string) (e : ParseError)
    (rest : list string) (chunks : list string) :
  Forall (fun g => ndjson_line JSON_parse trim g.1 g.2) good ->
  no_newline bad = true ->
  parseLine JSON_parse trim bad = Throw e ->
  Forall (fun l => no_newline l = true) rest ->
  text_of chunks = String.concat nl (map fst good ++ bad :: rest) ->
  parseNDJSONStream JSON_parse trim chunks = (omap snd good, Some e).
Proof.
  intros Hgood Hbadnl Hbad Hrest Htext.
  rewrite parseNDJSONStream_as_string. unfold parseNDJSONString.
  rewrite Htext, split_lines_join.
  - rewrite yield_lines_app, yield_lines_entries by assumption.
    simpl. rewrite Hbad. rewrite app_nil_r. reflexivity.
  - destruct (map fst good); discriminate.
  - apply Forall_app. split.
    + apply Forall_map. eapply Forall_impl; [exact Hgood|].
      intros [l m] H; simpl in *. destruct H; assumption.
    + constructor; assumption.
Qed.

(** The text of serialized messages is their JSON texts, one per line,
    with an empty last line. *)
Lemma text_of_serialized (ms : list (gmap string json)) :
  text_of (map (serializeMessage JSON_stringify) ms)
  = String.concat nl
      (map (fun m => JSON_stringify (JObj m)) ms ++ [EmptyString]).
Proof.
  induction ms as [|m ms IH]; [reflexivity|].
  simpl map. simpl text_of. rewrite IH. unfold serializeMessage.
  rewrite append_assoc.
  destruct ms as [|m' ms]; reflexivity.
Qed.

(** X5.  Round trip.  Take messages that each have a [type] key and whose
    JSON text is a single line that [JSON.parse] reads back to the same
    object.  Writing them with [serializeMessage], one after the other,
    and reading the result with [parseNDJSONStream], however the text is
    cut into chunks, yields the same messages in the same order and no
    error. *)
Theorem serialize_parse_round_trip
    (ms : list (gmap string json)) (chunks : list string) :
  trim EmptyString = EmptyString ->
  Forall (fun m =>
            no_newline (JSON_stringify (JObj m)) = true
            /\ trim (JSON_stringify (JObj m)) <> EmptyString
            /\ JSON_parse (trim (JSON_stringify (JObj m))) = Ok (JObj m)
            /\ is_Some (m !! "type")) ms ->
  text_of chunks = text_of (map (serializeMessage JSON_stringify) ms) ->
  parseNDJSONStream JSON_parse trim chunks = (map JObj ms, None).
Proof.
  intros Hempty Hall Htext.
  rewrite parseNDJSONStream_as_string. unfold parseNDJSONString.
  rewrite Htext, text_of_serialized.
  pose (entries := map (fun m => (JSON_stringify (JObj m), Some (JObj m))) ms
                   ++ [(EmptyString, None)]).
  assert (Hfst : map fst entries
                 = map (fun m => JSON_stringify (JObj m)) ms ++ [EmptyString]).
  { unfold entries. rewrite map_app, map_map. reflexivity. }
  assert (Hsnd : omap snd entries = map JObj ms).
  { unfold entries. clear. induction ms as [|m ms IH]; [reflexivity|].
    simpl. f_equal. exact IH. }
  assert (Hlines : Forall (fun g => ndjson_line JSON_parse trim g.1 g.2) entries).
  { unfold entries. apply Forall_app. split.
    - apply Forall_map. eapply Forall_impl; [exact Hall|].
      intros m (H1 & H2 & H3 & H4). simpl. apply message_line; assumption.
    - constructor; [|constructor]. apply blank_line; [reflexivity | exact Hempty]. }
  rewrite <- Hfst, split_lines_join.
  - rewrite yield_lines_entries by exact Hlines. rewrite Hsnd. reflexivity.
  - rewrite Hfst. intros H. apply app_eq_nil in H as [_ H]. discriminate.
  - apply Forall_map. eapply Forall_impl; [exact Hlines|].
    intros [l m] H; simpl in *. destruct H; assumption.
Qed.

End MoreParserProperties.

(* --------------------------------------------------------------------- *)
(** ** The live session stream                                            *)
(* --------------------------------------------------------------------- *)

Section LiveSessionProperties.

Variable JSON_stringify : json -> string.
Variable JSON_parse : string -> result string json.
Variable trim : string -> string.

Lemma live_lines_app this gen sid (xs ys : list string) (n : nat) :
  live_lines JSON_stringify JSON_parse trim this gen sid n (xs ++ ys)
  = live_lines JSON_stringify JSON_parse trim this gen sid n xs
    ++ live_lines JSON_stringify JSON_parse trim this gen sid
         (n + length (live_lines JSON_stringify JSON_parse trim this gen sid
                        n xs))
         ys.
Proof.
  revert n. induction xs as [|x xs IH]; intros n; simpl.
  - rewrite Nat.add_0_r. reflexivity.
  - destruct (live_line JSON_stringify JSON_parse trim this (gen n) sid x);
      simpl.
    + rewrite IH. do 3 f_equal. lia.
    + apply IH.
Qed.

(** The invariant of the log loop: what was yielded so far, followed by
    what the buffer will still give, is what the lines of the whole stdout
    text give. *)
Lemma live_logs_whole this gen sid (logs : list LogEvent) (buffer : string)
    (n : nat) :
  no_newline buffer = true ->
  (live_logs JSON_stringify JSON_parse trim this gen sid buffer n logs).1
  ++ live_lines JSON_stringify JSON_parse trim this gen sid
       (n + length (live_logs JSON_stringify JSON_parse trim this gen sid
                      buffer n logs).1)
       [(live_logs JSON_stringify JSON_parse trim this gen sid buffer n logs).2]
  = live_lines JSON_stringify JSON_parse trim this gen sid n
      (split_lines (buffer +:+ stdout_text logs)).
Proof.
  revert buffer n. induction logs as [|[data|data] rest IH]; intros buffer n Hb.
  - simpl live_logs. simpl stdout_text. rewrite append_empty_r.
    rewrite (split_lines_single buffer Hb). cbn [fst snd length app].
    rewrite Nat.add_0_r. reflexivity.
  - cbn [live_logs stdout_text].
    pose proof (IH (List.last (split_lines (buffer +:+ data)) EmptyString)
                  (n + length
                         (live_lines JSON_stringify JSON_parse trim this gen
                            sid n
                            (removelast (split_lines (buffer +:+ data)))))
                  (last_no_newline _)) as IH'.
    destruct (live_logs JSON_stringify JSON_parse trim this gen sid
                (List.last (split_lines (buffer +:+ data)) EmptyString)
                (n + length
                       (live_lines JSON_stringify JSON_parse trim this gen
                          sid n
                          (removelast (split_lines (buffer +:+ data)))))
                rest) as [later b] eqn:E.
    cbn [fst snd] in *.
    rewrite <- append_assoc.
    rewrite (split_lines_app (buffer +:+ data) (stdout_text rest)).
    rewrite live_lines_app, <- IH'.
    rewrite <- app_assoc, length_app, Nat.add_assoc. reflexivity.
  - cbn [live_logs stdout_text]. apply IH, Hb.
Qed.

Lemma live_stream_whole this gen sid (logs : list LogEvent) :
  live_stream JSON_stringify JSON_parse trim this gen sid logs
  = live_lines JSON_stringify JSON_parse trim this gen sid 0
      (split_lines (stdout_text logs)).
Proof.
  unfold live_stream.
  pose proof (live_logs_whole this gen sid logs EmptyString 0 eq_refl) as H.
  destruct (live_logs JSON_stringify JSON_parse trim this gen sid
              EmptyString 0 logs) as [ys b].
  exact H.
Qed.

(** X6.  The messages a live session yields depend on the stdout text
    only: however the sandbox cuts stdout into log events, and whatever it
    writes to stderr in between, the session yields what the lines of the
    whole stdout text give, one by one. *)
Theorem live_stream_depends_on_stdout_text this gen sid
    (logs logs' : list LogEvent) :
  stdout_text logs = stdout_text logs' ->
  live_stream JSON_stringify JSON_parse trim this gen sid logs
  = live_stream JSON_stringify JSON_parse trim this gen sid logs'
  /\ live_stream JSON_stringify JSON_parse trim this gen sid logs
     = live_lines JSON_stringify JSON_parse trim this gen sid 0
         (split_lines (stdout_text logs)).
Proof.
  intros H. rewrite !live_stream_whole, H. split; reflexivity.
Qed.

Lemma live_line_junk this uuid sid (line : string) :
  junk_line JSON_parse trim line ->
  live_line JSON_stringify JSON_parse trim this uuid sid line = None.
Proof.
  unfold live_line. intros [H|[[e H]|(raw & H & Hbad)]].
  - rewrite H. reflexivity.
  - rewrite H. destruct (String.eqb (trim line) ""); reflexivity.
  - rewrite H. unfold SandboxTransport_enrichMessage. rewrite Hbad. simpl.
    destruct (String.eqb (trim line) ""); reflexivity.
Qed.

(** X7.  A line that is blank, is not JSON, or is JSON the structural gate
    refuses never ends or alters a live session: with such a line added
    anywhere in the stdout text the session yields exactly what it yields
    without it. *)
Theorem live_stream_passes_over_junk this gen sid
    (before after : list string) (junk : string) (logs logs' : list LogEvent) :
  Forall (fun l => no_newline l = true) (before ++ junk :: after) ->
  after <> [] ->
  junk_line JSON_parse trim junk ->
  stdout_text logs = String.concat nl (before ++ junk :: after) ->
  stdout_text logs' = String.concat nl (before ++ after) ->
  live_stream JSON_stringify JSON_parse trim this gen sid logs
  = live_stream JSON_stringify JSON_parse trim this gen sid logs'.
Proof.
  intros Hnl Hafter Hjunk Hlogs Hlogs'.
  rewrite !live_stream_whole, Hlogs, Hlogs'.
  rewrite !split_lines_join.
  - rewrite !live_lines_app. f_equal. cbn [live_lines].
    rewrite (live_line_junk _ _ _ _ Hjunk). reflexivity.
  - intros H. apply app_eq_nil in H as [_ H]. contradiction.
  - apply Forall_app in Hnl as [Hb Ha]. apply Forall_app. split; [exact Hb|].
    inversion Ha; assumption.
  - intros H. apply app_eq_nil in H as [_ H]. discriminate.
  - exact Hnl.
Qed.

Lemma enrichMessage_identified this uuid sid (raw message : json) :
  SandboxTransport_enrichMessage JSON_stringify this uuid sid raw = Ok message ->
  identified message.
Proof.
  unfold SandboxTransport_enrichMessage.
  destruct (isValidMessageStructure raw) eqn:Hv; [|discriminate]. simpl.
  destruct (isValidMessageStructure_inv raw Hv) as (fields & t & -> & Hty & Hin).
  simpl. rewrite with_identity_other by discriminate. rewrite Hty.
  intros [= <-]. exists (with_type_defaults t (with_identity this uuid sid fields)), t.
  split; [reflexivity|].
  split.
  { rewrite with_type_defaults_other.
    - rewrite with_identity_other by discriminate. exact Hty.
    - intros _; discriminate.
    - intros _; discriminate.
    - intros _; discriminate. }
  split; [exact Hin|].
  rewrite !with_type_defaults_identity by auto.
  split; [|split].
  - rewrite with_identity_uuid.
    destruct (string_or_cases (fields !! "uuid") (JStr uuid))
      as [(s & _ & ->)|(_ & ->)]; eexists; reflexivity.
  - rewrite with_identity_session.
    destruct (string_or_cases (fields !! "session_id")
                (JStr (session_or (currentSessionId this) sid)))
      as [(s & _ & ->)|(_ & ->)]; eexists; reflexivity.
  - rewrite with_identity_parent.
    destruct (string_or_cases (fields !! "parent_tool_use_id") JNull)
      as [(s & _ & ->)|(_ & ->)];
      [right; eexists; reflexivity | left; reflexivity].
Qed.

Lemma live_lines_identified this gen sid (lines : list string) (n : nat) :
  Forall identified
    (live_lines JSON_stringify JSON_parse trim this gen sid n lines).
Proof.
  revert n. induction lines as [|l lines IH]; intros n; simpl; [constructor|].
  destruct (live_line JSON_stringify JSON_parse trim this (gen n) sid l)
    as [m|] eqn:E; [|apply IH].
  constructor; [|apply IH].
  unfold live_line in E.
  destruct (String.eqb (trim l) ""); [discriminate|].
  destruct (JSON_parse l) as [raw|e]; [|discriminate].
  destruct (SandboxTransport_enrichMessage JSON_stringify this (gen n) sid raw)
    as [m'|e] eqn:E'; [|discriminate].
  injection E as <-. eapply enrichMessage_identified, E'.
Qed.

(** X8.  Whatever the sandbox writes, every message a live session yields
    has passed the structural gate and carries its base fields: it is an
    object of a recognised type with a string [uuid], a string
    [session_id] and a [parent_tool_use_id] that is a string or null; and
    the session yields at most one message per line of stdout. *)
Theorem live_stream_yields_identified this gen sid (logs : list LogEvent) :
  Forall identified
    (live_stream JSON_stringify JSON_parse trim this gen sid logs)
  /\ length (live_stream JSON_stringify JSON_parse trim this gen sid logs)
     <= length (split_lines (stdout_text logs)).
Proof.
  rewrite live_stream_whole. split; [apply live_lines_identified|].
  generalize (split_lines (stdout_text logs)) 0.
  intros lines. induction lines as [|l lines IH]; intros n; simpl; [lia|].
  destruct (live_line JSON_stringify JSON_parse trim this (gen n) sid l);
    simpl; [specialize (IH (S n))|specialize (IH n)]; lia.
Qed.

End LiveSessionProperties.
(* --------------------------------------------------------------------- *)
(** ** How a session ends                                                 *)
(* --------------------------------------------------------------------- *)

Ltac sdk_class := apply (bool_decide_unpack _); vm_compute; exact I.

Lemma execution_or_sandbox_error_sdk (name message : string) :
  execution_or_sandbox_error (ThrownError name message) = true ->
  name ∈ SDK_ERROR_CLASSES.
Proof.
  simpl. intros H. apply bool_decide_eq_true_1 in H.
  repeat (apply elem_of_cons in H as [->|H]; [sdk_class|]).
  inversion H.
Qed.

Lemma startSession_catch_throws (io : SessionIO) (error : thrown) :
  exists name message,
    startSession_catch io error = Throw (ThrownError name message)
    /\ name ∈ SDK_ERROR_CLASSES
    /\ (signal_aborted io = true -> name = "AbortError").
Proof.
  unfold startSession_catch. destruct (signal_aborted io).
  - eexists _, _. split; [reflexivity|]. split; [|reflexivity].
    sdk_class.
  - destruct (execution_or_sandbox_error error) eqn:E.
    + destruct error as [name message|name message|v]; try discriminate.
      exists name, message. split; [reflexivity|].
      split; [eapply execution_or_sandbox_error_sdk, E|discriminate].
    + destruct (wrapError_sdk error "Failed to execute Claude CLI")
        as (name & message & -> & Hin).
      exists name, message. split; [reflexivity|]. split; [exact Hin|discriminate].
Qed.

Lemma try_catch_startSession_ok (io : SessionIO) (outcome : result thrown unit) :
  try_catch outcome (startSession_catch io) = Ok tt <-> outcome = Ok tt.
Proof.
  destruct outcome as [[]|e]; simpl; [tauto|].
  destruct (startSession_catch_throws io e) as (name & message & -> & _).
  split; discriminate.
Qed.

Section SessionOutcome.

Variable JSON_stringify : json -> string.
Variable JSON_parse : string -> result string json.
Variable trim : string -> string.

(** X9.  [startSession] ends without an error exactly when the transport
    holds a connected sandbox, a credential is available, the version
    check and the start of the CLI succeed, the log stream ends normally
    and the CLI exits with code 0.  It has then yielded the messages of
    the whole log stream, enriched under the session id it generated at
    the start, and that id is the transport's current session id. *)
Theorem startSession_returns_iff (io : SessionIO) (t : SandboxTransport) :
  let '(yielded, outcome, t') :=
    SandboxTransport_startSession JSON_stringify JSON_parse trim io t in
  (outcome = Ok tt
   <-> is_Some (sandbox t) /\ isConnected t = true
       /\ credentials_available (session_auth io) = true
       /\ versionCheck io = Ok tt /\ runCommand_detached io = Ok tt
       /\ logs_outcome io = Ok tt
       /\ exists finished, command_wait io = Ok finished
                           /\ exitCode finished = 0%Z)
  /\ (outcome = Ok tt ->
      currentSessionId t' = Some (generateSessionId io)
      /\ sandbox t' = sandbox t
      /\ yielded
         = live_stream JSON_stringify JSON_parse trim t'
             (session_generateUuid io) (generateSessionId_later io)
             (command_logs io)).
Proof.
  unfold SandboxTransport_startSession.
  destruct (sandbox t) as [sb|] eqn:Hsb; simpl.
  2:{ split; [|discriminate]. split; [discriminate|].
      intros ([? ?] & _). discriminate. }
  rewrite ?bool_decide_eq_true_2 by eauto. simpl.
  destruct (isConnected t) eqn:Hc; simpl.
  2:{ split; [|discriminate]. split; [discriminate|].
      intros (_ & ? & _). discriminate. }
  destruct (credentials_available (session_auth io)) eqn:Ha; simpl.
  2:{ split; [|discriminate]. split; [discriminate|].
      intros (_ & _ & ? & _). discriminate. }
  destruct (startSession_body JSON_stringify JSON_parse trim io _)
    as [yielded outcome] eqn:Hbody.
  rewrite try_catch_startSession_ok.
  unfold startSession_body in Hbody.
  destruct (versionCheck io) as [[]|e] eqn:Hv.
  2:{ injection Hbody as <- <-. split; [|discriminate]. split; [discriminate|].
      intros (_ & _ & _ & ? & _). discriminate. }
  destruct (runCommand_detached io) as [[]|e] eqn:Hr.
  2:{ injection Hbody as <- <-. split; [|discriminate]. split; [discriminate|].
      intros (_ & _ & _ & _ & ? & _). discriminate. }
  destruct (logs_outcome io) as [[]|e] eqn:Hl.
  2:{ injection Hbody as <- <-. split; [|discriminate]. split; [discriminate|].
      intros (_ & _ & _ & _ & _ & ? & _). discriminate. }
  destruct (command_wait io) as [finished|e] eqn:Hw.
  2:{ injection Hbody as <- <-. split; [|discriminate]. split; [discriminate|].
      intros (_ & _ & _ & _ & _ & _ & f & ? & _). discriminate. }
  destruct (exitCode finished =? 0)%Z eqn:Hx; simpl in Hbody;
    injection Hbody as <- <-.
  - apply Z.eqb_eq in Hx. split; [|auto].
    split; [|reflexivity]. intros _. repeat split; eauto.
  - apply Z.eqb_neq in Hx. split; [|discriminate]. split; [discriminate|].
    intros (_ & _ & _ & _ & _ & _ & f & [= <-] & ?). contradiction.
Qed.

(** X10.  Whatever goes wrong, [startSession] throws an error of an
    [SDKError] class.  Without a connected sandbox it throws before
    yielding anything and leaves the transport as it was; and once the
    session has started, a failure seen while the abort signal is set is
    reported as an [AbortError], whatever the failure was. *)
Theorem startSession_throws_sdk_errors (io : SessionIO) (t : SandboxTransport) :
  let '(yielded, outcome, t') :=
    SandboxTransport_startSession JSON_stringify JSON_parse trim io t in
  (forall e, outcome = Throw e ->
     exists name message,
       e = ThrownError name message /\ name ∈ SDK_ERROR_CLASSES
       /\ (signal_aborted io = true ->
           is_Some (sandbox t) -> isConnected t = true ->
           credentials_available (session_auth io) = true ->
           name = "AbortError"))
  /\ (sandbox t = None \/ isConnected t = false ->
      yielded = [] /\ t' = t
      /\ outcome = Throw (ThrownError "SandboxError"
                            "Sandbox not connected. Call connect() first.")).
Proof.
  unfold SandboxTransport_startSession.
  destruct (sandbox t) as [sb|] eqn:Hsb; simpl.
  2:{ split; [|auto]. intros e [= <-]. eexists _, _. split; [reflexivity|].
      split; [sdk_class|].
      intros _ [? ?]; discriminate. }
  rewrite ?bool_decide_eq_true_2 by eauto. simpl.
  destruct (isConnected t) eqn:Hc; simpl.
  2:{ split; [|auto]. intros e [= <-]. eexists _, _. split; [reflexivity|].
      split; [sdk_class|]. discriminate. }
  destruct (credentials_available (session_auth io)) eqn:Ha; simpl.
  2:{ split; [|intros [?|?]; discriminate].
      intros e [= <-]. eexists _, _. split; [reflexivity|].
      split; [sdk_class|]. discriminate. }
  destruct (startSession_body JSON_stringify JSON_parse trim io _)
    as [yielded outcome].
  split; [|intros [?|?]; discriminate].
  intros e He. destruct outcome as [[]|e0]; [discriminate|]. simpl in He.
  destruct (startSession_catch_throws io e0) as (name & message & E & Hin & Hab).
  rewrite E in He. injection He as <-. exists name, message. auto.
Qed.

(** X11.  When the CLI runs to its end and exits with a code other than 0
    while no abort is signalled, [startSession] first yields every
    message of the log stream and then throws a [CLIExecutionError] whose
    message gives the exit code, followed by the stderr text, or else the
    stdout text, or else [no output]. *)
Theorem startSession_nonzero_exit (io : SessionIO) (t : SandboxTransport)
    (sb : Sandbox) (finished : CommandFinished) :
  sandbox t = Some sb -> isConnected t = true ->
  credentials_available (session_auth io) = true ->
  versionCheck io = Ok tt -> runCommand_detached io = Ok tt ->
  logs_outcome io = Ok tt ->
  command_wait io = Ok finished -> exitCode finished <> 0%Z ->
  signal_aborted io = false ->
  SandboxTransport_startSession JSON_stringify JSON_parse trim io t
  = (live_stream JSON_stringify JSON_parse trim
       (mkTransport (Some sb) true (options_snapshotId t)
          (Some (generateSessionId io)))
       (session_generateUuid io) (generateSessionId_later io)
       (command_logs io),
     Throw (ThrownError "CLIExecutionError"
              ("Claude CLI exited with code " +:+ pretty (exitCode finished)
               +:+ ": "
               +:+ (if String.eqb (command_stderr finished) ""
                    then if String.eqb (command_stdout finished) ""
                         then "no output" else command_stdout finished
                    else command_stderr finished))),
     mkTransport (Some sb) true (options_snapshotId t)
       (Some (generateSessionId io))).
Proof.
  intros Hsb Hc Ha Hv Hr Hl Hw Hx Hab.
  unfold SandboxTransport_startSession, startSession_body.
  rewrite Hsb, Hc, Ha, Hv, Hr, Hl, Hw.
  rewrite bool_decide_eq_true_2 by eauto.
  apply Z.eqb_neq in Hx. rewrite Hx. simpl.
  unfold startSession_catch. rewrite Hab. reflexivity.
Qed.

End SessionOutcome.
(* --------------------------------------------------------------------- *)
(** ** The final result of a session                                      *)
(* --------------------------------------------------------------------- *)

Section FinalResult.

Variable String_of : json -> string.


(** X12.  [getFinalResult] stops at the first error message: when the
    messages before it are not error messages and its [error] object
    holds a string [message], it throws a [CLIExecutionError] with that
    text, whatever results came before and whatever follows. *)
Theorem getFinalResult_throws_first_error
    (before after : list (gmap string json)) (message error : gmap string json)
    (text : string) :
  Forall (fun m => isErrorMessage m = false) before ->
  isErrorMessage message = true ->
  message !! "error" = Some (JObj error) ->
  error !! "message" = Some (JStr text) ->
  getFinalResult String_of (before ++ message :: after)
  = Throw (ThrownError "CLIExecutionError" text).
Proof.
  intros Hb He Herr Htext. unfold getFinalResult. generalize (@None json).
  induction before as [|m ms IH]; intros lastResult.
  - cbn [app getFinalResult_from]. rewrite He, Herr, Htext. reflexivity.
  - inversion Hb as [|? ? Hm Hms]; subst.
    cbn [app getFinalResult_from]. rewrite Hm. apply IH, Hms.
Qed.


End FinalResult.
(* --------------------------------------------------------------------- *)
(** ** The final result of a live session                                 *)
(* --------------------------------------------------------------------- *)


Section FinalResultOfSession.

Variable JSON_stringify : json -> string.
Variable JSON_parse : string -> result string json.
Variable trim : string -> string.
Variable String_of : json -> string.




End FinalResultOfSession.
(* --------------------------------------------------------------------- *)
(** ** Credentials and the sandbox environment                            *)
(* --------------------------------------------------------------------- *)

Lemma buildSandboxEnv_apiKey (auth : option string * option string) :
  buildSandboxEnv auth None !! "ANTHROPIC_API_KEY"
  = if present auth.1 then auth.1 else None.
Proof.
  destruct auth as [[a|] [o|]]; unfold buildSandboxEnv; cbn [fst snd];
    try destruct (present (Some a)); try destruct (present (Some o));
    rewrite ?lookup_insert_ne by discriminate;
    rewrite ?lookup_insert_eq, ?lookup_empty; reflexivity.
Qed.

Lemma buildSandboxEnv_oauthToken (auth : option string * option string) :
  buildSandboxEnv auth None !! "CLAUDE_CODE_OAUTH_TOKEN"
  = if present auth.2 then auth.2 else None.
Proof.
  destruct auth as [[a|] [o|]]; unfold buildSandboxEnv; cbn [fst snd];
    try destruct (present (Some a)); try destruct (present (Some o));
    rewrite ?lookup_insert_ne by discriminate;
    rewrite ?lookup_insert_eq, ?lookup_empty; reflexivity.
Qed.

Lemma present_is_Some (a : option string) :
  present a = true <-> is_Some (if present a then a else None).
Proof.
  destruct a as [s|]; simpl.
  - destruct (String.eqb s ""); simpl; split; eauto; try discriminate.
    intros [? ?]; discriminate.
  - split; [discriminate|]. intros [? ?]; discriminate.
Qed.

(** X15.  The credential check of [connect] and [startSession] and the
    environment given to the CLI agree: the check passes exactly when
    [buildSandboxEnv] puts at least one credential into the environment.
    A non-empty credential of the options wins over the process
    environment, an empty credential is never set, and every additional
    variable of the caller is passed on, overriding a credential of the
    same name. *)
Theorem buildSandboxEnv_credentials
    (option_apiKey option_oauthToken : option string)
    (processEnv : gmap string string)
    (additionalEnv : option (gmap string string)) :
  let auth := getAuthCredentials option_apiKey option_oauthToken processEnv in
  (credentials_available auth = true
   <-> is_Some (buildSandboxEnv auth None !! "ANTHROPIC_API_KEY")
       \/ is_Some (buildSandboxEnv auth None !! "CLAUDE_CODE_OAUTH_TOKEN"))
  /\ (forall key, option_apiKey = Some key -> key <> EmptyString ->
        buildSandboxEnv auth None !! "ANTHROPIC_API_KEY" = Some key)
  /\ buildSandboxEnv auth None !! "ANTHROPIC_API_KEY" <> Some EmptyString
  /\ buildSandboxEnv auth None !! "CLAUDE_CODE_OAUTH_TOKEN" <> Some EmptyString
  /\ (forall extra k v,
        additionalEnv = Some extra -> extra !! k = Some v ->
        buildSandboxEnv auth additionalEnv !! k = Some v)
  /\ (forall extra k,
        additionalEnv = Some extra -> extra !! k = None ->
        buildSandboxEnv auth additionalEnv !! k
        = buildSandboxEnv auth None !! k).
Proof.
  intros auth. rewrite buildSandboxEnv_apiKey, buildSandboxEnv_oauthToken.
  split; [|split; [|split; [|split; [|split]]]].
  - rewrite <- !present_is_Some. unfold credentials_available.
    destruct (present auth.1), (present auth.2); simpl;
      intuition discriminate.
  - intros key -> Hne. subst auth. simpl.
    apply String.eqb_neq in Hne. rewrite Hne. simpl. rewrite Hne. reflexivity.
  - destruct (present auth.1) eqn:P; [|discriminate].
    intros E. rewrite E in P. discriminate.
  - destruct (present auth.2) eqn:P; [|discriminate].
    intros E. rewrite E in P. discriminate.
  - intros extra k v -> Hk. unfold buildSandboxEnv.
    apply lookup_union_Some_l, Hk.
  - intros extra k -> Hk. unfold buildSandboxEnv.
    apply lookup_union_r, Hk.
Qed.

(* --------------------------------------------------------------------- *)
(** ** Installation, connection and release of the sandbox                *)
(* --------------------------------------------------------------------- *)

Lemma installCLI_catch_throws (error : thrown) :
  exists message,
    installCLI_catch error = Throw (ThrownError "CLIInstallError" message).
Proof.
  destruct error as [name message|name message|v]; simpl;
    try (eexists; reflexivity).
  destruct (String.eqb name "CLIInstallError") eqn:E;
    [|eexists; reflexivity].
  apply String.eqb_eq in E. subst name. eexists. reflexivity.
Qed.

Lemma installCLI_throws (t : SandboxTransport) (io : InstallIO) (e : thrown) :
  is_Some (sandbox t) ->
  SandboxTransport_installCLI t io = Throw e ->
  exists message, e = ThrownError "CLIInstallError" message.
Proof.
  intros [sb Hsb]. unfold SandboxTransport_installCLI. rewrite Hsb.
  assert (Hcatch : forall error,
            installCLI_catch error = Throw e ->
            exists message, e = ThrownError "CLIInstallError" message).
  { intros error. destruct (installCLI_catch_throws error) as [message ->].
    intros [= <-]. eauto. }
  destruct (npm_install io) as [installResult|e1]; [|apply Hcatch].
  destruct (exitCode installResult =? 0)%Z; simpl;
    [|intros [= <-]; eexists; reflexivity].
  destruct (which_claude io) as [verifyResult|e2]; [|apply Hcatch].
  destruct (exitCode verifyResult =? 0)%Z; simpl;
    [discriminate|intros [= <-]; eexists; reflexivity].
Qed.

(** X16.  On a transport that holds a sandbox, [installCLI] returns
    exactly when both commands ran and exited with code 0.  Every
    failure, whatever its origin, is thrown as a [CLIInstallError]; a
    failing [npm install] gives the one whose message carries the stderr
    text, or [Unknown installation error] when stderr is empty. *)
Theorem installCLI_outcome (t : SandboxTransport) (io : InstallIO) :
  is_Some (sandbox t) ->
  (SandboxTransport_installCLI t io = Ok tt
   <-> exists installResult verifyResult,
         npm_install io = Ok installResult /\ exitCode installResult = 0%Z
         /\ which_claude io = Ok verifyResult /\ exitCode verifyResult = 0%Z)
  /\ (forall e, SandboxTransport_installCLI t io = Throw e ->
        exists message, e = ThrownError "CLIInstallError" message)
  /\ (forall installResult,
        npm_install io = Ok installResult -> exitCode installResult <> 0%Z ->
        SandboxTransport_installCLI t io
        = Throw (ThrownError "CLIInstallError"
                   ("Failed to install Claude CLI: "
                    +:+ (if String.eqb (command_stderr installResult) ""
                         then "Unknown installation error"
                         else command_stderr installResult)))).
Proof.
  intros Hheld. pose proof (installCLI_throws t io) as Hcatch.
  destruct Hheld as [sb Hsb].
  assert (Hsome : is_Some (sandbox t)) by eauto.
  unfold SandboxTransport_installCLI in *. rewrite Hsb in *.
  destruct (npm_install io) as [installResult|e1] eqn:Hi.
  2:{ simpl. split; [|split].
      - split.
        + intros H. destruct (installCLI_catch_throws e1) as [message E].
          rewrite E in H. discriminate.
        + intros (? & ? & ? & _). discriminate.
      - intros e. apply Hcatch, Hsome.
      - intros ? ?. discriminate. }
  destruct (exitCode installResult =? 0)%Z eqn:Hx.
  2:{ apply Z.eqb_neq in Hx. simpl. split; [|split].
      - split; [discriminate|]. intros (? & ? & [= <-] & ? & _). contradiction.
      - intros e [= <-]. eexists. reflexivity.
      - intros ? [= <-] _. reflexivity. }
  apply Z.eqb_eq in Hx. simpl.
  destruct (which_claude io) as [verifyResult|e2] eqn:Hw.
  2:{ simpl. split; [|split].
      - split.
        + intros H. destruct (installCLI_catch_throws e2) as [message E].
          rewrite E in H. discriminate.
        + intros (? & ? & _ & _ & ? & _). discriminate.
      - intros e. apply Hcatch, Hsome.
      - intros ? [= <-] ?. contradiction. }
  destruct (exitCode verifyResult =? 0)%Z eqn:Hy; simpl.
  - apply Z.eqb_eq in Hy. split; [|split].
    + split; [|reflexivity]. intros _. eauto 10.
    + discriminate.
    + intros ? [= <-] ?. contradiction.
  - apply Z.eqb_neq in Hy. split; [|split].
    + split; [discriminate|].
      intros (? & ? & _ & _ & [= <-] & ?). contradiction.
    + intros e [= <-]. eexists. reflexivity.
    + intros ? [= <-] ?. contradiction.
Qed.

(** X17.  A failing installation surfaces from [connect] unchanged, as the
    [CLIInstallError] that [installCLI] threw; the transport is then not
    connected but holds the sandbox that was created, so that [close]
    still stops it. *)
Theorem connect_surfaces_install_failure
    (io : ConnectIO) (install : InstallIO) (t : SandboxTransport)
    (sb : Sandbox) (e : thrown) :
  has_credentials io = true ->
  create_outcome io = Ok sb ->
  install_outcome io
  = SandboxTransport_installCLI
      (mkTransport (Some sb) (isConnected t) None (currentSessionId t))
      install ->
  install_outcome io = Throw e ->
  isConnected t = false ->
  let '(outcome, t') := SandboxTransport_connect io None t in
  outcome = Throw e
  /\ isConnected t' = false /\ sandbox t' = Some sb
  /\ (SandboxTransport_close t').2 = [EvStop (sandboxId sb)].
Proof.
  intros Hcred Hcreate Hinstall Hthrow Hconn.
  assert (Hclass : exists message, e = ThrownError "CLIInstallError" message).
  { rewrite Hinstall in Hthrow. eapply installCLI_throws, Hthrow.
    simpl. eauto. }
  destruct Hclass as [message ->].
  unfold SandboxTransport_connect. rewrite Hcred, Hcreate. simpl.
  rewrite Hthrow. simpl. rewrite Hconn. repeat split.
  unfold SandboxTransport_close. simpl.
  destruct (stop_outcome sb); reflexivity.
Qed.
(** X18.  On a transport that holds nothing, [connect] succeeds exactly
    when it leaves the transport connected, and a [close] after it,
    whether it succeeded or failed, stops exactly the sandbox that
    [connect] created, if any (none is created without a credential),
    and leaves the transport empty, disconnected and without a session. *)
Theorem connect_then_close (io : ConnectIO) (snapshot : option string)
    (t : SandboxTransport) :
  sandbox t = None -> isConnected t = false ->
  let '(outcome, t1) := SandboxTransport_connect io snapshot t in
  let '(t2, calls) := SandboxTransport_close t1 in
  (outcome = Ok tt <-> isConnected t1 = true)
  /\ (isConnected t1 = true -> is_Some (sandbox t1))
  /\ calls = (if has_credentials io then
                match create_outcome io with
                | Ok sb => [EvStop (sandboxId sb)]
                | Throw _ => []
                end
              else [])
  /\ sandbox t2 = None /\ isConnected t2 = false
  /\ currentSessionId t2 = None.
Proof.
  intros Hsb Hconn. unfold SandboxTransport_connect.
  destruct (has_credentials io); simpl.
  2:{ rewrite Hsb, Hconn. unfold SandboxTransport_close. simpl.
      repeat split; discriminate. }
  destruct (create_outcome io) as [sb|e]; simpl.
  2:{ rewrite Hsb, Hconn. unfold SandboxTransport_close. simpl.
      repeat split; discriminate. }
  destruct (if match snapshot with
               | Some id => String.eqb id ""
               | None => true
               end then install_outcome io else Ok tt) as [[]|e].
  - unfold SandboxTransport_close. simpl.
    destruct (stop_outcome sb); repeat split; eauto.
  - unfold SandboxTransport_close. simpl. rewrite Hconn.
    destruct (stop_outcome sb); repeat split; discriminate.
Qed.

(** X19.  A sandbox the transport holds is released exactly once by a
    snapshot attempt followed by [close]: by the snapshot when it
    succeeds ([close] then has nothing to stop), by [close] when the
    snapshot fails.  A second [close] makes no call and changes
    nothing. *)
Theorem sandbox_released_once (now : Z) (t : SandboxTransport) (sb : Sandbox) :
  sandbox t = Some sb ->
  let '(outcome, t1, calls1) := SandboxTransport_createSnapshotWithInfo now t in
  let '(t2, calls2) := SandboxTransport_close t1 in
  let '(t3, calls3) := SandboxTransport_close t2 in
  released (sandboxId sb) (calls1 ++ calls2 ++ calls3) = 1
  /\ (forall info, outcome = Ok info -> calls2 = [])
  /\ (forall e, outcome = Throw e -> calls2 = [EvStop (sandboxId sb)])
  /\ sandbox t2 = None /\ isConnected t2 = false
  /\ t3 = t2 /\ calls3 = [].
Proof.
  intros Hsb. unfold SandboxTransport_createSnapshotWithInfo. rewrite Hsb.
  destruct (snapshot_outcome sb) as [id|e].
  - unfold SandboxTransport_close. simpl.
    unfold released. simpl. rewrite String.eqb_refl. simpl.
    repeat split; discriminate.
  - unfold SandboxTransport_close. rewrite Hsb. simpl.
    assert (E : (let '(held, calls) :=
                   match stop_outcome sb with
                   | Ok _ => (@None Sandbox, [EvStop (sandboxId sb)])
                   | Throw _ => (None, [EvStop (sandboxId sb)])
                   end in
                 (mkTransport held false (options_snapshotId t) None, calls))
                = (mkTransport None false (options_snapshotId t) None,
                   [EvStop (sandboxId sb)])).
    { destruct (stop_outcome sb); reflexivity. }
    rewrite E. simpl. unfold released. simpl. rewrite String.eqb_refl. simpl.
    repeat split; discriminate.
Qed.
(* --------------------------------------------------------------------- *)
(** ** Enrichment is stable                                               *)
(* --------------------------------------------------------------------- *)

Lemma with_identity_fixed this uuid sid (m : gmap string json) :
  holds_string (m !! "uuid") ->
  holds_string (m !! "session_id") ->
  m !! "parent_tool_use_id" = Some JNull
  \/ holds_string (m !! "parent_tool_use_id") ->
  with_identity this uuid sid m = m.
Proof.
  intros [u Hu] [s Hs] Hp. unfold with_identity.
  rewrite Hu, Hs. simpl.
  assert (Hp' : m !! "parent_tool_use_id"
                = Some (string_or (m !! "parent_tool_use_id") JNull)).
  { destruct Hp as [-> | [p ->]]; reflexivity. }
  rewrite (insert_id m "uuid" (JStr u) Hu).
  rewrite (insert_id m "session_id" (JStr s) Hs).
  apply insert_id, Hp'.
Qed.

Lemma with_type_defaults_fixed (t : string) (m : gmap string json) :
  with_type_defaults t (with_type_defaults t m) = with_type_defaults t m.
Proof.
  unfold with_type_defaults.
  destruct (bool_decide (t = "assistant") || bool_decide (t = "user")).
  { destruct (not_an_object (m !! "message")) eqn:E.
    - rewrite lookup_insert_eq. reflexivity.
    - rewrite E. reflexivity. }
  destruct (bool_decide (t = "result")).
  { destruct (js_type_eqb (typeof (m !! "subtype")) TString) eqn:E; simpl.
    - rewrite E. reflexivity.
    - rewrite lookup_insert_eq. reflexivity. }
  destruct (bool_decide (t = "error")); [|reflexivity].
  destruct (not_an_object (m !! "error")) eqn:E.
  - rewrite lookup_insert_eq. reflexivity.
  - rewrite E. reflexivity.
Qed.

Section EnrichmentStable.

Variable JSON_stringify : json -> string.

(** X20.  The transport's [enrichMessage] is idempotent: a message it has
    returned passes the gate again and comes back unchanged, whatever the
    transport's session, and whatever ids would be generated, at the
    second call. *)
Theorem enrichMessage_idempotent (this this' : SandboxTransport)
    (uuid sid uuid' sid' : string) (rawMessage message : json) :
  SandboxTransport_enrichMessage JSON_stringify this uuid sid rawMessage
  = Ok message ->
  SandboxTransport_enrichMessage JSON_stringify this' uuid' sid' message
  = Ok message.
Proof.
  unfold SandboxTransport_enrichMessage at 1.
  destruct (isValidMessageStructure rawMessage) eqn:Hv; [|discriminate]. simpl.
  destruct (isValidMessageStructure_inv rawMessage Hv)
    as (fields & t & -> & Hty & Hin).
  simpl. rewrite with_identity_other by discriminate. rewrite Hty.
  intros [= <-].
  set (out := with_type_defaults t (with_identity this uuid sid fields)).
  assert (Htype : out !! "type" = Some (JStr t)).
  { unfold out. rewrite with_type_defaults_other by (intros _; discriminate).
    rewrite with_identity_other by discriminate. exact Hty. }
  rewrite (enrichMessage_valid JSON_stringify this' uuid' sid' out t Htype Hin).
  rewrite with_identity_fixed.
  - unfold out. rewrite with_type_defaults_fixed. reflexivity.
  - unfold out. rewrite with_type_defaults_identity by auto.
    rewrite with_identity_uuid.
    destruct (string_or_cases (fields !! "uuid") (JStr uuid))
      as [(s & _ & ->)|(_ & ->)]; eexists; reflexivity.
  - unfold out. rewrite with_type_defaults_identity by auto.
    rewrite with_identity_session.
    destruct (string_or_cases (fields !! "session_id")
                (JStr (session_or (currentSessionId this) sid)))
      as [(s & _ & ->)|(_ & ->)]; eexists; reflexivity.
  - unfold out. rewrite with_type_defaults_identity by auto.
    rewrite with_identity_parent.
    destruct (string_or_cases (fields !! "parent_tool_use_id") JNull)
      as [(s & _ & ->)|(_ & ->)];
      [right; eexists; reflexivity | left; reflexivity].
Qed.

End EnrichmentStable.

Lemma truthy_or_truthy (x : option json) (s : string) :
  s <> EmptyString -> truthy (Some (truthy_or x (JStr s))) = true.
Proof.
  intros Hs. unfold truthy_or. destruct x as [v|].
  - destruct (truthy (Some v)) eqn:E; [exact E|].
    simpl. apply String.eqb_neq in Hs. rewrite Hs. reflexivity.
  - simpl. apply String.eqb_neq in Hs. rewrite Hs. reflexivity.
Qed.

(** X21.  With a non-empty generated uuid and a non-empty session id, the
    orchestrator's [enrichMessage] returns a message whose [uuid] and
    [session_id] are truthy; it changes no field other than [uuid],
    [session_id] and [parent_tool_use_id]; and it is idempotent: applied
    again, by any query and with any other generated uuid, it returns the
    message it is given. *)
Theorem QueryImpl_enrichMessage_stable (q q' : QueryImpl) (uuid uuid' : string)
    (message : gmap string json) :
  uuid <> EmptyString -> _sessionId q <> EmptyString ->
  let out := QueryImpl_enrichMessage q uuid message in
  truthy (out !! "uuid") = true
  /\ truthy (out !! "session_id") = true
  /\ (forall k, k <> "uuid" -> k <> "session_id" ->
                k <> "parent_tool_use_id" -> out !! k = message !! k)
  /\ QueryImpl_enrichMessage q' uuid' out = out.
Proof.
  intros Hu Hs out.
  assert (H : truthy (out !! "uuid") = true
              /\ truthy (out !! "session_id") = true).
  { unfold out, QueryImpl_enrichMessage.
    destruct (truthy (message !! "uuid") && truthy (message !! "session_id"))
      eqn:E.
    - apply andb_true_iff in E. exact E.
    - rewrite lookup_insert_ne by discriminate.
      rewrite lookup_insert_ne by discriminate.
      rewrite lookup_insert_eq.
      rewrite lookup_insert_ne by discriminate.
      rewrite lookup_insert_eq.
      split; apply truthy_or_truthy; assumption. }
  destruct H as [H1 H2]. split; [exact H1|]. split; [exact H2|]. split.
  - intros k K1 K2 K3. unfold out, QueryImpl_enrichMessage.
    destruct (truthy (message !! "uuid") && truthy (message !! "session_id"));
      [reflexivity|].
    rewrite !lookup_insert_ne by congruence. reflexivity.
  - unfold QueryImpl_enrichMessage at 1. rewrite H1, H2. reflexivity.
Qed.
(* --------------------------------------------------------------------- *)
(** ** Tool dispatch and the tool-call front ends                         *)
(* --------------------------------------------------------------------- *)

Lemma find_tool_app (xs ys : list ToolDefinition) (name : string) :
  find_tool (xs ++ ys) name
  = match find_tool xs name with
    | Some t => Some t
    | None => find_tool ys name
    end.
Proof.
  unfold find_tool. induction xs as [|x xs IH]; simpl; [reflexivity|].
  destruct (String.eqb (tool_name x) name); [reflexivity|exact IH].
Qed.

Lemma find_tool_Some (tools : list ToolDefinition) (name : string)
    (t : ToolDefinition) :
  find_tool tools name = Some t -> In t tools /\ tool_name t = name.
Proof.
  unfold find_tool. intros H. apply find_some in H as [Hin Hn].
  apply String.eqb_eq in Hn. auto.
Qed.

Lemma fold_toolMap_lookup (tools : list ToolDefinition)
    (m : gmap string ToolDefinition) (name : string) :
  fold_left (fun m t => <[tool_name t := t]> m) tools m !! name
  = match find_tool (rev tools) name with
    | Some t => Some t
    | None => m !! name
    end.
Proof.
  revert m. induction tools as [|t tools IH]; intros m; [reflexivity|].
  cbn [fold_left rev]. rewrite IH, find_tool_app.
  destruct (find_tool (rev tools) name); [reflexivity|].
  unfold find_tool. simpl.
  destruct (String.eqb (tool_name t) name) eqn:E.
  - apply String.eqb_eq in E. subst name. apply lookup_insert_eq.
  - apply String.eqb_neq in E. apply lookup_insert_ne, E.
Qed.

Lemma build_toolMap_lookup (tools : list ToolDefinition) (name : string) :
  build_toolMap tools !! name = find_tool (rev tools) name.
Proof.
  unfold build_toolMap. rewrite fold_toolMap_lookup, lookup_empty.
  destruct (find_tool (rev tools) name); reflexivity.
Qed.

Lemma find_tool_rev_unique (tools : list ToolDefinition) (name : string) :
  NoDup (map tool_name tools) ->
  find_tool (rev tools) name = find_tool tools name.
Proof.
  induction tools as [|t tools IH]; intros Hnd; [reflexivity|].
  simpl in Hnd. apply NoDup_cons in Hnd as [Hnotin Hnd].
  cbn [rev]. rewrite find_tool_app, (IH Hnd).
  unfold find_tool at 2 3. simpl.
  destruct (String.eqb (tool_name t) name) eqn:E.
  - apply String.eqb_eq in E. subst name.
    destruct (find_tool tools (tool_name t)) as [t'|] eqn:F; [|reflexivity].
    apply find_tool_Some in F as [Hin Hname]. exfalso. apply Hnotin.
    rewrite <- Hname. apply list_elem_of_In, in_map, Hin.
  - fold (find_tool tools name). destruct (find_tool tools name); reflexivity.
Qed.

(** X22.  The tool map of the orchestrator and of the MCP server resolves
    a name to the last tool of the list that bears it, while
    [handleToolCall] takes the first; the two agree on every name when the
    tool names of the list are distinct, and they differ on a name that
    two different tools share. *)
Theorem tool_dispatch_agreement (tools : list ToolDefinition) (name : string) :
  build_toolMap tools !! name = find_tool (rev tools) name
  /\ (NoDup (map tool_name tools) ->
      build_toolMap tools !! name = find_tool tools name)
  /\ (forall first second : ToolDefinition,
        tool_name first = name -> tool_name second = name ->
        build_toolMap [first; second] !! name = Some second
        /\ find_tool [first; second] name = Some first).
Proof.
  split; [apply build_toolMap_lookup|]. split.
  - intros Hnd. rewrite build_toolMap_lookup. apply find_tool_rev_unique, Hnd.
  - intros first second H1 H2. rewrite build_toolMap_lookup.
    unfold find_tool. simpl. rewrite H1, H2, String.eqb_refl. auto.
Qed.

Lemma find_tool_None (tools : list ToolDefinition) (name : string) :
  name ∉ map tool_name tools -> find_tool tools name = None.
Proof.
  intros Hnot. destruct (find_tool tools name) as [t|] eqn:F; [|reflexivity].
  apply find_tool_Some in F as [Hin <-]. exfalso. apply Hnot.
  apply list_elem_of_In, in_map, Hin.
Qed.

Lemma find_tool_rev_None (tools : list ToolDefinition) (name : string) :
  find_tool tools name = None -> find_tool (rev tools) name = None.
Proof.
  intros F. destruct (find_tool (rev tools) name) as [t|] eqn:F';
    [|reflexivity].
  apply find_tool_Some in F' as [Hin Hname].
  unfold find_tool in F. apply in_rev in Hin.
  apply (find_none _ _ F t) in Hin.
  apply String.eqb_neq in Hin. contradiction.
Qed.

Lemma withToolErrorHandling_throw {T : Type} (toolName : string)
    (operation : result thrown T) (e : thrown) (default : string) :
  operation = Throw e ->
  exists message,
    withToolErrorHandling toolName operation
    = Throw (ThrownError "ToolError" message)
    /\ contains message toolName
    /\ contains message (message_or "Unknown error" e)
    /\ wrapError (ThrownError "ToolError" message) default
       = ThrownError "ToolError" message.
Proof.
  intros ->. eexists. split; [reflexivity|]. split; [|split].
  - exists ("Tool " +:+ dq),
      (dq +:+ " failed: " +:+ message_or "Unknown error" e).
    rewrite !append_assoc. reflexivity.
  - exists ("Tool " +:+ dq +:+ toolName +:+ dq +:+ " failed: "),
      EmptyString.
    rewrite append_empty_r, !append_assoc. reflexivity.
  - reflexivity.
Qed.

Section ToolCallProperties.

Variable JSON_stringify : json -> string.

(** X23.  The two tool-call front ends answer a name no tool bears with
    the error result [Unknown tool: name], without throwing.  Neither
    guards [executeTool]: each throws exactly what [executeTool] throws
    on the tool it has picked, and nothing of its own.  When the tool
    names are distinct the two end the same way on every call: both throw
    the same error, or both return, with the same error flag and blocks
    of the same types with the same text in the text blocks. *)
Theorem tool_call_front_ends (tools : list ToolDefinition) (name : string)
    (arguments : json) :
  (name ∉ map tool_name tools ->
   handleToolCall JSON_stringify tools name arguments
   = Ok (mkToolCallResponse [("text", "Unknown tool: " +:+ name)] (Some true))
   /\ McpServer_callTool tools name arguments
      = Ok (mkMcpCallResult [McpText ("Unknown tool: " +:+ name)] (Some true)))
  /\ (forall e,
        handleToolCall JSON_stringify tools name arguments = Throw e
        <-> exists tool, find_tool tools name = Some tool
                         /\ executeTool tool arguments = Throw e)
  /\ (forall e,
        McpServer_callTool tools name arguments = Throw e
        <-> exists tool, build_toolMap tools !! name = Some tool
                         /\ executeTool tool arguments = Throw e)
  /\ (NoDup (map tool_name tools) ->
      (forall e,
         handleToolCall JSON_stringify tools name arguments = Throw e
         <-> McpServer_callTool tools name arguments = Throw e)
      /\ (forall response answer,
            handleToolCall JSON_stringify tools name arguments = Ok response ->
            McpServer_callTool tools name arguments = Ok answer ->
            response_isError response = mcp_isError answer
            /\ map fst (response_content response)
               = map mcp_content_type (mcp_content answer)
            /\ forall i text,
                 mcp_content answer !! i = Some (McpText text) <->
                 response_content response !! i = Some ("text", text))).
Proof.
  split; [|split; [|split]].
  - intros Hnot. unfold handleToolCall, McpServer_callTool.
    rewrite build_toolMap_lookup.
    rewrite (find_tool_rev_None tools name (find_tool_None tools name Hnot)).
    rewrite (find_tool_None tools name Hnot). auto.
  - intros e. unfold handleToolCall.
    destruct (find_tool tools name) as [tool|].
    + destruct (executeTool tool arguments) as [result|e'] eqn:E.
      * split; [discriminate|]. intros (tool' & [= <-] & H). congruence.
      * split.
        -- intros [= <-]. eauto.
        -- intros (tool' & [= <-] & H). congruence.
    + split; [discriminate|]. intros (tool' & H & _). discriminate.
  - intros e. unfold McpServer_callTool.
    destruct (build_toolMap tools !! name) as [tool|].
    + destruct (executeTool tool arguments) as [result|e'] eqn:E.
      * split; [discriminate|]. intros (tool' & [= <-] & H). congruence.
      * split.
        -- intros [= <-]. eauto.
        -- intros (tool' & [= <-] & H). congruence.
    + split; [discriminate|]. intros (tool' & H & _). discriminate.
  - intros Hnd. unfold handleToolCall, McpServer_callTool.
    rewrite build_toolMap_lookup, (find_tool_rev_unique tools name Hnd).
    destruct (find_tool tools name) as [tool|].
    + destruct (executeTool tool arguments) as [result|e'].
      * split; [intros e; split; discriminate|].
        intros response answer [= <-] [= <-]. simpl.
        split; [reflexivity|]. split.
        -- rewrite !map_map. apply map_ext. intros []; reflexivity.
        -- intros i text. rewrite !list_lookup_fmap.
           destruct (content result !! i) as [[]|]; simpl;
             split; intros H; try discriminate; congruence.
      * split; [intros e; split; intros [= <-]; reflexivity|].
        intros response answer H. discriminate.
    + split; [intros e; split; discriminate|].
      intros response answer [= <-] [= <-]. simpl.
      split; [reflexivity|]. split; [reflexivity|].
      intros [|i] text; simpl; split; intros H; try discriminate; congruence.
Qed.

(** X24.  [withToolErrorHandling] around [executeTool]: a result of
    [executeTool] passes through unchanged, and there is one whenever
    [safeParse] succeeds, so a throw of the handler, which [executeTool]
    has turned into an error result, never becomes a [ToolError].
    [executeTool] throws only when [safeParse] throws or reports a failure
    without its list of issues, and the wrapper turns that throw into a
    [ToolError] whose message names the tool and carries the message of
    the error.  Wrapped around a handler called directly, it turns a
    throw of the handler into such a [ToolError] too.  [wrapError] leaves
    the [ToolError] as it is. *)
Theorem withToolErrorHandling_executeTool (tool : ToolDefinition)
    (input : json) :
  (forall result,
     executeTool tool input = Ok result ->
     withToolErrorHandling (tool_name tool) (executeTool tool input)
     = Ok result)
  /\ (forall data,
        schema_safeParse tool input = Ok (SafeParseSuccess data) ->
        exists result,
          withToolErrorHandling (tool_name tool) (executeTool tool input)
          = Ok result)
  /\ (forall e default,
        executeTool tool input = Throw e ->
        (schema_safeParse tool input = Throw e
         \/ schema_safeParse tool input = Ok (SafeParseError None))
        /\ exists message,
            withToolErrorHandling (tool_name tool) (executeTool tool input)
            = Throw (ThrownError "ToolError" message)
            /\ contains message (tool_name tool)
            /\ contains message (message_or "Unknown error" e)
            /\ wrapError (ThrownError "ToolError" message) default
               = ThrownError "ToolError" message)
  /\ (forall error default,
        handler tool input = Throw error ->
        exists message,
          withToolErrorHandling (tool_name tool) (handler tool input)
          = Throw (ThrownError "ToolError" message)
          /\ contains message (tool_name tool)
          /\ contains message (message_or "Unknown error" error)
          /\ wrapError (ThrownError "ToolError" message) default
             = ThrownError "ToolError" message).
Proof.
  split; [|split; [|split]].
  - intros result ->. reflexivity.
  - intros data Hparse. unfold executeTool. rewrite Hparse.
    destruct (handler tool data); simpl; eauto.
  - intros e default E. split.
    + revert E. unfold executeTool.
      destruct (schema_safeParse tool input) as [[data|[errors|]]|e'].
      * destruct (handler tool data); discriminate.
      * discriminate.
      * auto.
      * intros [= <-]. auto.
    + apply withToolErrorHandling_throw, E.
  - intros error default E. apply withToolErrorHandling_throw, E.
Qed.

End ToolCallProperties.
(* --------------------------------------------------------------------- *)
(** ** The run as a generator                                             *)
(* --------------------------------------------------------------------- *)

Lemma generator_lift_snd {A : Type} (m : M A) (w : World) :
  (Generator.lift m w).2 = (m w).2.
Proof. unfold Generator.lift. destruct (m w) as [[a|e] w']; reflexivity. Qed.

Lemma generator_bounds_lift {A : Type} (m : M A) (lo hi : nat) :
  turn_bounds m lo hi -> Generator.turn_bounds (Generator.lift m) lo hi.
Proof. intros H w. rewrite generator_lift_snd. apply H. Qed.

Lemma generator_bounds_ret {A : Type} (a : A) :
  Generator.turn_bounds (Generator.ret a) 0 0.
Proof. intros w. simpl. lia. Qed.

Lemma generator_bounds_yield (consumer : Generator.Consumer)
    (message : gmap string json) :
  Generator.turn_bounds (Generator.yield consumer message) 0 0.
Proof.
  intros w. unfold Generator.yield. cbv zeta.
  destruct (consumer _); simpl; unfold turns_performed; simpl;
    rewrite List.filter_app, length_app; simpl; lia.
Qed.

Lemma generator_bounds_bind {A B : Type} (m : Generator.G A)
    (k : A -> Generator.G B) (a b d : nat) :
  Generator.turn_bounds m a b ->
  (forall x, Generator.turn_bounds (k x) 0 d) ->
  Generator.turn_bounds (Generator.bind m k) a (b + d).
Proof.
  intros Hm Hk w. unfold Generator.bind. specialize (Hm w).
  destruct (m w) as [[x|e] w1]; simpl in *.
  - specialize (Hk x w1). lia.
  - lia.
Qed.

Lemma generator_bounds_weaken {A : Type} (m : Generator.G A)
    (lo hi lo' hi' : nat) :
  Generator.turn_bounds m lo hi -> lo' <= lo -> hi <= hi' ->
  Generator.turn_bounds m lo' hi'.
Proof. intros H Hlo Hhi w. specialize (H w). lia. Qed.

Lemma generator_bounds_seq {A B : Type} (m : Generator.G A)
    (k : A -> Generator.G B) (hi : nat) :
  Generator.turn_bounds m 0 0 ->
  (forall x, Generator.turn_bounds (k x) 0 hi) ->
  Generator.turn_bounds (Generator.bind m k) 0 hi.
Proof.
  intros Hm Hk. eapply generator_bounds_weaken;
    [apply (generator_bounds_bind m k 0 0 hi Hm Hk) | lia | lia].
Qed.

Lemma generator_bounds_start {B : Type} (turn : Z) (fullPrompt : string)
    (k : unit -> Generator.G B) (hi : nat) :
  (forall x, Generator.turn_bounds (k x) 0 hi) ->
  Generator.turn_bounds
    (Generator.bind (Generator.lift (emit (EvStartSession turn fullPrompt))) k)
    1 (S hi).
Proof.
  intros Hk.
  pose proof (generator_bounds_lift _ _ _
                (turn_bounds_emit (EvStartSession turn fullPrompt))) as Hm.
  simpl in Hm.
  eapply generator_bounds_weaken;
    [apply (generator_bounds_bind _ k 1 1 hi Hm Hk) | lia | lia].
Qed.

Lemma generator_bounds_le {A : Type} (m : Generator.G A) (hi hi' : nat) :
  Generator.turn_bounds m 0 hi -> hi <= hi' -> Generator.turn_bounds m 0 hi'.
Proof.
  intros H Hle. eapply generator_bounds_weaken; [exact H | lia | exact Hle].
Qed.

Lemma generator_bounds_consume (consumer : Generator.Consumer) (io : RunIO)
    (stream : list (gmap string json)) :
  Generator.turn_bounds (Generator.consume consumer io stream) 0 0.
Proof.
  induction stream as [|m rest IH]; simpl.
  - apply generator_bounds_ret.
  - apply generator_bounds_seq;
      [apply generator_bounds_lift, turn_bounds_get|]. intros q.
    apply generator_bounds_seq;
      [apply generator_bounds_lift, turn_bounds_modify|]. intros _.
    apply generator_bounds_seq; [apply generator_bounds_yield|]. intros _.
    exact IH.
Qed.

Ltac generator_bounds_step :=
  first
    [ apply generator_bounds_ret
    | apply generator_bounds_yield
    | apply generator_bounds_consume
    | apply generator_bounds_lift; bounds_step ].

Lemma generator_completes_bind {A : Type} (m : Generator.G A)
    (k : A -> Generator.G (option Z)) :
  (forall x, Generator.completes (k x)) ->
  Generator.completes (Generator.bind m k).
Proof.
  intros Hk w. unfold Generator.bind. destruct (m w) as [[x|e] w1]; simpl.
  - apply Hk.
  - discriminate.
Qed.

Lemma generator_completes_ret (z : Z) :
  Generator.completes (Generator.ret (Some z)).
Proof. intros w. discriminate. Qed.

Lemma generator_count_bind {A : Type} (m : Generator.G A)
    (k : A -> Generator.G (option Z)) (d : nat) (base : Z) :
  Generator.turn_bounds m d d ->
  (forall x, Generator.returns_count (k x) (base + Z.of_nat d)) ->
  Generator.returns_count (Generator.bind m k) base.
Proof.
  intros Hm Hk w n. unfold Generator.bind. specialize (Hm w).
  destruct (m w) as [[x|e] w1]; simpl in *; [|discriminate].
  intros H. apply Hk in H. rewrite H. f_equal. lia.
Qed.

Lemma generator_count_seq {A : Type} (m : Generator.G A)
    (k : A -> Generator.G (option Z)) (base : Z) :
  Generator.turn_bounds m 0 0 ->
  (forall x, Generator.returns_count (k x) base) ->
  Generator.returns_count (Generator.bind m k) base.
Proof.
  intros Hm Hk. apply (generator_count_bind m k 0); [exact Hm|].
  intros x. rewrite Z.add_0_r. apply Hk.
Qed.

Lemma generator_count_ret (z : Z) :
  (z <= Generator.MAX_COUNT)%Z ->
  Generator.returns_count (Generator.ret (Some z)) z.
Proof. intros Hz w n [= <-]. simpl. lia. Qed.

Lemma generator_count_none (z : Z) :
  Generator.returns_count (Generator.ret None) z.
Proof. intros w n. discriminate. Qed.

Lemma generator_increment (turn : Z) :
  (turn <= Generator.MAX_COUNT)%Z ->
  Generator.increment turn = Z.min Generator.MAX_COUNT (turn + 1)
  /\ (Generator.increment turn <= Generator.MAX_COUNT)%Z.
Proof.
  intros H. unfold Generator.increment.
  destruct (turn <? Generator.MAX_COUNT)%Z eqn:E.
  - apply Z.ltb_lt in E. lia.
  - apply Z.ltb_ge in E. lia.
Qed.

Lemma generator_js_lt_ceiling (turn numerator : Z) (denominator : positive) :
  Generator.js_lt turn (Generator.JsFinite numerator denominator) = true
  <-> (turn < Generator.ceiling numerator denominator)%Z.
Proof.
  unfold Generator.js_lt, Generator.ceiling. rewrite Z.ltb_lt.
  pose proof (Z.div_mod (- numerator) (Z.pos denominator) ltac:(lia)) as Hd.
  pose proof (Z.mod_pos_bound (- numerator) (Z.pos denominator) ltac:(lia))
    as Hm.
  set (q := (- numerator / Z.pos denominator)%Z) in *.
  set (r := (- numerator mod Z.pos denominator)%Z) in *.
  split; intros H; nia.
Qed.

Section GeneratorLoop.

Variable JSON_stringify : json -> string.
Variable extractText : gmap string json -> result thrown string.
Variable parseToolRequestsFromText : string -> list ToolRequest.
Variable consumer : Generator.Consumer.

(** Every iteration of the loop uses up one unit of the budget, whatever
    [maxTurns] is. *)
Lemma generator_turn_loop_fuel (io : RunIO) (maxTurns : Generator.JsNumber)
    (tools : list ToolDefinition) (fuel : nat) :
  forall (turn : Z) (history : list (string * string)) (currentPrompt : string),
    Generator.turn_bounds
      (Generator.turn_loop JSON_stringify extractText
         parseToolRequestsFromText consumer io maxTurns tools fuel turn
         history currentPrompt)
      0 fuel.
Proof.
  induction fuel as [|fuel IH]; intros turn history currentPrompt.
  - simpl. apply generator_bounds_ret.
  - simpl. apply generator_bounds_seq; [generator_bounds_step|]. intros q.
    destruct (Generator.js_lt turn maxTurns && negb (isInterrupted q));
      [|eapply generator_bounds_le; [apply generator_bounds_ret | lia]].
    eapply generator_bounds_weaken with (lo := 1) (hi := S fuel); [|lia|lia].
    apply generator_bounds_start. intros _.
    apply generator_bounds_seq; [generator_bounds_step|]. intros _.
    apply generator_bounds_seq;
      [destruct (stream_end _); generator_bounds_step|]. intros _.
    apply generator_bounds_seq; [generator_bounds_step|]. intros q'.
    destruct (isInterrupted q');
      [eapply generator_bounds_le; [apply generator_bounds_ret | lia]|].
    apply generator_bounds_seq; [generator_bounds_step|]. intros assistantText.
    destruct ((length (parseToolRequestsFromText assistantText) =? 0)
              || (length tools =? 0));
      [eapply generator_bounds_le; [apply generator_bounds_ret | lia]|].
    apply generator_bounds_seq;
      [destruct (interrupted_in_tools _); generator_bounds_step|].
    intros _. apply IH.
Qed.

(** A finite [maxTurns] that [turn] can reach leaves room for as many
    sessions as there are integers from [turn] up to it. *)
Lemma generator_turn_loop_budget (io : RunIO) (numerator : Z)
    (denominator : positive) (tools : list ToolDefinition) (fuel : nat) :
  (Generator.ceiling numerator denominator <= Generator.MAX_COUNT)%Z ->
  forall (turn : Z) (history : list (string * string)) (currentPrompt : string),
    Generator.turn_bounds
      (Generator.turn_loop JSON_stringify extractText
         parseToolRequestsFromText consumer io
         (Generator.JsFinite numerator denominator) tools fuel turn
         history currentPrompt)
      0 (Z.to_nat (Generator.ceiling numerator denominator - turn)).
Proof.
  intros Hmax.
  induction fuel as [|fuel IH]; intros turn history currentPrompt.
  - simpl. eapply generator_bounds_le; [apply generator_bounds_ret | lia].
  - cbn [Generator.turn_loop].
    apply generator_bounds_seq; [generator_bounds_step|]. intros q.
    destruct (Generator.js_lt turn _ && negb (isInterrupted q)) eqn:Hguard;
      [|eapply generator_bounds_le; [apply generator_bounds_ret | lia]].
    apply andb_true_iff in Hguard as [Hlt _].
    apply generator_js_lt_ceiling in Hlt.
    destruct (generator_increment turn ltac:(lia)) as [Hinc _].
    rewrite Hinc, Z.min_r by lia.
    eapply generator_bounds_weaken with (lo := 1)
      (hi := S (Z.to_nat
                  (Generator.ceiling numerator denominator - (turn + 1))));
      [|lia|lia].
    apply generator_bounds_start. intros _.
    apply generator_bounds_seq; [generator_bounds_step|]. intros _.
    apply generator_bounds_seq;
      [destruct (stream_end _); generator_bounds_step|]. intros _.
    apply generator_bounds_seq; [generator_bounds_step|]. intros q'.
    destruct (isInterrupted q');
      [eapply generator_bounds_le; [apply generator_bounds_ret | lia]|].
    apply generator_bounds_seq; [generator_bounds_step|]. intros assistantText.
    destruct ((length (parseToolRequestsFromText assistantText) =? 0)
              || (length tools =? 0));
      [eapply generator_bounds_le; [apply generator_bounds_ret | lia]|].
    apply generator_bounds_seq;
      [destruct (interrupted_in_tools _); generator_bounds_step|].
    intros _. apply IH.
Qed.

(** With such a [maxTurns], a budget above the room it leaves is never
    exhausted. *)
Lemma generator_turn_loop_completes (io : RunIO) (numerator : Z)
    (denominator : positive) (tools : list ToolDefinition) (fuel : nat) :
  (Generator.ceiling numerator denominator <= Generator.MAX_COUNT)%Z ->
  forall (turn : Z) (history : list (string * string)) (currentPrompt : string),
    Z.to_nat (Generator.ceiling numerator denominator - turn) < fuel ->
    Generator.completes
      (Generator.turn_loop JSON_stringify extractText
         parseToolRequestsFromText consumer io
         (Generator.JsFinite numerator denominator) tools fuel turn
         history currentPrompt).
Proof.
  intros Hmax.
  induction fuel as [|fuel IH]; intros turn history currentPrompt Hfuel; [lia|].
  cbn [Generator.turn_loop]. apply generator_completes_bind. intros q.
  destruct (Generator.js_lt turn _ && negb (isInterrupted q)) eqn:Hguard;
    [|apply generator_completes_ret].
  apply andb_true_iff in Hguard as [Hlt _].
  apply generator_js_lt_ceiling in Hlt.
  destruct (generator_increment turn ltac:(lia)) as [Hinc _].
  rewrite Hinc, Z.min_r by lia.
  repeat (apply generator_completes_bind; intros ?).
  destruct (isInterrupted _); [apply generator_completes_ret|].
  apply generator_completes_bind. intros assistantText.
  destruct (_ || _); [apply generator_completes_ret|].
  apply generator_completes_bind. intros _.
  apply IH. lia.
Qed.

(** The counter the loop returns. *)
Lemma generator_turn_loop_count (io : RunIO) (maxTurns : Generator.JsNumber)
    (tools : list ToolDefinition) (fuel : nat) :
  forall (turn : Z) (history : list (string * string)) (currentPrompt : string),
    (turn <= Generator.MAX_COUNT)%Z ->
    Generator.returns_count
      (Generator.turn_loop JSON_stringify extractText
         parseToolRequestsFromText consumer io maxTurns tools fuel turn
         history currentPrompt)
      turn.
Proof.
  induction fuel as [|fuel IH]; intros turn history currentPrompt Hturn.
  - apply generator_count_none.
  - simpl. apply generator_count_seq; [generator_bounds_step|]. intros q.
    destruct (Generator.js_lt turn maxTurns && negb (isInterrupted q));
      [|apply generator_count_ret, Hturn].
    destruct (generator_increment turn Hturn) as [Hinc Hle].
    set (turn' := Generator.increment turn) in *.
    apply (generator_count_bind _ _ 1).
    { apply generator_bounds_lift.
      apply (turn_bounds_emit (EvStartSession _ _)). }
    intros _.
    assert (Hclamp : forall m : Generator.G (option Z),
              (forall w, turns_performed w <= turns_performed (m w).2) ->
              Generator.returns_count m turn' ->
              Generator.returns_count m (turn + Z.of_nat 1)).
    { intros m Hmono Hm w n Hn. specialize (Hmono w).
      rewrite (Hm w n Hn). lia. }
    apply Hclamp.
    { intros w.
      match goal with
      | |- _ <= turns_performed (?m w).2 =>
          assert (Hb : Generator.turn_bounds m 0 fuel);
          [|specialize (Hb w); lia]
      end.
      apply generator_bounds_seq; [generator_bounds_step|]. intros _.
      apply generator_bounds_seq;
        [destruct (stream_end _); generator_bounds_step|]. intros _.
      apply generator_bounds_seq; [generator_bounds_step|]. intros q'.
      destruct (isInterrupted q');
        [eapply generator_bounds_le; [apply generator_bounds_ret | lia]|].
      apply generator_bounds_seq; [generator_bounds_step|].
      intros assistantText.
      destruct ((length (parseToolRequestsFromText assistantText) =? 0)
                || (length tools =? 0));
        [eapply generator_bounds_le; [apply generator_bounds_ret | lia]|].
      apply generator_bounds_seq;
        [destruct (interrupted_in_tools _); generator_bounds_step|].
      intros _. apply generator_turn_loop_fuel. }
    apply generator_count_seq; [generator_bounds_step|]. intros _.
    apply generator_count_seq;
      [destruct (stream_end _); generator_bounds_step|]. intros _.
    apply generator_count_seq; [generator_bounds_step|]. intros q'.
    destruct (isInterrupted q'); [apply generator_count_ret, Hle|].
    apply generator_count_seq; [generator_bounds_step|]. intros assistantText.
    destruct ((length (parseToolRequestsFromText assistantText) =? 0)
              || (length tools =? 0)); [apply generator_count_ret, Hle|].
    apply generator_count_seq;
      [destruct (interrupted_in_tools _); generator_bounds_step|].
    intros _. apply IH, Hle.
Qed.

(** A guard that is false at once ends the loop where it started. *)
Lemma generator_turn_loop_closed (io : RunIO) (maxTurns : Generator.JsNumber)
    (tools : list ToolDefinition) (fuel : nat) (turn : Z)
    (history : list (string * string)) (currentPrompt : string) (w : World) :
  Generator.js_lt turn maxTurns = false \/ isInterrupted (this w) = true ->
  Generator.turn_loop JSON_stringify extractText parseToolRequestsFromText
    consumer io maxTurns tools (S fuel) turn history currentPrompt w
  = (Ok (Some turn), w).
Proof.
  intros Hclosed. simpl. unfold Generator.bind, Generator.lift, get_this.
  simpl.
  destruct Hclosed as [-> | ->]; [reflexivity|].
  rewrite andb_false_r. reflexivity.
Qed.

(** X25.  The turn loop of a run, whatever the consumer, the tools and
    the answers of the assistant, and for every number [maxTurns] can
    hold (10 when the option is absent).  It starts one session for each
    unit of its recursion budget at most.  The counter it returns is the
    number of sessions it has started, as long as that number is below
    the value at which [turn++] stops counting.  For a finite [maxTurns]
    that the counter can reach, it starts at most as many sessions as
    [maxTurns] rounded up to an integer, three for 2.5, and it ends
    within every budget above that; nothing of the kind holds for
    [Infinity].  It starts no session when [0 < maxTurns] is false, as
    for NaN, or when the run is already interrupted. *)
Theorem run_turn_loop_counts (io : RunIO)
    (option_maxTurns : option Generator.JsNumber) (fuel : nat) (w : World) :
  let maxTurns := nullish option_maxTurns (Generator.JsFinite 10 1) in
  let loop :=
    Generator.run_turn_loop JSON_stringify extractText
      parseToolRequestsFromText consumer io option_maxTurns fuel w in
  let started := turns_performed loop.2 - turns_performed w in
  turns_performed w <= turns_performed loop.2
  /\ started <= fuel
  /\ (forall n, loop.1 = Ok (Some n) ->
        n = Z.min Generator.MAX_COUNT (Z.of_nat started))
  /\ (forall numerator denominator,
        maxTurns = Generator.JsFinite numerator denominator ->
        (Generator.ceiling numerator denominator <= Generator.MAX_COUNT)%Z ->
        started <= Z.to_nat (Generator.ceiling numerator denominator)
        /\ (Z.to_nat (Generator.ceiling numerator denominator) < fuel ->
            loop.1 <> Ok None))
  /\ (0 < fuel ->
      Generator.js_lt 0 maxTurns = false \/ isInterrupted (this w) = true ->
      loop = (Ok (Some 0%Z), w)).
Proof.
  unfold Generator.run_turn_loop. cbv zeta.
  set (maxTurns := nullish option_maxTurns (Generator.JsFinite 10 1)).
  set (tools := nullish (option_tools io) []).
  pose proof (generator_turn_loop_fuel io maxTurns tools fuel 0%Z []
                (prompt io) w) as [Hlo Hhi].
  split; [lia|]. split; [lia|]. split; [|split].
  - intros n Hn.
    apply (generator_turn_loop_count io maxTurns tools fuel 0%Z []
             (prompt io) ltac:(unfold Generator.MAX_COUNT; lia)) in Hn.
    rewrite Hn. f_equal. lia.
  - intros numerator denominator Hfinite Hmax. rewrite Hfinite. split.
    + pose proof (generator_turn_loop_budget io numerator denominator tools
                    fuel Hmax 0%Z [] (prompt io) w) as [_ Hb].
      rewrite Z.sub_0_r in Hb. lia.
    + intros Hfuel.
      apply (generator_turn_loop_completes io numerator denominator tools
               fuel Hmax).
      rewrite Z.sub_0_r. exact Hfuel.
  - intros Hfuel Hclosed. destruct fuel as [|fuel']; [lia|].
    apply generator_turn_loop_closed, Hclosed.
Qed.

End GeneratorLoop.

(* --------------------------------------------------------------------- *)
(** ** The message log and the messages yielded, for any consumer         *)
(* --------------------------------------------------------------------- *)

Lemma yielded_app (xs ys : list event) :
  yielded (xs ++ ys) = yielded xs ++ yielded ys.
Proof. unfold yielded. apply omap_app. Qed.

Lemma generator_logs_quiet {A : Type} (consumer : Generator.Consumer)
    (m : Generator.G A) :
  (forall w, messages (this (m w).2) = messages (this w)
             /\ yielded (trace (m w).2) = yielded (trace w)) ->
  Generator.logs_what_it_yields consumer m.
Proof.
  intros H w. destruct (H w) as [Hlog Hyield]. exists [].
  split; [|left]; rewrite ?Hlog, ?Hyield, app_nil_r; reflexivity.
Qed.

Lemma generator_logs_ret {A : Type} (consumer : Generator.Consumer) (a : A) :
  Generator.logs_what_it_yields consumer (Generator.ret a).
Proof. apply generator_logs_quiet. intros w. auto. Qed.

Lemma generator_logs_lift {A : Type} (consumer : Generator.Consumer)
    (m : M A) :
  (forall w, messages (this (m w).2) = messages (this w)
             /\ yielded (trace (m w).2) = yielded (trace w)) ->
  Generator.logs_what_it_yields consumer (Generator.lift m).
Proof.
  intros H. apply generator_logs_quiet. intros w.
  rewrite generator_lift_snd. apply H.
Qed.

Lemma generator_logs_get (consumer : Generator.Consumer) :
  Generator.logs_what_it_yields consumer (Generator.lift get_this).
Proof. apply generator_logs_lift. intros w. auto. Qed.

Lemma generator_logs_throw {A : Type} (consumer : Generator.Consumer)
    (e : thrown) :
  Generator.logs_what_it_yields consumer (Generator.lift (@throw A e)).
Proof. apply generator_logs_lift. intros w. auto. Qed.

Lemma generator_logs_await {A : Type} (consumer : Generator.Consumer)
    (r : result thrown A) :
  Generator.logs_what_it_yields consumer (Generator.lift (await r)).
Proof. apply generator_logs_lift. intros w. auto. Qed.

Lemma generator_logs_interrupt (consumer : Generator.Consumer) :
  Generator.logs_what_it_yields consumer
    (Generator.lift (modify_this (set_isInterrupted true))).
Proof. apply generator_logs_lift. intros w. auto. Qed.

Lemma generator_logs_emit (consumer : Generator.Consumer) (e : event) :
  yielded [e] = [] ->
  Generator.logs_what_it_yields consumer (Generator.lift (emit e)).
Proof.
  intros He. apply generator_logs_lift. intros w. simpl.
  rewrite yielded_app, He, app_nil_r. auto.
Qed.

Lemma generator_logs_on_transport {A : Type} (consumer : Generator.Consumer)
    (f : SandboxTransport -> result thrown A * SandboxTransport * list event) :
  (forall t, yielded (f t).2 = []) ->
  Generator.logs_what_it_yields consumer (Generator.lift (on_transport f)).
Proof.
  intros Hf. apply generator_logs_lift. intros w. unfold on_transport.
  specialize (Hf (transport (this w))).
  destruct (f (transport (this w))) as [[r t] calls]. simpl in *.
  rewrite yielded_app, Hf, app_nil_r. auto.
Qed.

Lemma generator_logs_bind {A B : Type} (consumer : Generator.Consumer)
    (m : Generator.G A) (k : A -> Generator.G B) :
  Generator.logs_what_it_yields consumer m ->
  (forall x, Generator.logs_what_it_yields consumer (k x)) ->
  Generator.logs_what_it_yields consumer (Generator.bind m k).
Proof.
  intros Hm Hk w. destruct (Hm w) as (new1 & Hy1 & Hl1).
  unfold Generator.logged_and_yielded, Generator.bind.
  destruct (m w) as [[x|c] w1]; simpl in *.
  - destruct Hl1 as [Hl1 | (logged & message & _ & _ & _ & _ & Habs)];
      [|exfalso; exact (Habs x eq_refl)].
    destruct (Hk x w1) as (new2 & Hy2 & Hl2).
    exists (new1 ++ new2). split.
    + rewrite Hy2, Hy1, app_assoc. reflexivity.
    + destruct Hl2 as [Hl2 | (logged & message & Hnew & Hlog & Hrest)].
      * left. rewrite Hl2, Hl1, app_assoc. reflexivity.
      * right. exists (new1 ++ logged), message. split; [|split].
        -- rewrite Hnew, app_assoc. reflexivity.
        -- rewrite Hlog, Hl1, app_assoc. reflexivity.
        -- exact Hrest.
  - exists new1. split; [exact Hy1|].
    destruct Hl1 as [Hl1 | (logged & message & Hnew & Hlog & Hb & Hc & _)].
    + left. exact Hl1.
    + right. exists logged, message.
      split; [exact Hnew|]. split; [exact Hlog|]. split; [exact Hb|].
      split; [exact Hc|]. discriminate.
Qed.

(** [this.messages.push(message); yield message]: the message is in the
    log before the consumer has it. *)
Lemma generator_logs_push_yield {A : Type} (consumer : Generator.Consumer)
    (message : gmap string json) (k : Generator.G A) :
  Generator.logs_what_it_yields consumer k ->
  Generator.logs_what_it_yields consumer
    (Generator.bind
       (Generator.lift
          (modify_this (fun q => set_messages (messages q ++ [message]) q)))
       (fun _ => Generator.bind (Generator.yield consumer message)
                   (fun _ => k))).
Proof.
  intros Hk w.
  unfold Generator.logged_and_yielded, Generator.bind, Generator.lift,
    Generator.yield, modify_this. simpl.
  destruct (consumer (yielded (trace w ++ [EvYield message]))) eqn:Hc;
    simpl.
  - match goal with
    | |- context [k ?w1] => destruct (Hk w1) as (new & Hy & Hl)
    end.
    simpl in Hy, Hl. exists (message :: new). split.
    + rewrite Hy, yielded_app, <- app_assoc. reflexivity.
    + destruct Hl as [Hl | (logged & last & Hnew & Hlog & Hrest)].
      * left. rewrite Hl, <- app_assoc. reflexivity.
      * right. exists (message :: logged), last. split; [|split].
        -- rewrite Hnew. reflexivity.
        -- rewrite Hlog, <- app_assoc. reflexivity.
        -- exact Hrest.
  - exists [message]. simpl. split; [apply yielded_app|]. left. reflexivity.
  - exists [message]. simpl. split; [apply yielded_app|]. left. reflexivity.
Qed.

(** [yield message; this.messages.push(message)], for one of the two
    system messages: the consumer has the message before it is in the
    log. *)
Lemma generator_logs_yield_push {A : Type} (consumer : Generator.Consumer)
    (message : gmap string json) (k : Generator.G A) :
  Generator.session_boundary message ->
  Generator.logs_what_it_yields consumer k ->
  Generator.logs_what_it_yields consumer
    (Generator.bind (Generator.yield consumer message)
       (fun _ =>
          Generator.bind
            (Generator.lift
               (modify_this
                  (fun q => set_messages (messages q ++ [message]) q)))
            (fun _ => k))).
Proof.
  intros Hboundary Hk w.
  unfold Generator.logged_and_yielded, Generator.bind, Generator.lift,
    Generator.yield, modify_this. simpl.
  destruct (consumer (yielded (trace w ++ [EvYield message]))) eqn:Hc;
    simpl.
  - match goal with
    | |- context [k ?w1] => destruct (Hk w1) as (new & Hy & Hl)
    end.
    simpl in Hy, Hl. exists (message :: new). split.
    + rewrite Hy, yielded_app, <- app_assoc. reflexivity.
    + destruct Hl as [Hl | (logged & last & Hnew & Hlog & Hrest)].
      * left. rewrite Hl, <- app_assoc. reflexivity.
      * right. exists (message :: logged), last. split; [|split].
        -- rewrite Hnew. reflexivity.
        -- rewrite Hlog, <- app_assoc. reflexivity.
        -- exact Hrest.
  - exists [message]. simpl. split; [apply yielded_app|]. right.
    exists [], message. rewrite app_nil_r.
    split; [reflexivity|]. split; [reflexivity|]. split; [exact Hboundary|].
    split; [rewrite Hc|]; discriminate.
  - exists [message]. simpl. split; [apply yielded_app|]. right.
    exists [], message. rewrite app_nil_r.
    split; [reflexivity|]. split; [reflexivity|]. split; [exact Hboundary|].
    split; [rewrite Hc|]; discriminate.
Qed.

Lemma generator_logs_consume (consumer : Generator.Consumer) (io : RunIO)
    (stream : list (gmap string json)) :
  Generator.logs_what_it_yields consumer
    (Generator.consume consumer io stream).
Proof.
  induction stream as [|m rest IH]; simpl.
  - apply generator_logs_ret.
  - apply generator_logs_bind; [apply generator_logs_get|]. intros q.
    apply generator_logs_push_yield. exact IH.
Qed.

Section GeneratorLog.

Variable JSON_stringify : json -> string.
Variable extractText : gmap string json -> result thrown string.
Variable parseToolRequestsFromText : string -> list ToolRequest.
Variable consumer : Generator.Consumer.

Lemma generator_logs_turn_loop (io : RunIO) (maxTurns : Generator.JsNumber)
    (tools : list ToolDefinition) (fuel : nat) :
  forall (turn : Z) (history : list (string * string)) (currentPrompt : string),
    Generator.logs_what_it_yields consumer
      (Generator.turn_loop JSON_stringify extractText
         parseToolRequestsFromText consumer io maxTurns tools fuel turn
         history currentPrompt).
Proof.
  induction fuel as [|fuel IH]; intros turn history currentPrompt.
  - apply generator_logs_ret.
  - cbn [Generator.turn_loop].
    apply generator_logs_bind; [apply generator_logs_get|]. intros q.
    destruct (Generator.js_lt turn maxTurns && negb (isInterrupted q));
      [|apply generator_logs_ret].
    apply generator_logs_bind; [apply generator_logs_emit; reflexivity|].
    intros _.
    apply generator_logs_bind; [apply generator_logs_consume|]. intros _.
    apply generator_logs_bind.
    { destruct (stream_end _);
        first [apply generator_logs_ret | apply generator_logs_throw
              | apply generator_logs_interrupt]. }
    intros _. apply generator_logs_bind; [apply generator_logs_get|].
    intros q'.
    destruct (isInterrupted q'); [apply generator_logs_ret|].
    apply generator_logs_bind; [apply generator_logs_await|].
    intros assistantText.
    destruct ((length (parseToolRequestsFromText assistantText) =? 0)
              || (length tools =? 0)); [apply generator_logs_ret|].
    apply generator_logs_bind.
    { destruct (interrupted_in_tools _);
        first [apply generator_logs_ret | apply generator_logs_interrupt]. }
    intros _. apply IH.
Qed.

Lemma generator_logs_run_body (io : RunIO)
    (option_maxTurns : option Generator.JsNumber) (fuel : nat) :
  Generator.logs_what_it_yields consumer
    (Generator.run_body JSON_stringify extractText parseToolRequestsFromText
       consumer io option_maxTurns fuel).
Proof.
  unfold Generator.run_body.
  apply generator_logs_bind.
  { apply generator_logs_on_transport. intros t.
    destruct (SandboxTransport_connect _ _ t). reflexivity. }
  intros _. apply generator_logs_bind.
  { apply generator_logs_lift. intros w. unfold getSandboxContext, bind,
      get_this. simpl. destruct (sandbox (transport (this w))); auto. }
  intros _. apply generator_logs_bind; [apply generator_logs_await|].
  intros _. apply generator_logs_bind; [apply generator_logs_get|]. intros q.
  apply generator_logs_yield_push.
  { eexists _, _, _, _. split; [reflexivity|]. left. reflexivity. }
  apply generator_logs_bind; [apply generator_logs_turn_loop|]. intros turned.
  apply generator_logs_bind; [apply generator_logs_get|]. intros q'.
  apply generator_logs_yield_push.
  { eexists _, _, _, _. split; [reflexivity|]. right. reflexivity. }
  apply generator_logs_ret.
Qed.

(** X26.  The log [this.messages] and the messages yielded, wherever the
    [try] block of [run] is left: by reaching its end, by an error, or
    at a [yield] where the consumer calls [return()], as a [break] out of
    [for await] does, or [throw()].  The messages yielded are those
    appended to the log, in the same order, with one exception: a block
    left at the [yield] of one of its two system messages has yielded
    that message and not logged it, because there the [push] follows the
    [yield].  So log and yielded messages agree when the block reaches
    its end and when the consumer only calls [next()]. *)
Theorem run_body_logs_what_it_yields (io : RunIO)
    (option_maxTurns : option Generator.JsNumber) (fuel : nat) (w : World) :
  let body :=
    Generator.run_body JSON_stringify extractText parseToolRequestsFromText
      consumer io option_maxTurns fuel w in
  exists new : list (gmap string json),
    yielded (trace body.2) = yielded (trace w) ++ new
    /\ (messages (this body.2) = messages (this w) ++ new
        \/ exists logged message,
             new = logged ++ [message]
             /\ messages (this body.2) = messages (this w) ++ logged
             /\ Generator.session_boundary message
             /\ consumer (yielded (trace body.2)) <> Generator.CallNext
             /\ forall turned, body.1 <> Ok turned)
    /\ ((forall turned, body.1 = Ok turned ->
           messages (this body.2) = messages (this w) ++ new)
        /\ ((forall seen, consumer seen = Generator.CallNext) ->
            messages (this body.2) = messages (this w) ++ new)).
Proof.
  cbv zeta.
  destruct (generator_logs_run_body io option_maxTurns fuel w)
    as (new & Hy & Hl).
  exists new. split; [exact Hy|]. split; [exact Hl|]. split.
  - intros turned Hok.
    destruct Hl as [Hl | (logged & message & _ & _ & _ & _ & Habs)];
      [exact Hl|].
    exfalso. exact (Habs turned Hok).
  - intros Hnext.
    destruct Hl as [Hl | (logged & message & _ & _ & _ & Hc & _)];
      [exact Hl|].
    exfalso. apply Hc, Hnext.
Qed.

End GeneratorLog.

(* --------------------------------------------------------------------- *)
(** ** A run driven to its end, with an integer [maxTurns]                *)
(* --------------------------------------------------------------------- *)

Lemma generator_agrees_lift {A : Type} (m : M A) :
  Generator.agrees (Generator.lift m) m.
Proof. intros w. reflexivity. Qed.

Lemma generator_agrees_ret {A : Type} (a : A) :
  Generator.agrees (Generator.ret a) (ret a).
Proof. intros w. reflexivity. Qed.

Lemma generator_agrees_bind {A B : Type} (g : Generator.G A) (m : M A)
    (k : A -> Generator.G B) (k' : A -> M B) :
  Generator.agrees g m -> (forall x, Generator.agrees (k x) (k' x)) ->
  Generator.agrees (Generator.bind g k) (bind m k').
Proof.
  intros Hg Hk w. unfold Generator.bind, bind. rewrite (Hg w).
  unfold Generator.lift.
  destruct (m w) as [[x|e] w1]; simpl.
  - rewrite (Hk x w1). reflexivity.
  - reflexivity.
Qed.

Lemma generator_agrees_yield (message : gmap string json) :
  Generator.agrees (Generator.yield Generator.drives_to_end message)
    (emit (EvYield message)).
Proof. intros w. reflexivity. Qed.

Lemma generator_agrees_consume (io : RunIO)
    (stream : list (gmap string json)) :
  Generator.agrees (Generator.consume Generator.drives_to_end io stream)
    (consume io stream).
Proof.
  induction stream as [|m rest IH]; simpl.
  - apply generator_agrees_ret.
  - apply generator_agrees_bind; [apply generator_agrees_lift|]. intros q.
    intros w. unfold Generator.bind, Generator.lift at 1, bind,
      push_and_yield, modify_this, emit, Generator.yield. simpl.
    unfold Generator.lift at 1. simpl. exact (IH _).
Qed.

Section GeneratorAgreement.

Variable JSON_stringify : json -> string.
Variable extractText : gmap string json -> result thrown string.
Variable parseToolRequestsFromText : string -> list ToolRequest.

Lemma generator_agrees_turn_loop (io : RunIO) (maxTurns : Z)
    (tools : list ToolDefinition) (fuel : nat) :
  (maxTurns <= Generator.MAX_COUNT)%Z ->
  forall (turn : Z) (history : list (string * string)) (currentPrompt : string),
    Generator.agrees
      (Generator.turn_loop JSON_stringify extractText
         parseToolRequestsFromText Generator.drives_to_end io
         (Generator.number_of_Z maxTurns) tools fuel turn history
         currentPrompt)
      (turn_loop JSON_stringify extractText parseToolRequestsFromText io
         maxTurns tools fuel turn history currentPrompt).
Proof.
  intros Hmax.
  induction fuel as [|fuel IH]; intros turn history currentPrompt.
  - apply generator_agrees_ret.
  - cbn [Generator.turn_loop turn_loop].
    apply generator_agrees_bind; [apply generator_agrees_lift|]. intros q.
    assert (Hguard : Generator.js_lt turn (Generator.number_of_Z maxTurns)
                     = (turn <? maxTurns)%Z).
    { unfold Generator.js_lt, Generator.number_of_Z.
      rewrite Z.mul_1_r. reflexivity. }
    rewrite Hguard.
    destruct ((turn <? maxTurns)%Z && negb (isInterrupted q)) eqn:Hopen;
      [|apply generator_agrees_ret].
    apply andb_true_iff in Hopen as [Hlt _]. apply Z.ltb_lt in Hlt.
    assert (Hinc : Generator.increment turn = (turn + 1)%Z).
    { unfold Generator.increment.
      destruct (turn <? Generator.MAX_COUNT)%Z eqn:E; [reflexivity|].
      apply Z.ltb_ge in E. lia. }
    rewrite Hinc.
    apply generator_agrees_bind; [apply generator_agrees_lift|]. intros _.
    apply generator_agrees_bind; [apply generator_agrees_consume|]. intros _.
    apply generator_agrees_bind.
    { destruct (stream_end _);
        first [apply generator_agrees_ret | apply generator_agrees_lift]. }
    intros _.
    apply generator_agrees_bind; [apply generator_agrees_lift|]. intros q'.
    destruct (isInterrupted q'); [apply generator_agrees_ret|].
    apply generator_agrees_bind; [apply generator_agrees_lift|].
    intros assistantText.
    destruct ((length (parseToolRequestsFromText assistantText) =? 0)
              || (length tools =? 0)); [apply generator_agrees_ret|].
    apply generator_agrees_bind.
    { destruct (interrupted_in_tools _);
        first [apply generator_agrees_ret | apply generator_agrees_lift]. }
    intros _. apply IH.
Qed.

(** The run of section 3 is the generator driven to its end by [next()],
    with an integer for [maxTurns] that the counter can reach. *)
Lemma generator_run_body_driven_to_end (io : RunIO) (w : World) :
  (nullish (option_maxTurns io) 10 <= Generator.MAX_COUNT)%Z ->
  Generator.run_body JSON_stringify extractText parseToolRequestsFromText
    Generator.drives_to_end io
    (option_map Generator.number_of_Z (option_maxTurns io))
    (S (Z.to_nat (nullish (option_maxTurns io) 10%Z))) w
  = Generator.lift
      (run_body JSON_stringify extractText parseToolRequestsFromText io) w.
Proof.
  intros Hmax. revert w.
  change (Generator.agrees
            (Generator.run_body JSON_stringify extractText
               parseToolRequestsFromText Generator.drives_to_end io
               (option_map Generator.number_of_Z (option_maxTurns io))
               (S (Z.to_nat (nullish (option_maxTurns io) 10%Z))))
            (run_body JSON_stringify extractText parseToolRequestsFromText
               io)).
  unfold Generator.run_body, run_body.
  apply generator_agrees_bind; [apply generator_agrees_lift|]. intros _.
  apply generator_agrees_bind; [apply generator_agrees_lift|]. intros _.
  apply generator_agrees_bind; [apply generator_agrees_lift|]. intros _.
  apply generator_agrees_bind; [apply generator_agrees_lift|]. intros q.
  apply generator_agrees_bind; [apply generator_agrees_yield|]. intros _.
  apply generator_agrees_bind; [apply generator_agrees_lift|]. intros _.
  apply generator_agrees_bind.
  { unfold Generator.run_turn_loop, run_turn_loop.
    replace (nullish (option_map Generator.number_of_Z (option_maxTurns io))
               (Generator.JsFinite 10 1))
      with (Generator.number_of_Z (nullish (option_maxTurns io) 10%Z))
      by (destruct (option_maxTurns io); reflexivity).
    apply generator_agrees_turn_loop, Hmax. }
  intros turned.
  apply generator_agrees_bind; [apply generator_agrees_lift|]. intros q'.
  apply generator_agrees_bind; [apply generator_agrees_yield|]. intros _.
  apply generator_agrees_bind; [apply generator_agrees_lift|]. intros _.
  apply generator_agrees_ret.
Qed.

End GeneratorAgreement.

(* --------------------------------------------------------------------- *)
(** ** A run releases its sandbox                                         *)
(* --------------------------------------------------------------------- *)

Lemma released_app (id : string) (xs ys : list event) :
  released id (xs ++ ys) = released id xs + released id ys.
Proof. unfold released. rewrite List.filter_app, length_app. reflexivity. Qed.

Lemma leaves_ret {A : Type} (a : A) : leaves_sandbox (ret a).
Proof. intros w. auto. Qed.

Lemma leaves_throw {A : Type} (e : thrown) : leaves_sandbox (@throw A e).
Proof. intros w. auto. Qed.

Lemma leaves_await {A : Type} (r : result thrown A) : leaves_sandbox (await r).
Proof. intros w. auto. Qed.

Lemma leaves_get : leaves_sandbox get_this.
Proof. intros w. auto. Qed.

Lemma leaves_modify (f : QueryImpl -> QueryImpl) :
  (forall q, transport (f q) = transport q /\ hooks (f q) = hooks q) ->
  leaves_sandbox (modify_this f).
Proof. intros Hf w. destruct (Hf (this w)). simpl. auto. Qed.

Lemma leaves_emit (e : event) :
  (forall id, releases id e = false) -> leaves_sandbox (emit e).
Proof.
  intros He w. simpl. split; [reflexivity|]. split; [reflexivity|].
  intros id. rewrite released_app. unfold released at 2. simpl.
  rewrite He. simpl. lia.
Qed.

Lemma leaves_bind {A B : Type} (m : M A) (k : A -> M B) :
  leaves_sandbox m -> (forall x, leaves_sandbox (k x)) ->
  leaves_sandbox (bind m k).
Proof.
  intros Hm Hk w. unfold bind. destruct (Hm w) as (H1 & H2 & H3).
  destruct (m w) as [[x|e] w1]; simpl in *; [|auto].
  destruct (Hk x w1) as (H4 & H5 & H6).
  rewrite H4, H5. split; [exact H1|]. split; [exact H2|].
  intros id. rewrite H6. apply H3.
Qed.

Lemma leaves_catch {A : Type} (body : M A) (h : thrown -> M A) :
  leaves_sandbox body -> (forall e, leaves_sandbox (h e)) ->
  leaves_sandbox (catch body h).
Proof.
  intros Hm Hk w. unfold catch. destruct (Hm w) as (H1 & H2 & H3).
  destruct (body w) as [[x|e] w1]; simpl in *; [auto|].
  destruct (Hk e w1) as (H4 & H5 & H6).
  rewrite H4, H5. split; [exact H1|]. split; [exact H2|].
  intros id. rewrite H6. apply H3.
Qed.

Lemma leaves_consume (io : RunIO) (stream : list (gmap string json)) :
  leaves_sandbox (consume io stream).
Proof.
  induction stream as [|m rest IH]; simpl.
  - apply leaves_ret.
  - apply leaves_bind; [apply leaves_get|]. intros q.
    apply leaves_bind; [|intros _; exact IH].
    unfold push_and_yield. apply leaves_bind.
    + apply leaves_modify. intros q'. auto.
    + intros _. apply leaves_emit. reflexivity.
Qed.

Lemma connect_holds (io : ConnectIO) (snapshot : option string)
    (t : SandboxTransport) (sb : Sandbox) :
  has_credentials io = true -> create_outcome io = Ok sb ->
  sandbox (SandboxTransport_connect io snapshot t).2 = Some sb.
Proof.
  intros Hc Hs. unfold SandboxTransport_connect. rewrite Hc, Hs. simpl.
  destruct (if match snapshot with
               | Some id => String.eqb id ""
               | None => true
               end then install_outcome io else Ok tt); reflexivity.
Qed.

Lemma catch_bind_ok {A B : Type} (m : M A) (k : A -> M B)
    (h : thrown -> M B) (w w1 : World) (a : A) :
  m w = (Ok a, w1) -> catch (bind m k) h w = catch (k a) h w1.
Proof. intros H. unfold catch, bind. rewrite H. reflexivity. Qed.

Lemma catch_bind_throw {A B : Type} (m : M A) (k : A -> M B)
    (h : thrown -> M B) (w w1 : World) (e : thrown) :
  m w = (Throw e, w1) -> catch (bind m k) h w = h e w1.
Proof. intros H. unfold catch, bind. rewrite H. reflexivity. Qed.

(** The snapshot step either leaves the sandbox where it is, or releases it
    by a snapshot and empties the transport. *)
Lemma handleSnapshot_release (now : Z) (success : bool) (w : World)
    (sb : Sandbox) :
  sandbox (transport (this w)) = Some sb ->
  let w' := (handleSnapshot now success w).2 in
  hooks (this w') = hooks (this w)
  /\ ((sandbox (transport (this w')) = Some sb
       /\ released (sandboxId sb) (trace w')
          = released (sandboxId sb) (trace w))
      \/ (sandbox (transport (this w')) = None
          /\ released (sandboxId sb) (trace w')
             = released (sandboxId sb) (trace w) + 1)).
Proof.
  intros Hsb. unfold handleSnapshot. rewrite bind_get.
  destruct (negb (isConnected (transport (this w)))); [simpl; auto|].
  destruct (shouldSnapshot (this w) success); [|simpl; auto].
  destruct (snapshot_outcome sb) as [id|e] eqn:Hsnap.
  - erewrite catch_bind_ok.
    2:{ unfold on_transport, SandboxTransport_createSnapshotWithInfo.
        rewrite Hsb, Hsnap. reflexivity. }
    match goal with
    | |- context [catch ?body ?h ?w1] =>
        assert (Hl : leaves_sandbox (catch body h))
    end.
    { apply leaves_catch.
      - apply leaves_bind; [apply leaves_modify; intros q; auto|]. intros _.
        apply leaves_bind.
        + destruct (snapshotOptions (this w)) as [opts|]; [|apply leaves_ret].
          destruct (onSnapshot opts) as [callback|]; [|apply leaves_ret].
          apply leaves_bind; [apply leaves_emit; reflexivity|]. intros _.
          apply leaves_await.
        + intros _. apply leaves_modify. intros q; auto.
      - intros e. apply leaves_emit. reflexivity. }
    match goal with
    | |- context [catch ?body ?h ?w1] =>
        destruct (Hl w1) as (H1 & H2 & H3)
    end.
    cbv zeta. rewrite H1, H2, H3. simpl. split; [reflexivity|]. right.
    split; [reflexivity|].
    rewrite released_app. unfold released at 2. simpl.
    rewrite String.eqb_refl. reflexivity.
  - erewrite catch_bind_throw.
    2:{ unfold on_transport, SandboxTransport_createSnapshotWithInfo.
        rewrite Hsb, Hsnap. reflexivity. }
    simpl. split; [reflexivity|]. left. rewrite Hsb. split; [reflexivity|].
    rewrite !released_app. unfold released at 2 3. simpl. lia.
Qed.

(** Without a teardown hook, the teardown releases the sandbox the
    transport holds exactly once, and empties the transport. *)
Lemma teardown_releases (now now_snapshot : Z) (success : bool)
    (error : option thrown) (w : World) (sb : Sandbox) :
  sandbox (transport (this w)) = Some sb ->
  onTeardown (hooks (this w)) = None ->
  let w' := (handleTeardownAndLifecycle now now_snapshot success error w).2 in
  sandbox (transport (this w')) = None
  /\ isConnected (transport (this w')) = false
  /\ released (sandboxId sb) (trace w')
     = released (sandboxId sb) (trace w) + 1.
Proof.
  intros Hsb Hhook.
  pose proof (handleSnapshot_returns now_snapshot success w) as Hret.
  pose proof (handleSnapshot_release now_snapshot success w sb Hsb)
    as (_ & Hrel).
  destruct (handleSnapshot now_snapshot success w) as [r w1] eqn:Hsnap.
  simpl in Hret, Hrel. subst r.
  unfold handleTeardownAndLifecycle. rewrite bind_get.
  erewrite catch_ok.
  2:{ erewrite bind_ok;
        [|unfold teardown_hook_step; rewrite Hhook; reflexivity].
      erewrite bind_ok; [|exact Hsnap].
      erewrite bind_ok; [|reflexivity].
      unfold on_transport. rewrite close_releases. reflexivity. }
  simpl. split; [reflexivity|]. split; [reflexivity|].
  rewrite !released_app.
  destruct Hrel as [[Hs Hr]|[Hs Hr]]; rewrite Hs, Hr;
    unfold released at 2 3; simpl; rewrite ?String.eqb_refl; simpl; lia.
Qed.

Section RunReleases.

Variable JSON_stringify : json -> string.
Variable String_of : json -> string.
Variable extractText : gmap string json -> result thrown string.
Variable parseToolRequestsFromText : string -> list ToolRequest.

Lemma leaves_turn_loop (io : RunIO) (maxTurns : Z) (tools : list ToolDefinition)
    (fuel : nat) :
  forall (turn : Z) (history : list (string * string)) (currentPrompt : string),
    leaves_sandbox
      (turn_loop JSON_stringify extractText parseToolRequestsFromText
         io maxTurns tools fuel turn history currentPrompt).
Proof.
  induction fuel as [|fuel IH]; intros turn history currentPrompt.
  - apply leaves_ret.
  - simpl. apply leaves_bind; [apply leaves_get|]. intros q.
    destruct ((turn <? maxTurns)%Z && negb (isInterrupted q));
      [|apply leaves_ret].
    apply leaves_bind; [apply leaves_emit; reflexivity|]. intros _.
    apply leaves_bind; [apply leaves_consume|]. intros _.
    apply leaves_bind.
    { destruct (stream_end _);
        first [apply leaves_ret | apply leaves_throw
              | apply leaves_modify; intros ?; auto]. }
    intros _. apply leaves_bind; [apply leaves_get|]. intros q'.
    destruct (isInterrupted q'); [apply leaves_ret|].
    apply leaves_bind; [apply leaves_await|]. intros assistantText.
    destruct ((length (parseToolRequestsFromText assistantText) =? 0)
              || (length tools =? 0)); [apply leaves_ret|].
    apply leaves_bind.
    { destruct (interrupted_in_tools _);
        first [apply leaves_ret | apply leaves_modify; intros ?; auto]. }
    intros _. apply IH.
Qed.

(** After its [connect], the [try] block of [run] keeps the transport and
    the hooks as they are, and releases nothing. *)
Lemma run_body_holds (io : RunIO) (w : World) (sb : Sandbox) :
  has_credentials (connect_io io) = true ->
  create_outcome (connect_io io) = Ok sb ->
  sandbox (transport (this
    (run_body JSON_stringify extractText parseToolRequestsFromText io w).2))
  = Some sb
  /\ hooks (this
       (run_body JSON_stringify extractText parseToolRequestsFromText io w).2)
     = hooks (this w)
  /\ forall id,
       released id (trace
         (run_body JSON_stringify extractText parseToolRequestsFromText
            io w).2)
       = released id (trace w).
Proof.
  intros Hc Hs. unfold run_body. cbv zeta.
  match goal with
  | |- context [bind (on_transport ?f) ?k w] => set (rest := k)
  end.
  assert (Hk : forall x, leaves_sandbox (rest x)).
  { intros x. unfold rest. apply leaves_bind.
    { unfold getSandboxContext. apply leaves_bind; [apply leaves_get|].
      intros q. destruct (sandbox (transport q));
        [apply leaves_ret|apply leaves_throw]. }
    intros _. apply leaves_bind; [apply leaves_await|]. intros _.
    apply leaves_bind; [apply leaves_get|]. intros q.
    apply leaves_bind; [apply leaves_emit; reflexivity|]. intros _.
    apply leaves_bind; [apply leaves_modify; intros ?; auto|]. intros _.
    apply leaves_bind; [apply leaves_turn_loop|]. intros turned.
    apply leaves_bind; [apply leaves_get|]. intros q'.
    apply leaves_bind; [apply leaves_emit; reflexivity|]. intros _.
    apply leaves_bind; [apply leaves_modify; intros ?; auto|]. intros _.
    apply leaves_ret. }
  pose proof (connect_holds (connect_io io) (option_snapshotId io)
                (transport (this w)) sb Hc Hs) as Hheld.
  unfold bind, on_transport.
  destruct (SandboxTransport_connect (connect_io io) (option_snapshotId io)
              (transport (this w))) as [r t1].
  simpl in Hheld. destruct r as [[]|e].
  - destruct (Hk tt (mkWorld (set_transport t1 (this w)) (trace w ++ [])))
      as (H1 & H2 & H3).
    rewrite H1, H2. simpl. split; [exact Hheld|].
    split; [reflexivity|]. intros id. rewrite H3. simpl.
    rewrite app_nil_r. reflexivity.
  - simpl. split; [exact Hheld|]. split; [reflexivity|].
    intros id. rewrite app_nil_r. reflexivity.
Qed.

(** X27.  A run without a teardown hook whose [connect] creates a sandbox
    releases that sandbox exactly once, by a snapshot or by [stop], and
    ends with a transport that is empty and not connected: whether the
    installation, the setup, a session or the reading of the assistant
    text fails or not, and whatever the snapshot policy is. *)
Theorem run_releases_sandbox_once (io : RunIO) (w : World) (sb : Sandbox) :
  onTeardown (hooks (this w)) = None ->
  has_credentials (connect_io io) = true ->
  create_outcome (connect_io io) = Ok sb ->
  let w' :=
    (QueryImpl_run JSON_stringify String_of extractText
       parseToolRequestsFromText io w).2 in
  sandbox (transport (this w')) = None
  /\ isConnected (transport (this w')) = false
  /\ released (sandboxId sb) (trace w')
     = released (sandboxId sb) (trace w) + 1.
Proof.
  intros Hhook Hc Hs. unfold QueryImpl_run.
  pose proof (run_body_holds io
                (mkWorld (set_queryStartTime (clock_start io) (this w))
                   (trace w)) sb Hc Hs) as (Hheld & Hhooks & Hrel).
  destruct (run_body JSON_stringify extractText parseToolRequestsFromText io
              (mkWorld (set_queryStartTime (clock_start io) (this w))
                 (trace w))) as [[n|error] w1]; simpl in Hheld, Hhooks, Hrel.
  - pose proof (teardown_releases (clock_teardown io) (clock_snapshot io)
                  true None w1 sb Hheld) as Ht.
    rewrite Hhooks in Ht. specialize (Ht Hhook).
    destruct (handleTeardownAndLifecycle (clock_teardown io)
                (clock_snapshot io) true None w1) as [[[]|e] w2];
      simpl in *; rewrite <- Hrel; exact Ht.
  - pose proof (teardown_releases (clock_teardown io) (clock_snapshot io)
                  false (Some (as_Error String_of error)) w1 sb Hheld) as Ht.
    rewrite Hhooks in Ht. specialize (Ht Hhook).
    destruct (handleTeardownAndLifecycle (clock_teardown io)
                (clock_snapshot io) false (Some (as_Error String_of error)) w1)
      as [[[]|e] w2];
      simpl in *; rewrite <- Hrel; exact Ht.
Qed.

End RunReleases.
(* --------------------------------------------------------------------- *)
(** ** How a run ends                                                     *)
(* --------------------------------------------------------------------- *)

Section RunOutcome.

Variable JSON_stringify : json -> string.
Variable String_of : json -> string.
Variable extractText : gmap string json -> result thrown string.
Variable parseToolRequestsFromText : string -> list ToolRequest.

(** X28.  The teardown never changes how a run ends: the run returns what
    its [try] block returns, and when the block throws, the run throws
    that error passed through [wrapError].  So every error of a run is of
    an [SDKError] class; and a run without a credential ends with the
    [AuthenticationError] of [connect], unchanged. *)
Theorem QueryImpl_run_outcome (io : RunIO) (w : World) :
  let body :=
    run_body JSON_stringify extractText parseToolRequestsFromText io
      (mkWorld (set_queryStartTime (clock_start io) (this w)) (trace w)) in
  let run :=
    QueryImpl_run JSON_stringify String_of extractText
      parseToolRequestsFromText io w in
  run.1 = match body.1 with
          | Ok turned => Ok turned
          | Throw error => Throw (wrapError error "Query failed")
          end
  /\ (forall e, run.1 = Throw e ->
        exists name message,
          e = ThrownError name message /\ name ∈ SDK_ERROR_CLASSES)
  /\ (has_credentials (connect_io io) = false ->
      run.1 = Throw (ThrownError "AuthenticationError"
                       "Authentication required: set ANTHROPIC_API_KEY or CLAUDE_CODE_OAUTH_TOKEN")).
Proof.
  intros body run.
  assert (Hrun : run.1 = match body.1 with
                         | Ok turned => Ok turned
                         | Throw error => Throw (wrapError error "Query failed")
                         end).
  { unfold run, QueryImpl_run. fold body.
    destruct body as [[turned|error] w1]; simpl.
    - pose proof (teardown_never_throws w1 (clock_teardown io)
                    (clock_snapshot io) true None) as Ht.
      destruct (handleTeardownAndLifecycle _ _ _ _ w1) as [[[]|e] w2];
        [reflexivity|discriminate].
    - pose proof (teardown_never_throws w1 (clock_teardown io)
                    (clock_snapshot io) false
                    (Some (as_Error String_of error))) as Ht.
      destruct (handleTeardownAndLifecycle _ _ _ _ w1) as [[[]|e] w2];
        [reflexivity|discriminate]. }
  split; [exact Hrun|]. split.
  - intros e. rewrite Hrun. destruct body.1 as [turned|error]; [discriminate|].
    intros [= <-]. apply wrapError_sdk.
  - intros Hcred. rewrite Hrun. unfold body, run_body.
    unfold bind at 1, on_transport at 1, SandboxTransport_connect.
    rewrite Hcred. reflexivity.
Qed.

End RunOutcome.

(* --------------------------------------------------------------------- *)
(** ** Attaching the snapshot to the result message                       *)
(* --------------------------------------------------------------------- *)

Lemma Forall_rev_not_result (xs : list (gmap string json)) :
  Forall (fun m => isResultMessage m = false) xs ->
  Forall (fun m => isResultMessage m = false) (rev xs).
Proof.
  induction 1 as [|x xs Hx Hxs IH]; simpl; [constructor|].
  apply Forall_app. split; [exact IH|]. constructor; [exact Hx|constructor].
Qed.

Lemma update_last_result_skips (info : SnapshotResult)
    (later earlier : list (gmap string json)) :
  Forall (fun m => isResultMessage m = false) later ->
  update_last_result info (later ++ earlier)
  = later ++ update_last_result info earlier.
Proof.
  induction later as [|m later IH]; intros H; [reflexivity|].
  inversion H as [|? ? Hm Hl]; subst. simpl. rewrite Hm, (IH Hl). reflexivity.
Qed.

(** X29.  [updateResultMessageWithSnapshot] changes the last result
    message of the log and nothing else: that message gets [snapshotId]
    and [snapshotInfo] and keeps every other field, the messages before
    and after it stay as they are (earlier result messages included), and
    a log without a result message is left unchanged. *)
Theorem updateResultMessageWithSnapshot_last_result (info : SnapshotResult)
    (w : World) :
  let w' := (updateResultMessageWithSnapshot info w).2 in
  (forall before after message,
     messages (this w) = before ++ message :: after ->
     isResultMessage message = true ->
     Forall (fun m => isResultMessage m = false) after ->
     exists updated,
       messages (this w') = before ++ updated :: after
       /\ updated !! "snapshotId" = Some (JStr (snapshotId info))
       /\ updated !! "snapshotInfo" = Some (snapshot_json info)
       /\ forall k, k <> "snapshotId" -> k <> "snapshotInfo" ->
                    updated !! k = message !! k)
  /\ (Forall (fun m => isResultMessage m = false) (messages (this w)) ->
      messages (this w') = messages (this w))
  /\ trace w' = trace w.
Proof.
  unfold updateResultMessageWithSnapshot, modify_this. simpl.
  split; [|split; [|reflexivity]].
  - intros before after message -> Hres Hafter.
    eexists. split; [|split; [|split]].
    + rewrite rev_app_distr. simpl. rewrite <- app_assoc. simpl.
      rewrite update_last_result_skips
        by (apply Forall_rev_not_result, Hafter).
      simpl. rewrite Hres. rewrite rev_app_distr. simpl.
      rewrite !rev_involutive, <- app_assoc. reflexivity.
    + rewrite lookup_insert_ne by discriminate. apply lookup_insert_eq.
    + apply lookup_insert_eq.
    + intros k K1 K2. rewrite !lookup_insert_ne by congruence. reflexivity.
  - intros Hnone.
    rewrite <- (app_nil_r (rev (messages (this w)))).
    rewrite update_last_result_skips.
    + simpl. rewrite app_nil_r. apply rev_involutive.
    + apply Forall_rev_not_result, Hnone.
Qed.
(* --------------------------------------------------------------------- *)
(** ** The setup configuration                                            *)
(* --------------------------------------------------------------------- *)

Lemma text_or_nonempty (x : option string) (d : string) :
  d <> EmptyString -> text_or x d <> EmptyString.
Proof.
  intros Hd. unfold text_or. destruct x as [s|]; [|exact Hd].
  destruct (String.eqb s "") eqn:E; [exact Hd|].
  apply String.eqb_neq, E.
Qed.

Lemma text_or_Some (s d : string) :
  s <> EmptyString -> text_or (Some s) d = s.
Proof.
  intros Hs. unfold text_or. apply String.eqb_neq in Hs. rewrite Hs.
  reflexivity.
Qed.

Section SetupProperties.

Variable sandbox_answers : nat -> SandboxCall -> result thrown CommandFinished.

Lemma follows_ret : follows sandbox_answers (setup_ret tt) [].
Proof.
  intros calls. split.
  - intros _. unfold setup_ret. rewrite app_nil_r. reflexivity.
  - intros i c H. discriminate.
Qed.

Lemma follows_bind (m : Setup unit) (k : Setup unit)
    (plan1 plan2 : list SandboxCall) :
  follows sandbox_answers m plan1 -> follows sandbox_answers k plan2 ->
  follows sandbox_answers (setup_bind m (fun _ => k)) (plan1 ++ plan2).
Proof.
  intros Hm Hk calls. destruct (Hm calls) as [Hm1 Hm2].
  assert (Hall1 : (forall i c, (plan1 ++ plan2) !! i = Some c ->
                     call_succeeds sandbox_answers (length calls + i) c = true)
                  -> m calls = (Ok tt, calls ++ plan1)).
  { intros Hall. apply Hm1. intros i c Hi. apply Hall.
    apply lookup_app_l_Some, Hi. }
  split.
  - intros Hall. unfold setup_bind. rewrite (Hall1 Hall).
    destruct (Hk (calls ++ plan1)) as [Hk1 _].
    rewrite Hk1, app_assoc; [reflexivity|].
    intros i c Hi. rewrite length_app, <- Nat.add_assoc. apply Hall.
    rewrite lookup_app_r by lia.
    replace (length plan1 + i - length plan1) with i by lia. exact Hi.
  - intros i c Hi Hfail Hbefore. unfold setup_bind.
    destruct (decide (i < length plan1)) as [Hlt|Hge].
    + rewrite lookup_app_l in Hi by exact Hlt.
      destruct (Hm2 i c Hi Hfail) as (e & He & Hrest).
      { intros j c' Hj Hc'. apply (Hbefore j c' Hj).
        apply lookup_app_l_Some, Hc'. }
      rewrite He. exists e. rewrite take_app_le by lia. auto.
    + rewrite Hm1.
      2:{ intros j c' Hj. apply (Hbefore j c').
          - apply lookup_lt_Some in Hj. lia.
          - apply lookup_app_l_Some, Hj. }
      destruct (Hk (calls ++ plan1)) as [_ Hk2].
      rewrite lookup_app_r in Hi by lia.
      destruct (Hk2 (i - length plan1) c Hi) as (e & He & Hrest).
      { rewrite length_app.
        replace (length calls + length plan1 + (i - length plan1))
          with (length calls + i) by lia. exact Hfail. }
      { intros j c' Hj Hc'. rewrite length_app, <- Nat.add_assoc.
        apply Hbefore; [lia|]. rewrite lookup_app_r by lia.
        replace (length plan1 + j - length plan1) with j by lia. exact Hc'. }
      rewrite He. exists e.
      rewrite take_app_ge by lia.
      replace (S i - length plan1) with (S (i - length plan1)) by lia.
      rewrite app_assoc. split; [reflexivity|].
      rewrite length_app in Hrest.
      replace (length calls + length plan1 + (i - length plan1))
        with (length calls + i) in Hrest by lia. exact Hrest.
Qed.

Lemma follows_ext (m m' : Setup unit) (plan : list SandboxCall) :
  (forall calls, m calls = m' calls) ->
  follows sandbox_answers m plan -> follows sandbox_answers m' plan.
Proof.
  intros Hext Hm calls. rewrite <- Hext. apply Hm.
Qed.

(** A command followed by the test of its exit code. *)
Lemma follows_checked (command : string) (arguments : list string)
    (cwd : option string) (message : string) :
  follows sandbox_answers
    (setup_bind (sandbox_call sandbox_answers
                   (SandboxRunCommand command arguments cwd))
       (check_exit message))
    [SandboxRunCommand command arguments cwd].
Proof.
  intros calls. unfold setup_bind, sandbox_call, check_exit. split.
  - intros Hall. specialize (Hall 0 _ eq_refl). rewrite Nat.add_0_r in Hall.
    unfold call_succeeds in Hall.
    destruct (sandbox_answers (length calls) _) as [result|e];
      [|discriminate].
    rewrite Hall. reflexivity.
  - intros [|i] c Hi Hfail _; [|destruct i; discriminate].
    injection Hi as <-. rewrite Nat.add_0_r in *. unfold call_succeeds in Hfail.
    destruct (sandbox_answers (length calls) _) as [result|e] eqn:E.
    + rewrite Hfail. simpl. eexists. split; [reflexivity|].
      split; [discriminate|]. intros ? [= <-]. eexists. reflexivity.
    + eexists. split; [reflexivity|]. split; [|discriminate].
      intros ? [= <-]. reflexivity.
Qed.

Lemma follows_writeFiles (fs : list (string * string)) :
  follows sandbox_answers (SandboxContext_writeFiles sandbox_answers fs)
    [SandboxWriteFiles fs].
Proof.
  intros calls. unfold SandboxContext_writeFiles, setup_bind, sandbox_call.
  split.
  - intros Hall. specialize (Hall 0 _ eq_refl). rewrite Nat.add_0_r in Hall.
    unfold call_succeeds in Hall.
    destruct (sandbox_answers (length calls) _) as [result|e];
      [reflexivity|discriminate].
  - intros [|i] c Hi Hfail _; [|destruct i; discriminate].
    injection Hi as <-. rewrite Nat.add_0_r in *. unfold call_succeeds in Hfail.
    destruct (sandbox_answers (length calls) _) as [result|e] eqn:E;
      [discriminate|].
    eexists. split; [reflexivity|]. split; [|discriminate].
    intros ? [= <-]. reflexivity.
Qed.

Lemma follows_mkdir (path : string) :
  follows sandbox_answers (SandboxContext_mkdir sandbox_answers path)
    [SandboxRunCommand "mkdir" ["-p"; path] None].
Proof.
  apply follows_checked.
Qed.

Lemma follows_run_commands (default_cwd : string) (cmds : list SetupCommand) :
  default_cwd <> EmptyString ->
  follows sandbox_answers (run_commands sandbox_answers default_cwd cmds)
    (map (fun c =>
            SandboxRunCommand (cmd c) (nullish (args c) [])
              (Some (text_or (command_cwd c) default_cwd))) cmds).
Proof.
  intros Hd. induction cmds as [|c cmds IH]; [apply follows_ret|].
  cbn [run_commands map].
  apply (follows_ext
           (setup_bind
              (setup_bind
                 (sandbox_call sandbox_answers
                    (SandboxRunCommand (cmd c) (nullish (args c) [])
                       (Some (text_or (command_cwd c) default_cwd))))
                 (check_exit ("Command '" +:+ cmd c +:+ "' failed: ")))
              (fun _ => run_commands sandbox_answers default_cwd cmds))).
  - intros calls. unfold setup_bind, SandboxContext_runCommand.
    rewrite text_or_Some by (apply text_or_nonempty, Hd).
    destruct (sandbox_call sandbox_answers _ calls) as [[result|e] calls'];
      reflexivity.
  - apply (follows_bind _ _ [_]); [apply follows_checked|exact IH].
Qed.

(** X30.  [executeSetupConfig] makes the calls of the configuration in
    the order files, directory and clone of the repository, installation
    of the packages, commands.  It returns after all of them when each
    one succeeds; otherwise it throws right after the first call that
    throws or ends with a non-zero exit code, and none of the later calls
    is made. *)
Theorem executeSetupConfig_follows_plan (setup : SetupConfig) :
  ((forall i c, setup_plan setup !! i = Some c ->
                call_succeeds sandbox_answers i c = true) ->
   executeSetupConfig sandbox_answers setup [] = (Ok tt, setup_plan setup))
  /\ (forall i c,
        setup_plan setup !! i = Some c ->
        call_succeeds sandbox_answers i c = false ->
        (forall j c', j < i -> setup_plan setup !! j = Some c' ->
                      call_succeeds sandbox_answers j c' = true) ->
        exists e,
          executeSetupConfig sandbox_answers setup []
          = (Throw e, take (S i) (setup_plan setup))
          /\ (forall e', sandbox_answers i c = Throw e' -> e = e')
          /\ (forall result,
                sandbox_answers i c = Ok result ->
                exists message,
                  e = ThrownError "SandboxError"
                        (message +:+ command_stderr result))).
Proof.
  assert (Hcwd : text_or (workingDirectory setup) "/vercel/sandbox"
                 <> EmptyString)
    by (apply text_or_nonempty; discriminate).
  assert (H : follows sandbox_answers
                (executeSetupConfig sandbox_answers setup) (setup_plan setup)).
  { unfold executeSetupConfig, setup_plan. cbv zeta.
    apply follows_bind.
    { destruct (files setup) as [[|f fs]|];
        [apply follows_ret|apply follows_writeFiles|apply follows_ret]. }
    apply follows_bind.
    { destruct (githubRepo setup) as [r|]; [|apply follows_ret].
      apply (follows_bind _ _ [_] [_]); [apply follows_mkdir|].
      unfold SandboxContext_runCommand.
      rewrite text_or_Some by exact Hcwd. apply follows_checked. }
    apply follows_bind.
    { destruct (npmInstall setup) as [[|p ps]|];
        [apply follows_ret| |apply follows_ret].
      unfold SandboxContext_runCommand.
      rewrite text_or_Some by exact Hcwd. apply follows_checked. }
    destruct (commands setup) as [[|c cs]|];
      [apply follows_ret| |apply follows_ret].
    apply follows_run_commands, Hcwd. }
  destruct (H []) as [H1 H2]. split; [exact H1|exact H2].
Qed.

End SetupProperties.

(* ===================================================================== *)
(** * 8. The further properties on sample inputs                          *)
(* ===================================================================== *)

(** X3 on the sample stream: cut in three chunks or read at once. *)
Lemma parseNDJSONStream_chunking_independent_witness :
  text_of sample_chunks = text_of [sample_text]
  /\ parseNDJSONStream sample_parse sample_trim sample_chunks
     = parseNDJSONStream sample_parse sample_trim [sample_text].
Proof.
  assert (H : text_of sample_chunks = text_of [sample_text]) by reflexivity.
  split; [exact H|].
  exact (proj1 (parseNDJSONStream_chunking_independent sample_parse sample_trim
                  sample_chunks [sample_text] H)).
Defined.

(** X4 on a stream with a line of debug output between two messages: the
    first message is yielded, the second is never reached. *)
Lemma parseNDJSONStream_stops_at_first_error_witness :
  parseLine sample_parse sample_trim sample_bad_line
  = Throw (mkParseError "Failed to parse JSON: Unexpected token"
             (Some sample_bad_line) (Some "Unexpected token"))
  /\ parseNDJSONStream sample_parse sample_trim
       [String.concat nl
          [line_of_type "result"; sample_bad_line; line_of_type "assistant"]]
     = ([JObj (object_of_type "result")],
        Some (mkParseError "Failed to parse JSON: Unexpected token"
                (Some sample_bad_line) (Some "Unexpected token"))).
Proof.
  assert (Hbad : parseLine sample_parse sample_trim sample_bad_line
                 = Throw (mkParseError "Failed to parse JSON: Unexpected token"
                            (Some sample_bad_line) (Some "Unexpected token")))
    by reflexivity.
  split; [exact Hbad|].
  apply (parseNDJSONStream_stops_at_first_error sample_parse sample_trim
           [(line_of_type "result", Some (JObj (object_of_type "result")))]
           sample_bad_line _ [line_of_type "assistant"]).
  - constructor; [|constructor]. simpl.
    apply message_line;
      [reflexivity | discriminate | reflexivity | eexists; reflexivity].
  - reflexivity.
  - exact Hbad.
  - constructor; [reflexivity|constructor].
  - reflexivity.
Defined.

(** X5 on two sample messages, the text cut in the middle of the first. *)
Lemma serialize_parse_round_trip_witness :
  parseNDJSONStream sample_parse sample_trim
    [ substring 0 5 (serializeMessage sample_stringify_line
                       (object_of_type "result"));
      substring 5 13 (serializeMessage sample_stringify_line
                        (object_of_type "result"))
      +:+ serializeMessage sample_stringify_line (object_of_type "assistant") ]
  = ([JObj (object_of_type "result"); JObj (object_of_type "assistant")],
     None).
Proof.
  apply (serialize_parse_round_trip sample_stringify_line sample_parse
           sample_trim [object_of_type "result"; object_of_type "assistant"]).
  - reflexivity.
  - constructor; [|constructor; [|constructor]];
      (split; [reflexivity|]; split; [discriminate|];
       split; [reflexivity|eexists; reflexivity]).
  - reflexivity.
Defined.

(** X6 on the sample stream: three stdout events with stderr output in
    between, or the whole text in one event. *)
Lemma live_stream_depends_on_stdout_text_witness :
  stdout_text sample_logs = stdout_text [StdoutData sample_text]
  /\ live_stream sample_stringify sample_parse sample_trim connected_transport
       (fun n => "uuid-" +:+ pretty n) "session_2" sample_logs
     = live_stream sample_stringify sample_parse sample_trim
         connected_transport (fun n => "uuid-" +:+ pretty n) "session_2"
         [StdoutData sample_text].
Proof.
  assert (H : stdout_text sample_logs = stdout_text [StdoutData sample_text])
    by reflexivity.
  split; [exact H|].
  exact (proj1 (live_stream_depends_on_stdout_text sample_stringify
                  sample_parse sample_trim connected_transport
                  (fun n => "uuid-" +:+ pretty n) "session_2"
                  sample_logs [StdoutData sample_text] H)).
Defined.

(** X7 on a line of debug output between two messages. *)
Lemma live_stream_passes_over_junk_witness :
  junk_line sample_parse sample_trim sample_bad_line
  /\ live_stream sample_stringify sample_parse sample_trim connected_transport
       (fun n => "uuid-" +:+ pretty n) "session_2"
       [StdoutData
          (String.concat nl
             [line_of_type "result"; sample_bad_line;
              line_of_type "assistant"])]
     = live_stream sample_stringify sample_parse sample_trim
         connected_transport (fun n => "uuid-" +:+ pretty n) "session_2"
         [StdoutData
            (String.concat nl
               [line_of_type "result"; line_of_type "assistant"])].
Proof.
  assert (H : junk_line sample_parse sample_trim sample_bad_line).
  { right. left. eexists. reflexivity. }
  split; [exact H|].
  apply (live_stream_passes_over_junk sample_stringify sample_parse sample_trim
           connected_transport (fun n => "uuid-" +:+ pretty n) "session_2"
           [line_of_type "result"] [line_of_type "assistant"] sample_bad_line).
  - constructor; [reflexivity|]. constructor; [reflexivity|].
    constructor; [reflexivity|constructor].
  - discriminate.
  - exact H.
  - reflexivity.
  - reflexivity.
Defined.

(** X11 on a session whose CLI exits with code 1 after the sample
    stream. *)
Lemma startSession_nonzero_exit_witness :
  exitCode (mkCommandFinished 1 "" "boom") <> 0%Z
  /\ (SandboxTransport_startSession sample_stringify sample_parse sample_trim
        (sample_session (mkCommandFinished 1 "" "boom"))
        connected_transport).1.2
     = Throw (ThrownError "CLIExecutionError"
                "Claude CLI exited with code 1: boom")
  /\ length (SandboxTransport_startSession sample_stringify sample_parse
               sample_trim (sample_session (mkCommandFinished 1 "" "boom"))
               connected_transport).1.1
     = 2.
Proof.
  assert (H : exitCode (mkCommandFinished 1 "" "boom") <> 0%Z) by discriminate.
  split; [exact H|].
  rewrite (startSession_nonzero_exit sample_stringify sample_parse sample_trim
             (sample_session (mkCommandFinished 1 "" "boom"))
             connected_transport live_sandbox (mkCommandFinished 1 "" "boom")
             eq_refl eq_refl eq_refl eq_refl eq_refl eq_refl eq_refl H eq_refl).
  split; reflexivity.
Defined.

(** X12 on a stream with a success result, then an error message, then
    another result. *)
Lemma getFinalResult_throws_first_error_witness :
  getFinalResult sample_stringify
    [sample_success_result; sample_error_message; sample_success_result]
  = Throw (ThrownError "CLIExecutionError" "rate limited").
Proof.
  apply (getFinalResult_throws_first_error sample_stringify
           [sample_success_result] [sample_success_result]
           sample_error_message (<["message" := JStr "rate limited"]> ∅)
           "rate limited").
  - constructor; [reflexivity|constructor].
  - reflexivity.
  - reflexivity.
  - reflexivity.
Defined.


(** X16 on an installation whose [npm install] exits with code 1. *)
Lemma installCLI_outcome_witness :
  is_Some (sandbox connected_transport)
  /\ SandboxTransport_installCLI connected_transport failing_install
     = Throw (ThrownError "CLIInstallError"
                "Failed to install Claude CLI: npm ERR! network").
Proof.
  assert (H : is_Some (sandbox connected_transport)) by (eexists; reflexivity).
  split; [exact H|].
  apply (proj2 (proj2 (installCLI_outcome connected_transport failing_install
                         H)) (mkCommandFinished 1 "" "npm ERR! network")).
  - reflexivity.
  - discriminate.
Defined.

(** X17 on a fresh sandbox whose installation fails. *)
Lemma connect_surfaces_install_failure_witness :
  (SandboxTransport_connect
     (mkConnectIO true (Ok live_sandbox)
        (SandboxTransport_installCLI
           (mkTransport (Some live_sandbox) false None None) failing_install))
     None idle_transport).1
  = Throw (ThrownError "CLIInstallError"
             "Failed to install Claude CLI: npm ERR! network")
  /\ sandbox
       (SandboxTransport_connect
          (mkConnectIO true (Ok live_sandbox)
             (SandboxTransport_installCLI
                (mkTransport (Some live_sandbox) false None None)
                failing_install))
          None idle_transport).2
     = Some live_sandbox.
Proof.
  pose proof (connect_surfaces_install_failure
                (mkConnectIO true (Ok live_sandbox)
                   (SandboxTransport_installCLI
                      (mkTransport (Some live_sandbox) false None None)
                      failing_install))
                failing_install idle_transport live_sandbox
                (ThrownError "CLIInstallError"
                   "Failed to install Claude CLI: npm ERR! network")
                eq_refl eq_refl eq_refl eq_refl eq_refl) as H.
  destruct (SandboxTransport_connect _ None idle_transport) as [outcome t'].
  destruct H as (H1 & _ & H2 & _). split; [exact H1|exact H2].
Defined.

(** X18 on a connect that succeeds. *)
Lemma connect_then_close_witness :
  (SandboxTransport_close
     (SandboxTransport_connect (mkConnectIO true (Ok live_sandbox) (Ok tt))
        None idle_transport).2).2
  = [EvStop "sbx_1"]
  /\ sandbox
       (SandboxTransport_close
          (SandboxTransport_connect
             (mkConnectIO true (Ok live_sandbox) (Ok tt))
             None idle_transport).2).1
     = None.
Proof.
  pose proof (connect_then_close (mkConnectIO true (Ok live_sandbox) (Ok tt))
                None idle_transport eq_refl eq_refl) as H.
  destruct (SandboxTransport_connect _ None idle_transport) as [outcome t1].
  simpl. destruct (SandboxTransport_close t1) as [t2 calls].
  destruct H as (_ & _ & Hcalls & Hheld & _). split; [exact Hcalls|exact Hheld].
Defined.

(** X19 on the sample transport: the snapshot succeeds and releases the
    sandbox, the two closes after it stop nothing. *)
Lemma sandbox_released_once_witness :
  released "sbx_1"
    ((SandboxTransport_createSnapshotWithInfo 100 connected_transport).2
     ++ (SandboxTransport_close
           (SandboxTransport_createSnapshotWithInfo 100
              connected_transport).1.2).2)
  = 1.
Proof.
  pose proof (sandbox_released_once 100 connected_transport live_sandbox
                eq_refl) as H.
  destruct (SandboxTransport_createSnapshotWithInfo 100 connected_transport)
    as [[outcome t1] calls1].
  simpl. destruct (SandboxTransport_close t1) as [t2 calls2].
  destruct (SandboxTransport_close t2) as [t3 calls3].
  destruct H as (H1 & _ & _ & _ & _ & _ & ->).
  rewrite app_nil_r in H1. exact H1.
Defined.

(** X20 on [{ type: assistant }]: enriched by a transport without a
    session, then again by one with a session. *)
Lemma enrichMessage_idempotent_witness :
  exists message : json,
    SandboxTransport_enrichMessage sample_stringify idle_transport
      "uuid-1" "session_9" (JObj (object_of_type "assistant"))
    = Ok message
    /\ SandboxTransport_enrichMessage sample_stringify connected_transport
         "uuid-2" "session_3" message
       = Ok message.
Proof.
  eexists. split; [reflexivity|].
  apply (enrichMessage_idempotent sample_stringify idle_transport
           connected_transport "uuid-1" "session_9" "uuid-2" "session_3"
           (JObj (object_of_type "assistant"))).
  reflexivity.
Defined.

(** X21 on [{ type: assistant }] in a fresh query. *)
Lemma QueryImpl_enrichMessage_stable_witness :
  QueryImpl_enrichMessage (this (fresh_world args_always)) "uuid-7"
    (QueryImpl_enrichMessage (this (fresh_world args_default)) "uuid-1"
       (object_of_type "assistant"))
  = QueryImpl_enrichMessage (this (fresh_world args_default)) "uuid-1"
      (object_of_type "assistant").
Proof.
  assert (H1 : "uuid-1" <> EmptyString) by discriminate.
  assert (H2 : _sessionId (this (fresh_world args_default)) <> EmptyString)
    by discriminate.
  exact (proj2 (proj2 (proj2
           (QueryImpl_enrichMessage_stable (this (fresh_world args_default))
              (this (fresh_world args_always)) "uuid-1" "uuid-7"
              (object_of_type "assistant") H1 H2)))).
Defined.

(** X27 on a sample run of five turns at most, without a teardown hook. *)
Lemma run_releases_sandbox_once_witness :
  onTeardown (hooks (this (fresh_world args_plain))) = None
  /\ released "sbx_1"
       (trace (QueryImpl_run sample_stringify sample_stringify
                 sample_extractText sample_requests
                 (sample_run (Some 5%Z) true) (fresh_world args_plain)).2)
     = 1.
Proof.
  split; [reflexivity|].
  exact (proj2 (proj2
           (run_releases_sandbox_once sample_stringify sample_stringify
              sample_extractText sample_requests (sample_run (Some 5%Z) true)
              (fresh_world args_plain) live_sandbox
              eq_refl eq_refl eq_refl))).
Defined.

(** [maxTurns: 2.5] with a tool that every answer asks for: the guard
    [turn < 2.5] admits three sessions. *)
Example run_turn_loop_fractional_scenario :
  let loop :=
    Generator.run_turn_loop sample_stringify sample_extractText
      sample_tool_requests Generator.drives_to_end sample_tool_run
      (Some (Generator.JsFinite 5 2)) 10 (connected_world args_default) in
  loop.1 = Ok (Some 3%Z) /\ turns_performed loop.2 = 3.
Proof. vm_compute. split; reflexivity. Qed.

(** [maxTurns: Infinity] on the same run: the loop uses up a budget of 25
    sessions and has not ended. *)
Example run_turn_loop_unbounded_scenario :
  let loop :=
    Generator.run_turn_loop sample_stringify sample_extractText
      sample_tool_requests Generator.drives_to_end sample_tool_run
      (Some Generator.JsInfinity) 25 (connected_world args_default) in
  loop.1 = Ok None /\ turns_performed loop.2 = 25.
Proof. vm_compute. split; reflexivity. Qed.

(** A consumer that breaks out of [for await] at the first message: the
    [session_started] message was yielded and is not in the log. *)
Example run_body_break_scenario :
  let body :=
    Generator.run_body sample_stringify sample_extractText sample_requests
      sample_break_at_first (sample_run None true) None 11
      (fresh_world args_plain) in
  body.1 = Throw Generator.Returned
  /\ isInterrupted (this body.2) = true
  /\ messages (this body.2) = []
  /\ length (yielded (trace body.2)) = 1.
Proof. vm_compute. repeat split; reflexivity. Qed.
